(** * Selection-set synthesis: a shallow embedding

    Two programs of the repository are embedded here:

    - the class [SelectionSetToObject] of
      [packages/plugins/visitor-plugin-common/src/selection-set-to-object.ts],
      which turns a selection set into the text of a structural type, and
    - the function [buildInnerModelsArray] of [src/inner-models-builer.ts],
      which turns a selection set into a flat array of named models.

    JavaScript values are modelled as the code uses them: an exception is
    a [Throw] completion, [undefined]/[null] is [None], a plain object
    used as a dictionary is an insertion-ordered list of own properties
    that falls back to [Object.prototype] on lookup, and an object that is
    reachable through two references lives in an explicit heap. *)

From Stdlib Require Import String Ascii List Bool Arith NArith Lia.
From stdpp Require Import base option list strings pretty gmap.

Local Open Scope string_scope.
Local Open Scope list_scope.

(** ** Completions: normal return or thrown exception *)

Inductive JsError : Type :=
| TypeError_read (prop : string)
    (* Cannot read property [prop] of undefined (or null) *)
| TypeError_not_a_function (prop : string)
    (* [x.prop] is not a function *)
| Error (message : string).

Inductive Completion (A : Type) : Type :=
| Normal (value : A)
| Throw (e : JsError).
Arguments Normal {A} value.
Arguments Throw {A} e.

Definition bind {A B} (c : Completion A) (k : A -> Completion B) : Completion B :=
  match c with
  | Normal a => k a
  | Throw e => Throw e
  end.

Declare Scope js_scope.
Delimit Scope js_scope with js.
Notation "x <- c ;; k" := (bind c (fun x => k))
  (at level 100, c at next level, right associativity) : js_scope.
Local Open Scope js_scope.

Definition throws {A} (c : Completion A) : Prop :=
  match c with Normal _ => False | Throw _ => True end.


(** [array.forEach] / [for ... of] with a body that may throw: the state
    is threaded from one element to the next, an exception ends the loop. *)
Section forEach.
Context {A S : Type} (body : A -> S -> Completion S).

Fixpoint forEach (l : list A) (s : S) : Completion S :=
  match l with
  | [] => Normal s
  | x :: rest => s' <- body x s ;; forEach rest s'
  end.
End forEach.

(** [Array.prototype.join] on an array of strings. *)
Definition join (sep : string) (l : list string) : string := String.concat sep l.

(** ** Plain objects used as dictionaries

    An object literal [{}] has [Object.prototype] as its prototype, so
    [obj[key]] finds the inherited members when [key] is not an own
    property.  Own properties are kept in insertion order. *)

Definition Object_prototype_keys : list string :=
  [ "constructor"; "__defineGetter__"; "__defineSetter__"; "hasOwnProperty";
    "__lookupGetter__"; "__lookupSetter__"; "isPrototypeOf";
    "propertyIsEnumerable"; "toString"; "valueOf"; "__proto__";
    "toLocaleString" ].

Definition inherited (key : string) : bool :=
  bool_decide (key ∈ Object_prototype_keys).

Definition JsObject (V : Type) : Type := list (string * V).

Fixpoint own {V} (obj : JsObject V) (key : string) : option V :=
  match obj with
  | [] => None
  | (k, v) :: rest => if String.eqb k key then Some v else own rest key
  end.

(** [obj[key] = v] *)
Fixpoint assign {V} (obj : JsObject V) (key : string) (v : V) : JsObject V :=
  match obj with
  | [] => [(key, v)]
  | (k, w) :: rest =>
      if String.eqb k key then (k, v) :: rest else (k, w) :: assign rest key v
  end.

(** *** [Object.keys]: array indices in ascending order, then the other
    keys in insertion order (OrdinaryOwnPropertyKeys). *)

Definition digit_of (c : ascii) : option N :=
  let n := N_of_ascii c in
  if ((48 <=? n) && (n <=? 57))%N then Some (n - 48)%N else None.

Fixpoint decimal (s : string) (acc : N) : option N :=
  match s with
  | EmptyString => Some acc
  | String c rest =>
      match digit_of c with
      | Some d => decimal rest (10 * acc + d)%N
      | None => None
      end
  end.

(** The canonical numeric strings below 2^32 - 1. *)
Definition array_index (key : string) : option N :=
  match key with
  | EmptyString => None
  | String c rest =>
      if (Ascii.eqb c "0" && negb (String.eqb rest ""))%bool then None
      else match decimal key 0 with
           | Some n => if (n <? 4294967295)%N then Some n else None
           | None => None
           end
  end.

Fixpoint insert_index (n : N) (key : string) (l : list (N * string)) : list (N * string) :=
  match l with
  | [] => [(n, key)]
  | (m, k) :: rest =>
      if (n <=? m)%N then (n, key) :: l else (m, k) :: insert_index n key rest
  end.

Fixpoint indices_of (keys : list string) : list (N * string) :=
  match keys with
  | [] => []
  | k :: rest =>
      match array_index k with
      | Some n => insert_index n k (indices_of rest)
      | None => indices_of rest
      end
  end.

Definition Object_keys {V} (obj : JsObject V) : list string :=
  let keys := map fst obj in
  map snd (indices_of keys)
    ++ filter (fun k => array_index k = None) keys.

(** ** The schema (graphql-js objects, as far as the code reads them)

    A named type object is identified by its name and kind; the field
    map of an object or interface type is held by the schema under the
    type's name.  Field types wrap a named type in list and non-null
    markers. *)

Inductive TypeKind : Type :=
| SCALAR | OBJECT | INTERFACE | UNION | ENUM | INPUT_OBJECT.

Global Instance TypeKind_eq_dec : EqDecision TypeKind.
Proof. solve_decision. Defined.

Record GraphQLNamedType : Type := mkNamedType {
  type_name : string;
  type_kind : TypeKind
}.

Global Instance GraphQLNamedType_eq_dec : EqDecision GraphQLNamedType.
Proof. solve_decision. Defined.

Inductive GraphQLType : Type :=
| Named (t : GraphQLNamedType)
| GraphQLList (ofType : GraphQLType)
| GraphQLNonNull (ofType : GraphQLType).

Record GraphQLField : Type := mkField {
  field_type : GraphQLType
}.

Record TypeDefinition : Type := mkTypeDefinition {
  def_kind : TypeKind;
  def_fields : gmap string GraphQLField
}.

Record GraphQLSchema : Type := mkSchema {
  typeMap : gmap string TypeDefinition;
  queryType : option GraphQLNamedType;
  mutationType : option GraphQLNamedType;
  subscriptionType : option GraphQLNamedType
}.

(** [schema.getType(name)] *)
Definition getType (schema : GraphQLSchema) (name : string) : option GraphQLNamedType :=
  d ← typeMap schema !! name; Some (mkNamedType name (def_kind d)).

(** [type.getFields()] *)
Definition getFields (schema : GraphQLSchema) (t : GraphQLNamedType) : gmap string GraphQLField :=
  match typeMap schema !! type_name t with
  | Some d => def_fields d
  | None => ∅
  end.

Definition isObjectType (t : option GraphQLNamedType) : bool :=
  match t with Some t => bool_decide (type_kind t = OBJECT) | None => false end.
Definition isInterfaceType (t : option GraphQLNamedType) : bool :=
  match t with Some t => bool_decide (type_kind t = INTERFACE) | None => false end.
Definition isUnionType (t : option GraphQLNamedType) : bool :=
  match t with Some t => bool_decide (type_kind t = UNION) | None => false end.
Definition isEnumType (t : option GraphQLNamedType) : bool :=
  match t with Some t => bool_decide (type_kind t = ENUM) | None => false end.
Definition isScalarType (t : option GraphQLNamedType) : bool :=
  match t with Some t => bool_decide (type_kind t = SCALAR) | None => false end.

(** [isEqualType] on a named type and a possibly absent root type:
    identity of the type objects. *)
Definition isEqualType (a : GraphQLNamedType) (b : option GraphQLNamedType) : bool :=
  bool_decide (Some a = b).

(** [getNamedType] of graphql-js. *)
Fixpoint getNamedType (t : GraphQLType) : GraphQLNamedType :=
  match t with
  | Named n => n
  | GraphQLList t' => getNamedType t'
  | GraphQLNonNull t' => getNamedType t'
  end.

(** The two meta fields of the root types, [SchemaMetaFieldDef] and
    [TypeMetaFieldDef] of graphql-js. *)
Definition SchemaMetaFieldDef : GraphQLField :=
  mkField (GraphQLNonNull (Named (mkNamedType "__Schema" OBJECT))).
Definition TypeMetaFieldDef : GraphQLField :=
  mkField (Named (mkNamedType "__Type" OBJECT)).

(** ** The document (graphql-js AST, as far as the code reads it) *)

Inductive SelectionNode : Type :=
| FIELD (alias : option string) (name : string) (selectionSet : option SelectionSetNode)
| FRAGMENT_SPREAD (name : string)
| INLINE_FRAGMENT (typeCondition : option string) (selectionSet : SelectionSetNode)
with SelectionSetNode : Type :=
| SelectionSet (selections : list SelectionNode).

(** Induction on documents: a selection set holds a list of nodes. *)
Section SelectionNode_induction.
Variable P : SelectionNode -> Prop.
Variable Q : SelectionSetNode -> Prop.
Hypothesis P_FIELD : forall alias name selectionSet,
  match selectionSet with Some nested => Q nested | None => True end ->
  P (FIELD alias name selectionSet).
Hypothesis P_FRAGMENT_SPREAD : forall name, P (FRAGMENT_SPREAD name).
Hypothesis P_INLINE_FRAGMENT : forall typeCondition selectionSet,
  Q selectionSet -> P (INLINE_FRAGMENT typeCondition selectionSet).
Hypothesis Q_SelectionSet : forall l, Forall P l -> Q (SelectionSet l).

Fixpoint SelectionNode_induction (node : SelectionNode) : P node :=
  match node with
  | FIELD alias name selectionSet =>
      P_FIELD alias name selectionSet
        match selectionSet
              return match selectionSet with Some nested => Q nested | None => True end
        with
        | Some nested => SelectionSetNode_induction nested
        | None => I
        end
  | FRAGMENT_SPREAD name => P_FRAGMENT_SPREAD name
  | INLINE_FRAGMENT typeCondition selectionSet =>
      P_INLINE_FRAGMENT typeCondition selectionSet
        (SelectionSetNode_induction selectionSet)
  end
with SelectionSetNode_induction (selectionSet : SelectionSetNode) : Q selectionSet :=
  match selectionSet with
  | SelectionSet l =>
      Q_SelectionSet l
        ((fix all (l : list SelectionNode) : Forall P l :=
            match l return Forall P l with
            | [] => @List.Forall_nil _ P
            | node :: rest =>
                @List.Forall_cons _ P node rest (SelectionNode_induction node) (all rest)
            end) l)
  end.
End SelectionNode_induction.

(** ** [selection-set-to-object.ts] *)

Module selection_set_to_object.

Definition PrimitiveField : Type := string.
Definition FragmentSpreadField : Type := string.

Module PrimitiveAliasedFields.
Record t : Type := mk { alias : string; fieldName : string }.
End PrimitiveAliasedFields.

Module LinkField.
Record t : Type := mk {
  alias : option string;
  name : string;
  type : string;
  selectionSet : string
}.
End LinkField.

(** [{ [onType: string]: string[] }] *)
Definition InlineFragmentField : Type := JsObject (list string).

(** [ScalarsMap] of [./types]: scalar name to target type text. *)
Definition ScalarsMap : Type := JsObject string.

(** The options object handed to the naming policy. *)
Record ConvertOptions : Type := mkConvertOptions {
  useTypesPrefix : option bool;
  suffix : option string
}.

Definition ConvertNameFn : Type := string -> ConvertOptions -> string.

Definition isMetadataFieldName (name : string) : bool :=
  bool_decide (name ∈ ["__schema"; "__type"]).

Definition isRootType (type : GraphQLNamedType) (schema : GraphQLSchema) : bool :=
  isEqualType type (queryType schema)
  || isEqualType type (mutationType schema)
  || isEqualType type (subscriptionType schema).

Definition metadataFieldMap (name : string) : option GraphQLField :=
  if String.eqb name "__schema" then Some SchemaMetaFieldDef
  else if String.eqb name "__type" then Some TypeMetaFieldDef
  else None.

(** Modelled from the spec: [getBaseType] of [./utils] is not among the
    sources; the Type Classifier strips the list and required wrappers of
    a field's declared type to expose its named base type. *)
Definition getBaseType (type : GraphQLType) : GraphQLNamedType := getNamedType type.

(** Modelled from the spec: [quoteIfNeeded] of [./utils] is not among the
    sources; the parts are combined by the given connective, a single
    part stands for itself and no part at all is the empty text. *)
Definition quoteIfNeeded (array : list string) (joinWith : string) : string :=
  match array with
  | [] => ""
  | [single] => single
  | _ => "(" +:+ join joinWith array +:+ ")"
  end.

(** What a subclass supplies: [wrapTypeWithModifiers], which the base
    class leaves to it, and [formatNamedField], which it may override. *)
Record Subclass : Type := mkSubclass {
  wrapTypeWithModifiers : string -> GraphQLType -> string;
  formatNamedField : string -> string
}.

(** The instance: its class, the six accumulators and the constructor's
    arguments. *)
Record SelectionSetToObject : Type := mkSelectionSetToObject {
  class_of : Subclass;
  _primitiveFields : list PrimitiveField;
  _primitiveAliasedFields : list PrimitiveAliasedFields.t;
  _linksFields : list LinkField.t;
  _fragmentSpreads : list FragmentSpreadField;
  _inlineFragments : InlineFragmentField;
  _queriedForTypename : bool;
  _scalars : ScalarsMap;
  _schema : GraphQLSchema;
  _convertName : ConvertNameFn;
  _addTypename : bool;
  _parentSchemaType : option GraphQLNamedType;
  _selectionSet : option SelectionSetNode
}.

(** [new SelectionSetToObject(...)], with the field initialisers. *)
Definition new (class : Subclass) (scalars : ScalarsMap) (schema : GraphQLSchema)
    (convertName : ConvertNameFn) (addTypename : bool)
    (parentSchemaType : option GraphQLNamedType)
    (selectionSet : option SelectionSetNode) : SelectionSetToObject :=
  {| class_of := class;
     _primitiveFields := [];
     _primitiveAliasedFields := [];
     _linksFields := [];
     _fragmentSpreads := [];
     _inlineFragments := [];
     _queriedForTypename := false;
     _scalars := scalars;
     _schema := schema;
     _convertName := convertName;
     _addTypename := addTypename;
     _parentSchemaType := parentSchemaType;
     _selectionSet := selectionSet |}.

(** Modelled from the spec: [createNext] throws in the base class and
    its overrides are not among the sources; the collector recursively
    invokes a fresh Selection Collector against the given type and the
    nested selection set, under the same configuration. *)
Definition createNext (this : SelectionSetToObject)
    (parentSchemaType : option GraphQLNamedType)
    (selectionSet : option SelectionSetNode) : SelectionSetToObject :=
  new (class_of this) (_scalars this) (_schema this) (_convertName this) (_addTypename this)
      parentSchemaType selectionSet.

(** Assignments to single members of [this]. *)
Definition set_primitiveFields (l : list PrimitiveField) (this : SelectionSetToObject) :=
  mkSelectionSetToObject (class_of this) l (_primitiveAliasedFields this) (_linksFields this)
    (_fragmentSpreads this) (_inlineFragments this) (_queriedForTypename this)
    (_scalars this) (_schema this) (_convertName this) (_addTypename this)
    (_parentSchemaType this) (_selectionSet this).
Definition set_primitiveAliasedFields (l : list PrimitiveAliasedFields.t) (this : SelectionSetToObject) :=
  mkSelectionSetToObject (class_of this) (_primitiveFields this) l (_linksFields this)
    (_fragmentSpreads this) (_inlineFragments this) (_queriedForTypename this)
    (_scalars this) (_schema this) (_convertName this) (_addTypename this)
    (_parentSchemaType this) (_selectionSet this).
Definition set_linksFields (l : list LinkField.t) (this : SelectionSetToObject) :=
  mkSelectionSetToObject (class_of this) (_primitiveFields this) (_primitiveAliasedFields this) l
    (_fragmentSpreads this) (_inlineFragments this) (_queriedForTypename this)
    (_scalars this) (_schema this) (_convertName this) (_addTypename this)
    (_parentSchemaType this) (_selectionSet this).
Definition set_fragmentSpreads (l : list FragmentSpreadField) (this : SelectionSetToObject) :=
  mkSelectionSetToObject (class_of this) (_primitiveFields this) (_primitiveAliasedFields this)
    (_linksFields this) l (_inlineFragments this) (_queriedForTypename this)
    (_scalars this) (_schema this) (_convertName this) (_addTypename this)
    (_parentSchemaType this) (_selectionSet this).
Definition set_inlineFragments (o : InlineFragmentField) (this : SelectionSetToObject) :=
  mkSelectionSetToObject (class_of this) (_primitiveFields this) (_primitiveAliasedFields this)
    (_linksFields this) (_fragmentSpreads this) o (_queriedForTypename this)
    (_scalars this) (_schema this) (_convertName this) (_addTypename this)
    (_parentSchemaType this) (_selectionSet this).
Definition set_queriedForTypename (b : bool) (this : SelectionSetToObject) :=
  mkSelectionSetToObject (class_of this) (_primitiveFields this) (_primitiveAliasedFields this)
    (_linksFields this) (_fragmentSpreads this) (_inlineFragments this) b
    (_scalars this) (_schema this) (_convertName this) (_addTypename this)
    (_parentSchemaType this) (_selectionSet this).

(** Truthiness of [this._scalars[typeName]]: a non-empty own string, or
    a member inherited from [Object.prototype]. *)
Definition scalars_has (scalars : ScalarsMap) (typeName : string) : bool :=
  match own scalars typeName with
  | Some text => negb (String.eqb text "")
  | None => inherited typeName
  end.

(** Truthiness of [this._inlineFragments[onType]]: arrays are truthy. *)
Definition inlineFragments_has (o : InlineFragmentField) (onType : string) : bool :=
  match own o onType with
  | Some _ => true
  | None => inherited onType
  end.

(** [this._inlineFragments[onType].push(text)]: an own property is one
    of the arrays put there; an inherited member has no [push]. *)
Definition inlineFragments_push (o : InlineFragmentField) (onType text : string)
  : Completion InlineFragmentField :=
  match own o onType with
  | Some bodies => Normal (assign o onType (bodies ++ [text]))
  | None =>
      if inherited onType then Throw (TypeError_not_a_function "push")
      else Throw (TypeError_read "push")
  end.

Definition _collectField
    (string_of : SelectionSetToObject -> Completion string)
    (alias : option string) (name : string) (selectionSet : option SelectionSetNode)
    (this : SelectionSetToObject) : Completion SelectionSetToObject :=
  if String.eqb name "__typename" then
    Normal (set_queriedForTypename true this)
  else if isObjectType (_parentSchemaType this) || isInterfaceType (_parentSchemaType this) then
    match _parentSchemaType this with
    | None => Normal this
    | Some parent =>
        let schemaField :=
          if isRootType parent (_schema this) && isMetadataFieldName name
          then metadataFieldMap name
          else getFields (_schema this) parent !! name in
        match schemaField with
        | None => Throw (TypeError_read "type")
        | Some schemaField =>
            let rawType := field_type schemaField in
            let baseType := getBaseType rawType in
            let typeName := type_name baseType in
            if scalars_has (_scalars this) typeName
               || isEnumType (Some baseType) || isScalarType (Some baseType)
            then
              match alias with
              | Some a =>
                  if negb (String.eqb a "") then
                    Normal (set_primitiveAliasedFields
                      (_primitiveAliasedFields this
                         ++ [PrimitiveAliasedFields.mk a name]) this)
                  else
                    Normal (set_primitiveFields (_primitiveFields this ++ [name]) this)
              | None =>
                  Normal (set_primitiveFields (_primitiveFields this ++ [name]) this)
              end
            else
              let selectionSetToObject := createNext this (Some baseType) selectionSet in
              text <- string_of selectionSetToObject ;;
              Normal (set_linksFields
                (_linksFields this
                   ++ [LinkField.mk alias name typeName
                         (wrapTypeWithModifiers (class_of this) text rawType)]) this)
        end
    end
  else Normal this.

Definition _collectFragmentSpread (name : string) (this : SelectionSetToObject)
  : Completion SelectionSetToObject :=
  Normal (set_fragmentSpreads (_fragmentSpreads this ++ [name]) this).

Definition _collectInlineFragment
    (string_of : SelectionSetToObject -> Completion string)
    (typeCondition : option string) (selectionSet : SelectionSetNode)
    (this : SelectionSetToObject) : Completion SelectionSetToObject :=
  match typeCondition with
  | None => Throw (TypeError_read "name")
  | Some onType =>
      let schemaType := getType (_schema this) onType in
      let next := createNext this schemaType (Some selectionSet) in
      let this1 :=
        if inlineFragments_has (_inlineFragments this) onType then this
        else set_inlineFragments (assign (_inlineFragments this) onType []) this in
      text <- string_of next ;;
      o <- inlineFragments_push (_inlineFragments this1) onType text ;;
      Normal (set_inlineFragments o this1)
  end.

Definition buildTypeNameField (this : SelectionSetToObject) : Completion (option string) :=
  possibleTypes <-
    (if negb (isUnionType (_parentSchemaType this))
        && negb (isInterfaceType (_parentSchemaType this))
     then match _parentSchemaType this with
          | Some parent => Normal [type_name parent]
          | None => Throw (TypeError_read "name")
          end
     else Normal []) ;;
  if (length possibleTypes =? 0)%nat then Normal None
  else
    Normal (Some ("{ " +:+ formatNamedField (class_of this) "__typename"
                  +:+ (if _queriedForTypename this then "" else "?")
                  +:+ ": "
                  +:+ join " | " (map (fun t => "'" +:+ t +:+ "'") possibleTypes)
                  +:+ " }")).

Definition buildPrimitiveFields (parentName : string) (fields : list PrimitiveField)
  : option string :=
  if (length fields =? 0)%nat then None
  else Some ("Pick<" +:+ parentName +:+ ", "
             +:+ join " | " (map (fun field => "'" +:+ field +:+ "'") fields)
             +:+ ">").

Definition buildAliasedPrimitiveFields (this : SelectionSetToObject)
    (parentName : string) (fields : list PrimitiveAliasedFields.t) : option string :=
  if (length fields =? 0)%nat then None
  else Some ("{ "
             +:+ join ", "
                   (map (fun aliasedField =>
                           formatNamedField (class_of this) (PrimitiveAliasedFields.alias aliasedField)
                           +:+ ": " +:+ parentName +:+ "['"
                           +:+ PrimitiveAliasedFields.fieldName aliasedField +:+ "']")
                        fields)
             +:+ " }").

(** [field.alias || field.name] *)
Definition alias_or_name (field : LinkField.t) : string :=
  match LinkField.alias field with
  | Some a => if String.eqb a "" then LinkField.name field else a
  | None => LinkField.name field
  end.

Definition buildLinkFields (this : SelectionSetToObject) (fields : list LinkField.t)
  : option string :=
  if (length fields =? 0)%nat then None
  else Some ("{ "
             +:+ join ", "
                   (map (fun field =>
                           formatNamedField (class_of this) (alias_or_name field)
                           +:+ ": " +:+ LinkField.selectionSet field)
                        fields)
             +:+ " }").

Definition buildInlineFragments (inlineFragments : InlineFragmentField) : option string :=
  let allPossibleTypes :=
    map (fun typeName => join " & " (default [] (own inlineFragments typeName)))
        (Object_keys inlineFragments) in
  if (length allPossibleTypes =? 0)%nat then None
  else Some ("(" +:+ join " | " allPossibleTypes +:+ ")").

Definition buildFragmentSpread (this : SelectionSetToObject)
    (fragmentsSpread : list FragmentSpreadField) : option string :=
  if (length fragmentsSpread =? 0)%nat then None
  else Some (quoteIfNeeded
               (map (fun fragmentName =>
                       _convertName this fragmentName
                         (mkConvertOptions (Some true) (Some "Fragment")))
                    fragmentsSpread)
               " & ").

Definition mergeAllFields (fieldsSet : list string) : string :=
  quoteIfNeeded fieldsSet " & ".

(** [.filter(f => f && f !== '')] *)
Fixpoint filter_truthy (l : list (option string)) : list string :=
  match l with
  | [] => []
  | Some f :: rest => if String.eqb f "" then filter_truthy rest else f :: filter_truthy rest
  | None :: rest => filter_truthy rest
  end.

(** [this._addTypename || this._queriedForTypename ? this.buildTypeNameField() : null] *)
Definition typeNameField (this : SelectionSetToObject) : Completion (option string) :=
  if _addTypename this || _queriedForTypename this
  then buildTypeNameField this else Normal None.

(** The getter after its loop: the parts, in the order of the source. *)
Definition fieldsSet (this : SelectionSetToObject) : Completion (list string) :=
  match _parentSchemaType this with
  | None => Throw (TypeError_read "name")
  | Some parent =>
      let parentName :=
        _convertName this (type_name parent) (mkConvertOptions (Some true) None) in
      typeName <- typeNameField this ;;
      let baseFields := buildPrimitiveFields parentName (_primitiveFields this) in
      let aliasBaseFields :=
        buildAliasedPrimitiveFields this parentName (_primitiveAliasedFields this) in
      let linksFields := buildLinkFields this (_linksFields this) in
      let inlineFragments := buildInlineFragments (_inlineFragments this) in
      let fragmentSpreads := buildFragmentSpread this (_fragmentSpreads this) in
      Normal (filter_truthy
                [typeName; baseFields; aliasBaseFields; linksFields;
                 fragmentSpreads; inlineFragments])
  end.

(** The [switch] of the getter's loop and the getter itself, by
    recursion on the document. [string_in] is the getter run on an
    instance whose selection set is the given one. *)
Fixpoint collect (selection : SelectionNode) (this : SelectionSetToObject)
  {struct selection} : Completion SelectionSetToObject :=
  match selection with
  | FIELD alias name selectionSet =>
      _collectField
        (fun next =>
           match selectionSet with
           | None => Normal ""
           | Some nested => r <- string_in nested next ;; Normal (fst r)
           end)
        alias name selectionSet this
  | FRAGMENT_SPREAD name => _collectFragmentSpread name this
  | INLINE_FRAGMENT typeCondition selectionSet =>
      _collectInlineFragment
        (fun next => r <- string_in selectionSet next ;; Normal (fst r))
        typeCondition selectionSet this
  end
with string_in (selectionSet : SelectionSetNode) (this : SelectionSetToObject)
  {struct selectionSet} : Completion (string * SelectionSetToObject) :=
  match selectionSet with
  | SelectionSet selections =>
      if (length selections =? 0)%nat then Normal ("", this)
      else
        this' <- forEach collect selections this ;;
        fieldsSet <- fieldsSet this' ;;
        Normal (mergeAllFields fieldsSet, this')
  end.

(** [get string()]: the text, and the instance as the read leaves it. *)
Definition get_string (this : SelectionSetToObject)
  : Completion (string * SelectionSetToObject) :=
  match _selectionSet this with
  | None => Normal ("", this)
  | Some selectionSet => string_in selectionSet this
  end.

(** *** Terms of the statements *)

(** Two instances of one configuration: they differ in their
    accumulators at most. *)
Definition same_config (a b : SelectionSetToObject) : Prop :=
  class_of a = class_of b /\ _scalars a = _scalars b /\ _schema a = _schema b
  /\ _convertName a = _convertName b /\ _addTypename a = _addTypename b
  /\ _parentSchemaType a = _parentSchemaType b /\ _selectionSet a = _selectionSet b.

(** An instance nothing has been read from. *)
Definition fresh_instance (this : SelectionSetToObject) : Prop :=
  _primitiveFields this = [] /\ _primitiveAliasedFields this = []
  /\ _linksFields this = [] /\ _fragmentSpreads this = []
  /\ _inlineFragments this = [] /\ _queriedForTypename this = false.

(** The selections that set the typename flag. *)
Definition selects_typename (selection : SelectionNode) : bool :=
  match selection with
  | FIELD _ name _ => String.eqb name "__typename"
  | _ => false
  end.

(** The bodies recorded under a type condition. *)
Definition bodies_of (o : InlineFragmentField) (onType : string) : list string :=
  default [] (own o onType).

(** The type-conditional branches of a selection list, each with the
    text its own collector returns, in document order. *)
Fixpoint branch_texts (this : SelectionSetToObject) (selections : list SelectionNode)
  : list (string * string) :=
  match selections with
  | [] => []
  | INLINE_FRAGMENT (Some onType) nested :: rest =>
      match get_string (createNext this (getType (_schema this) onType) (Some nested)) with
      | Normal (text, _) => (onType, text) :: branch_texts this rest
      | Throw _ => branch_texts this rest
      end
  | _ :: rest => branch_texts this rest
  end.

(** The bodies of one type condition among the branches, in order. *)
Definition bodies_for (onType : string) (branches : list (string * string)) : list string :=
  map snd (filter (fun b => fst b = onType) branches).

(** The distinct type conditions, in the order of their first
    occurrence, after the ones already there. *)
Fixpoint add_conditions (keys : list string) (branches : list (string * string))
  : list string :=
  match branches with
  | [] => keys
  | b :: rest =>
      add_conditions (if bool_decide (fst b ∈ keys) then keys else keys ++ [fst b]) rest
  end.

Definition conditions (branches : list (string * string)) : list string :=
  add_conditions [] branches.

(** One branch pushed under its type condition, the key created at the
    end when it is new. *)
Definition push_branch (o : InlineFragmentField) (b : string * string)
  : InlineFragmentField :=
  match own o (fst b) with
  | Some bodies => assign o (fst b) (bodies ++ [snd b])
  | None => o ++ [(fst b, [snd b])]
  end.

(** What one pass of the loop adds.  The loop only appends: what it
    adds to the accumulators of one instance it adds to those of any
    instance of the same configuration. *)
Record Delta : Type := mkDelta {
  d_primitives : list PrimitiveField;
  d_aliased : list PrimitiveAliasedFields.t;
  d_links : list LinkField.t;
  d_spreads : list FragmentSpreadField;
  d_branches : list (string * string);
  d_typename : bool
}.

Definition extend (this : SelectionSetToObject) (d : Delta) : SelectionSetToObject :=
  mkSelectionSetToObject (class_of this)
    (_primitiveFields this ++ d_primitives d)
    (_primitiveAliasedFields this ++ d_aliased d)
    (_linksFields this ++ d_links d)
    (_fragmentSpreads this ++ d_spreads d)
    (fold_left push_branch (d_branches d) (_inlineFragments this))
    (_queriedForTypename this || d_typename d)
    (_scalars this) (_schema this) (_convertName this) (_addTypename this)
    (_parentSchemaType this) (_selectionSet this).

Definition Delta_app (d1 d2 : Delta) : Delta :=
  mkDelta (d_primitives d1 ++ d_primitives d2) (d_aliased d1 ++ d_aliased d2)
          (d_links d1 ++ d_links d2) (d_spreads d1 ++ d_spreads d2)
          (d_branches d1 ++ d_branches d2) (d_typename d1 || d_typename d2).

Definition Delta_empty : Delta := mkDelta [] [] [] [] [] false.

(** No own key of the accumulator is a member of [Object.prototype]. *)
Definition own_keys_plain (o : InlineFragmentField) : Prop :=
  Forall (fun k => inherited k = false) (map fst o).

(** The [schemaField] that [_collectField] reads for a field name: the
    meta field on a root type, the parent's own field otherwise. *)
Definition schemaField_of (this : SelectionSetToObject) (parent : GraphQLNamedType)
    (name : string) : option GraphQLField :=
  if isRootType parent (_schema this) && isMetadataFieldName name
  then metadataFieldMap name
  else getFields (_schema this) parent !! name.

(** The test under which [_collectField] takes a field for a leaf. *)
Definition leaf_type (this : SelectionSetToObject) (schemaField : GraphQLField) : bool :=
  scalars_has (_scalars this) (type_name (getBaseType (field_type schemaField)))
  || isEnumType (Some (getBaseType (field_type schemaField)))
  || isScalarType (Some (getBaseType (field_type schemaField))).

(** The guard of [_collectField] on the parent type. *)
Definition objectish (type : option GraphQLNamedType) : bool :=
  isObjectType type || isInterfaceType type.

(** A field selection other than [__typename]. *)
Definition plain_field (selection : SelectionNode) : bool :=
  match selection with
  | FIELD _ name _ => negb (String.eqb name "__typename")
  | _ => false
  end.

(** A selection of a field that the parent type has and whose base type
    is a leaf. *)
Definition leaf_selection (this : SelectionSetToObject) (selection : SelectionNode) : bool :=
  match selection, _parentSchemaType this with
  | FIELD _ name _, Some parent =>
      negb (String.eqb name "__typename")
      && objectish (Some parent)
      && match schemaField_of this parent name with
         | Some schemaField => leaf_type this schemaField
         | None => false
         end
  | _, _ => false
  end.

(** [field.alias && field.alias.value] *)
Definition aliased (selection : SelectionNode) : bool :=
  match selection with
  | FIELD (Some alias) _ _ => negb (String.eqb alias "")
  | _ => false
  end.

Definition is_spread (selection : SelectionNode) : bool :=
  match selection with FRAGMENT_SPREAD _ => true | _ => false end.

(** [node.name.value] of a field or a fragment spread. *)
Definition name_of (selection : SelectionNode) : string :=
  match selection with
  | FIELD _ name _ => name
  | FRAGMENT_SPREAD name => name
  | INLINE_FRAGMENT _ _ => ""
  end.

(** [field.alias.value] of an aliased field. *)
Definition alias_of (selection : SelectionNode) : string :=
  match selection with
  | FIELD (Some alias) _ _ => alias
  | _ => ""
  end.

Definition aliased_pair (selection : SelectionNode) : PrimitiveAliasedFields.t :=
  PrimitiveAliasedFields.mk (alias_of selection) (name_of selection).

(** A selection that has a type condition naming a member of
    [Object.prototype]. *)
Definition on_inherited_name (selection : SelectionNode) : bool :=
  match selection with
  | INLINE_FRAGMENT (Some onType) _ => inherited onType
  | _ => false
  end.

(** An inline fragment that has no type condition. *)
Definition without_condition (selection : SelectionNode) : bool :=
  match selection with
  | INLINE_FRAGMENT None _ => true
  | _ => false
  end.

(** The accumulator a selection goes to: the typename flag, one of the
    four lists, the inline fragments, or none (a field on a parent that
    is neither an object nor an interface type, or one that the parent
    does not have). *)
Inductive Bucket : Type :=
  | Typename | Primitive | Aliased | Link | Spread | Inline | Nowhere.

Definition bucket (this : SelectionSetToObject) (selection : SelectionNode) : Bucket :=
  match selection with
  | FIELD _ name _ =>
      if String.eqb name "__typename" then Typename
      else
        match _parentSchemaType this with
        | Some parent =>
            if objectish (Some parent) then
              match schemaField_of this parent name with
              | Some schemaField =>
                  if leaf_type this schemaField
                  then if aliased selection then Aliased else Primitive
                  else Link
              | None => Nowhere
              end
            else Nowhere
        | None => Nowhere
        end
  | FRAGMENT_SPREAD _ => Spread
  | INLINE_FRAGMENT _ _ => Inline
  end.

(** The descriptor [_collectField] pushes for a link field: the text
    of the nested collector, wrapped; nothing when the parent has no
    such field or the nested read throws. *)
Definition link_entry (this : SelectionSetToObject) (selection : SelectionNode)
  : option LinkField.t :=
  match selection, _parentSchemaType this with
  | FIELD alias name selectionSet, Some parent =>
      match schemaField_of this parent name with
      | Some schemaField =>
          match get_string
                  (createNext this (Some (getBaseType (field_type schemaField))) selectionSet)
          with
          | Normal r =>
              Some (LinkField.mk alias name
                      (type_name (getBaseType (field_type schemaField)))
                      (wrapTypeWithModifiers (class_of this) (fst r)
                         (field_type schemaField)))
          | Throw _ => None
          end
      | None => None
      end
  | _, _ => None
  end.

(** Two instances that differ in one accumulator at most. *)
Definition touches_only (b : Bucket) (a a' : SelectionSetToObject) : Prop :=
  same_config a' a
  /\ match b with Primitive => True | _ => _primitiveFields a' = _primitiveFields a end
  /\ match b with
     | Aliased => True
     | _ => _primitiveAliasedFields a' = _primitiveAliasedFields a
     end
  /\ match b with Link => True | _ => _linksFields a' = _linksFields a end
  /\ match b with Spread => True | _ => _fragmentSpreads a' = _fragmentSpreads a end
  /\ match b with Inline => True | _ => _inlineFragments a' = _inlineFragments a end
  /\ match b with
     | Typename => True
     | _ => _queriedForTypename a' = _queriedForTypename a
     end.

(** The number of entries in the three accumulators for fields. *)
Definition fields_recorded (this : SelectionSetToObject) : nat :=
  length (_primitiveFields this) + length (_primitiveAliasedFields this)
  + length (_linksFields this).

End selection_set_to_object.

(** ** [inner-models-builer.ts] *)

Module inner_models_builder.

Module Field.
Record t : Type := mk {
  name : string;
  type : string;
  isArray : bool;
  isRequired : bool
}.
End Field.

Module InlineFragment.
Record t : Type := mk { typeName : string; onModel : string }.
End InlineFragment.

(** [Model] of [./interfaces], with the members this file writes.
    The two flags are absent until first assigned. *)
Record Model : Type := mkModel {
  name : string;
  fields : list Field.t;
  fragmentsUsed : list string;
  inlineFragments : list InlineFragment.t;
  usingFragments : option bool;
  hasInlineFragments : option bool
}.

(** [{ name: n, fields: [], fragmentsUsed: [], inlineFragments: [] }] *)
Definition emptyModel (n : string) : Model := mkModel n [] [] [] None None.

(** *** The store

    A model is pushed onto [result] and, as [appendTo], mutated later
    through a second reference: models live in a heap, [result] and
    [appendTo] hold addresses. *)

Abbreviation Ref := nat.

Record Store : Type := mkStore {
  heap : list Model;
  result : list Ref
}.

Definition alloc (m : Model) (st : Store) : Ref * Store :=
  (length (heap st), mkStore (heap st ++ [m]) (result st)).

(** [result.push(ref)] *)
Definition push (r : Ref) (st : Store) : Store :=
  mkStore (heap st) (result st ++ [r]).

Definition modify (r : Ref) (f : Model -> Model) (st : Store) : Store :=
  mkStore (alter f r (heap st)) (result st).

(** The array [result] as its reader sees it. *)
Definition models (st : Store) : list Model :=
  omap (fun r => heap st !! r) (result st).

(** [m.fields.push(f)] *)
Definition push_field (f : Field.t) (m : Model) : Model :=
  mkModel (name m) (fields m ++ [f]) (fragmentsUsed m) (inlineFragments m)
          (usingFragments m) (hasInlineFragments m).

(** [m.fragmentsUsed.push(n); m.usingFragments = m.fragmentsUsed.length > 0] *)
Definition use_fragment (n : string) (m : Model) : Model :=
  let used := fragmentsUsed m ++ [n] in
  mkModel (name m) (fields m) used (inlineFragments m)
          (Some (0 <? length used)%nat) (hasInlineFragments m).

(** [m.inlineFragments.push(i); m.hasInlineFragments = m.inlineFragments.length > 0] *)
Definition add_inlineFragment (i : InlineFragment.t) (m : Model) : Model :=
  let l := inlineFragments m ++ [i] in
  mkModel (name m) (fields m) (fragmentsUsed m) l
          (usingFragments m) (Some (0 <? length l)%nat).

(** [typeFromAST] of graphql-js on a named type node. *)
Definition typeFromAST (schema : GraphQLSchema) (typeCondition : string) : option GraphQLType :=
  Named <$> getType schema typeCondition.

(** The helpers of [./utils] and of [pascal-case], none of them among
    the sources: total functions of their arguments, [getFieldDef]
    yielding nothing where it finds no field. *)
Class Utils : Type := mkUtils {
  PrimitivesMap : Type;
  getFieldDef : option GraphQLType -> SelectionNode -> option GraphQLField;
  handleNameDuplications : string -> list Model -> string;
  isArray : GraphQLType -> bool;
  isRequired : GraphQLType -> bool;
  getTypeName : PrimitivesMap -> GraphQLNamedType -> string;
  pascalCase : string -> string
}.

Section builder.

Context {utils : Utils}.
Variable schema : GraphQLSchema.
Variable primitivesMap : PrimitivesMap.

(** The loop's state: the local [appendTo] and the store. *)
Definition Frame : Type := option Ref * Store.

(** One turn of the [forEach] callback, and the call on a present
    selection set, by recursion on the document. *)
Fixpoint visit (rootObject : option GraphQLType) (selectionNode : SelectionNode)
  (frame : Frame) {struct selectionNode} : Completion Frame :=
  let appendTo := fst frame in
  let st := snd frame in
  match selectionNode with
  | FIELD alias fieldName selectionSet =>
      let propertyName := match alias with Some a => a | None => fieldName end in
      match getFieldDef rootObject selectionNode with
      | None => Throw (TypeError_read "type")
      | Some field =>
          let rawType := field_type field in
          let actualType := getNamedType rawType in
          if bool_decide (type_kind actualType = OBJECT) then
            let modelName :=
              handleNameDuplications (pascalCase fieldName) (models st) in
            let (model, st) := alloc (emptyModel modelName) st in
            let st := push model st in
            inner <-
              match selectionSet with
              | Some nested => call nested (Some (Named actualType)) (Some model, st)
              | None => Normal (Some model, st)
              end ;;
            let st := snd inner in
            let (appendTo, st) :=
              match appendTo with
              | Some a => (a, st)
              | None =>
                  let (a, st) := alloc (emptyModel "Result") st in
                  (a, push a st)
              end in
            Normal (Some appendTo,
                    modify appendTo
                      (push_field
                         (Field.mk propertyName modelName
                                   (isArray rawType) (isRequired rawType))) st)
          else
            match appendTo with
            | None => Throw (TypeError_read "fields")
            | Some a =>
                Normal (appendTo,
                        modify a
                          (push_field
                             (Field.mk propertyName
                                       (getTypeName primitivesMap actualType)
                                       (isArray rawType) (isRequired rawType))) st)
            end
      end
  | FRAGMENT_SPREAD fragmentName =>
      match appendTo with
      | None => Throw (TypeError_read "fragmentsUsed")
      | Some a => Normal (appendTo, modify a (use_fragment (pascalCase fragmentName)) st)
      end
  | INLINE_FRAGMENT typeCondition selectionSet =>
      match typeCondition with
      | None => Throw (TypeError_read "kind")
      | Some onType =>
          let root := typeFromAST schema onType in
          let name := onType +:+ "InlineFragment" in
          let (fragmentModel, st) := alloc (emptyModel name) st in
          match appendTo with
          | None => Throw (TypeError_read "inlineFragments")
          | Some a =>
              let st := modify a (add_inlineFragment (InlineFragment.mk name onType)) st in
              let st := push fragmentModel st in
              inner <- call selectionSet root (Some fragmentModel, st) ;;
              Normal (appendTo, snd inner)
          end
      end
  end
with call (selections : SelectionSetNode) (rootObject : option GraphQLType)
  (frame : Frame) {struct selections} : Completion Frame :=
  match selections with
  | SelectionSet l => forEach (visit rootObject) l frame
  end.

(** [buildInnerModelsArray] on the store: [appendTo] and [result] are
    references into it, the returned array is [result] itself. *)
Definition buildInnerModelsArray_on (rootObject : option GraphQLType)
    (selections : option SelectionSetNode) (appendTo : option Ref) (st : Store)
  : Completion Store :=
  match selections with
  | Some s => frame <- call s rootObject (appendTo, st) ;; Normal (snd frame)
  | None => Normal st
  end.

(** The call [buildInnerModelsArray(schema, rootObject, selections,
    primitivesMap)]: no [appendTo], a fresh [result]. *)
Definition buildInnerModelsArray (rootObject : option GraphQLType)
    (selections : option SelectionSetNode) : Completion (list Model) :=
  st <- buildInnerModelsArray_on rootObject selections None (mkStore [] []) ;;
  Normal (models st).

(** The selections [buildInnerModelsArray] recurses on, and the ones it
    records on [appendTo] without a model of their own. *)
Definition object_field (rootObject : option GraphQLType) (selectionNode : SelectionNode)
  : bool :=
  match selectionNode with
  | FIELD _ _ _ =>
      match getFieldDef rootObject selectionNode with
      | Some field => bool_decide (type_kind (getNamedType (field_type field)) = OBJECT)
      | None => false
      end
  | _ => false
  end.

Definition leaf_field (rootObject : option GraphQLType) (selectionNode : SelectionNode)
  : bool :=
  match selectionNode with
  | FIELD _ _ _ =>
      match getFieldDef rootObject selectionNode with
      | Some field =>
          negb (bool_decide (type_kind (getNamedType (field_type field)) = OBJECT))
      | None => false
      end
  | _ => false
  end.

Definition fragment_spread (selectionNode : SelectionNode) : bool :=
  match selectionNode with FRAGMENT_SPREAD _ => true | _ => false end.

(** The entry [visit] records for a field. *)
Definition entry (alias : option string) (fieldName type : string) (rawType : GraphQLType)
  : Field.t :=
  Field.mk (match alias with Some a => a | None => fieldName end) type
           (isArray rawType) (isRequired rawType).

End builder.

(** *** Terms of the statements *)

(** The store only grows: a step keeps the references already in
    [result] where they are and the models already in the heap under
    their names. *)
Definition grows (st st' : Store) : Prop :=
  result st `prefix_of` result st'
  /\ (forall r m, heap st !! r = Some m ->
                 exists m', heap st' !! r = Some m' /\ name m' = name m).

(** [result] holds two references to models of one name. *)
Definition twice_named (n : string) (st : Store) : Prop :=
  exists l1 r1 l2 r2 l3 m1 m2,
    result st = l1 ++ r1 :: l2 ++ r2 :: l3
    /\ heap st !! r1 = Some m1 /\ heap st !! r2 = Some m2
    /\ name m1 = n /\ name m2 = n.

(** The [propertyName] of the field selections of a list, the names of
    its fragment spreads and the type conditions of its inline
    fragments, each in document order. *)
Definition property_names (selections : list SelectionNode) : list string :=
  omap (fun selectionNode =>
          match selectionNode with
          | FIELD (Some alias) _ _ => Some alias
          | FIELD None fieldName _ => Some fieldName
          | _ => None
          end) selections.

Definition spread_names (selections : list SelectionNode) : list string :=
  omap (fun selectionNode =>
          match selectionNode with
          | FRAGMENT_SPREAD fragmentName => Some fragmentName
          | _ => None
          end) selections.

Definition type_conditions (selections : list SelectionNode) : list string :=
  omap (fun selectionNode =>
          match selectionNode with
          | INLINE_FRAGMENT (Some onType) _ => Some onType
          | _ => None
          end) selections.

(** The entry pushed on [appendTo.inlineFragments] for a type condition. *)
Definition inline_entry (onType : string) : InlineFragment.t :=
  InlineFragment.mk (onType +:+ "InlineFragment") onType.

(** A model as the selections of a list, in this order, leave it when
    they are recorded on it. *)
Definition records {utils : Utils} (selections : list SelectionNode) (m m' : Model) : Prop :=
  name m' = name m
  /\ map Field.name (fields m') = map Field.name (fields m) ++ property_names selections
  /\ fragmentsUsed m' = fragmentsUsed m ++ map pascalCase (spread_names selections)
  /\ inlineFragments m' = inlineFragments m ++ map inline_entry (type_conditions selections).

(** The heap of [st] is still there in [st'], every model but the
    excepted one as it was. *)
Definition kept (except : option Ref) (st st' : Store) : Prop :=
  length (heap st) <= length (heap st')
  /\ (forall r, r < length (heap st) -> Some r <> except -> heap st' !! r = heap st !! r).

(** The two flags of a model are absent while their list is empty and
    [true] once it is not. *)
Definition flags_ok (m : Model) : Prop :=
  usingFragments m = match fragmentsUsed m with [] => None | _ => Some true end
  /\ hasInlineFragments m = match inlineFragments m with [] => None | _ => Some true end.

(** Every reference of [result] is to a model of the heap. *)
Definition valid (st : Store) : Prop :=
  Forall (fun r => r < length (heap st)) (result st).

(** A selection with no inline fragment in it, at any depth. *)
Fixpoint no_inline_fragments (selectionNode : SelectionNode) : bool :=
  match selectionNode with
  | FIELD _ _ (Some nested) => no_inline_fragments_in nested
  | FIELD _ _ None => true
  | FRAGMENT_SPREAD _ => true
  | INLINE_FRAGMENT _ _ => false
  end
with no_inline_fragments_in (selections : SelectionSetNode) : bool :=
  match selections with
  | SelectionSet l => forallb no_inline_fragments l
  end.

Section count.

Context {utils : Utils}.
Variable schema : GraphQLSchema.

(** The selections that get a model of their own: the fields of an
    object type and the inline fragments, at any depth of the selections
    that are visited. *)
Fixpoint model_count (rootObject : option GraphQLType) (selectionNode : SelectionNode)
  {struct selectionNode} : nat :=
  match selectionNode with
  | FIELD _ _ selectionSet =>
      match getFieldDef rootObject selectionNode with
      | Some field =>
          if bool_decide (type_kind (getNamedType (field_type field)) = OBJECT)
          then S (match selectionSet with
                  | Some nested =>
                      model_count_in (Some (Named (getNamedType (field_type field)))) nested
                  | None => 0
                  end)
          else 0
      | None => 0
      end
  | FRAGMENT_SPREAD _ => 0
  | INLINE_FRAGMENT (Some onType) nested =>
      S (model_count_in (typeFromAST schema onType) nested)
  | INLINE_FRAGMENT None _ => 0
  end
with model_count_in (rootObject : option GraphQLType) (selections : SelectionSetNode)
  {struct selections} : nat :=
  match selections with
  | SelectionSet l => list_sum (map (model_count rootObject) l)
  end.

End count.

End inner_models_builder.

(** ** The plugins (typescript-operations/src/index.ts and the Flow one)

    Both plugins put the documents together, visit the result with a
    visitor of their own and join the texts of the definitions. *)

Module plugins.

(** A document and a document file, with the definitions of the
    document left as they are. *)
Record DocumentNode (Definition_ : Type) : Type := mkDocumentNode {
  definitions : list Definition_
}.
Arguments mkDocumentNode {Definition_} _.
Arguments definitions {Definition_} _.

Record DocumentFile (Definition_ : Type) : Type := mkDocumentFile {
  filePath : string;
  content : DocumentNode Definition_
}.
Arguments mkDocumentFile {Definition_} _ _.
Arguments filePath {Definition_} _.
Arguments content {Definition_} _.

(** [concatAST] of graphql-js: one document with the definitions of all
    the documents, in order. *)
Definition concatAST {Definition_} (asts : list (DocumentNode Definition_))
  : DocumentNode Definition_ :=
  mkDocumentNode (flat_map definitions asts).

(** [documents.reduce((prev, v) => [...prev, v.content], [])] *)
Definition contents {Definition_} (documents : list (DocumentFile Definition_))
  : list (DocumentNode Definition_) :=
  fold_left (fun prev v => prev ++ [content v]) documents [].

(** The line feed of ['\n']. *)
Definition line_feed : string := String (ascii_of_nat 10) EmptyString.

(** The first line of the Flow plugin's output. *)
Definition prefix : string :=
  "type $Pick<Origin: Object, Keys: Object> = $ObjMapi<Keys, <Key>(k: Key) => $ElementType<Origin, Key>>;"
  +:+ line_feed.

Section plugin.

Context {Definition_ Config : Type}.

(** The visitor classes are not among the sources:
    [visit(allAst, { leave: new Visitor(schema, config) }).definitions]
    is taken as a parameter, the texts of the definitions of the visited
    document or the error the visit throws. *)
Variable visited_definitions :
  GraphQLSchema -> Config -> DocumentNode Definition_ -> Completion (list string).

(** [plugin] of typescript-operations. *)
Definition plugin (schema : GraphQLSchema) (documents : list (DocumentFile Definition_))
    (config : Config) : Completion string :=
  let allAst := concatAST (contents documents) in
  visitorResult <- visited_definitions schema config allAst ;;
  Normal (join line_feed visitorResult).

(** [plugin] of the Flow operations plugin. *)
Definition flow_plugin (schema : GraphQLSchema) (documents : list (DocumentFile Definition_))
    (config : Config) : Completion string :=
  let allAst := concatAST (contents documents) in
  visitorResult <- visited_definitions schema config allAst ;;
  Normal (join line_feed (prefix :: visitorResult)).

End plugin.

(** The definitions of a list of document files, in order. *)
Definition all_definitions {Definition_} (documents : list (DocumentFile Definition_))
  : list Definition_ :=
  flat_map (fun v => definitions (content v)) documents.

End plugins.

(** ** A small schema and some documents

    [type Query { person: Person, people: [Person!]!, pet: Animal, cat: Cat }],
    [type Person { name: String, age: Int, friend: Person }],
    [union Animal = Cat | Dog], [type Cat { meow: String, purr: String }],
    [type Dog { bark: String }]. *)

Module sample.

Definition String_ : GraphQLNamedType := mkNamedType "String" SCALAR.
Definition Int_ : GraphQLNamedType := mkNamedType "Int" SCALAR.
Definition Query : GraphQLNamedType := mkNamedType "Query" OBJECT.
Definition Person : GraphQLNamedType := mkNamedType "Person" OBJECT.
Definition Animal : GraphQLNamedType := mkNamedType "Animal" UNION.
Definition Cat : GraphQLNamedType := mkNamedType "Cat" OBJECT.
Definition Dog : GraphQLNamedType := mkNamedType "Dog" OBJECT.

Definition object (l : list (string * GraphQLType)) : TypeDefinition :=
  mkTypeDefinition OBJECT (list_to_map (map (fun p => (fst p, mkField (snd p))) l)).

Definition schema : GraphQLSchema :=
  mkSchema
    (list_to_map
       [ ("String", mkTypeDefinition SCALAR ∅);
         ("Int", mkTypeDefinition SCALAR ∅);
         ("Query", object [ ("person", Named Person);
                            ("people", GraphQLNonNull (GraphQLList (GraphQLNonNull (Named Person))));
                            ("pet", Named Animal);
                            ("cat", Named Cat) ]);
         ("Person", object [ ("name", Named String_);
                             ("age", Named Int_);
                             ("friend", Named Person) ]);
         ("Animal", mkTypeDefinition UNION ∅);
         ("Cat", object [ ("meow", Named String_); ("purr", Named String_) ]);
         ("Dog", object [ ("bark", Named String_) ]) ])
    (Some Query) None None.

Import selection_set_to_object.

Definition scalars : ScalarsMap :=
  [ ("ID", "string"); ("String", "string"); ("Boolean", "boolean");
    ("Int", "number"); ("Float", "number") ].

(** A naming policy: the name as it is, followed by the suffix. *)
Definition convertName : ConvertNameFn :=
  fun name options => name +:+ default "" (suffix options).

(** A subclass in the manner of the TypeScript one: [Maybe] for a
    nullable type, [Array] for a list. *)
Fixpoint wrap (baseType : string) (type : GraphQLType) (nullable : bool) : string :=
  match type with
  | Named _ => if nullable then "Maybe<" +:+ baseType +:+ ">" else baseType
  | GraphQLNonNull t => wrap baseType t false
  | GraphQLList t =>
      let inner := "Array<" +:+ wrap baseType t true +:+ ">" in
      if nullable then "Maybe<" +:+ inner +:+ ">" else inner
  end.

Definition typescript : Subclass :=
  mkSubclass (fun baseType type => wrap baseType type true) (fun name => name).

Definition collector (addTypename : bool) (parent : option GraphQLNamedType)
    (selections : list SelectionNode) : SelectionSetToObject :=
  new typescript scalars schema convertName addTypename parent
      (Some (SelectionSet selections)).

Definition leaf (name : string) : SelectionNode := FIELD None name None.
Definition on (type : string) (l : list SelectionNode) : SelectionNode :=
  INLINE_FRAGMENT (Some type) (SelectionSet l).
Definition link (name : string) (l : list SelectionNode) : SelectionNode :=
  FIELD None name (Some (SelectionSet l)).

(** [{ ... on Cat { meow } ... on Dog { bark } ... on Cat { purr } }] *)
Definition cat_dog_cat : list SelectionNode :=
  [ on "Cat" [leaf "meow"]; on "Dog" [leaf "bark"]; on "Cat" [leaf "purr"] ].

(** The text of one read. *)
Definition text_of (this : SelectionSetToObject) : Completion string :=
  r <- get_string this ;; Normal (fst r).

(** Two reads of [string] on one instance, one after the other. *)
Definition read_twice (this : SelectionSetToObject) : Completion (string * string) :=
  first <- get_string this ;;
  second <- get_string (snd first) ;;
  Normal (fst first, fst second).

(** One set of helpers for [buildInnerModelsArray]: the field of the
    parent type, the first letter in upper case, and a numeric
    disambiguator ([Name2], [Name3], ...) for a name already taken. *)
Import inner_models_builder.

Definition getFieldDef_ (parentType : option GraphQLType) (fieldAST : SelectionNode)
  : option GraphQLField :=
  match fieldAST, parentType with
  | FIELD _ name _, Some (Named t) =>
      if bool_decide (type_kind t = OBJECT) || bool_decide (type_kind t = INTERFACE)
      then getFields schema t !! name else None
  | _, _ => None
  end.

Definition upper (c : ascii) : ascii :=
  let n := nat_of_ascii c in
  if ((97 <=? n) && (n <=? 122))%nat then ascii_of_nat (n - 32) else c.

Definition pascalCase_ (name : string) : string :=
  match name with
  | EmptyString => EmptyString
  | String c rest => String (upper c) rest
  end.

Definition taken (name : string) (existing : list Model) : bool :=
  bool_decide (name ∈ map inner_models_builder.name existing).

Fixpoint disambiguate (fuel n : nat) (name : string) (existing : list Model) : string :=
  match fuel with
  | O => name +:+ pretty n
  | S fuel =>
      if taken (name +:+ pretty n) existing
      then disambiguate fuel (S n) name existing
      else name +:+ pretty n
  end.

Definition handleNameDuplications_ (name : string) (existing : list Model) : string :=
  if taken name existing then disambiguate (length existing) 2 name existing else name.

Definition isRequired_ (type : GraphQLType) : bool :=
  match type with GraphQLNonNull _ => true | _ => false end.

Definition isArray_ (type : GraphQLType) : bool :=
  match type with
  | GraphQLList _ | GraphQLNonNull (GraphQLList _) => true
  | _ => false
  end.

Definition utils : Utils :=
  mkUtils unit getFieldDef_ handleNameDuplications_ isArray_ isRequired_
          (fun _ type => type_name type) pascalCase_.

Definition build (rootObject : GraphQLNamedType) (l : list SelectionNode)
  : Completion (list Model) :=
  @buildInnerModelsArray utils schema tt (Some (Named rootObject)) (Some (SelectionSet l)).

(** [type Query { result: Person }], and the same helpers on it. *)
Definition result_schema : GraphQLSchema :=
  mkSchema
    (list_to_map
       [ ("String", mkTypeDefinition SCALAR ∅);
         ("Query", object [ ("result", Named Person) ]);
         ("Person", object [ ("name", Named String_) ]) ])
    (Some Query) None None.

Definition result_utils : Utils :=
  mkUtils unit
          (fun parentType fieldAST =>
             match fieldAST, parentType with
             | FIELD _ name _, Some (Named t) => getFields result_schema t !! name
             | _, _ => None
             end)
          handleNameDuplications_ isArray_ isRequired_
          (fun _ type => type_name type) pascalCase_.

(** A visitor for the plugins that gives each definition as it is. *)
Definition echo (schema : GraphQLSchema) (config : unit)
    (document : plugins.DocumentNode string) : Completion (list string) :=
  Normal (plugins.definitions document).

End sample.

(** * Properties *)

(** ** Loops and completions *)

Lemma bind_Normal {A B} (c : Completion A) (k : A -> Completion B) (b : B) :
  bind c k = Normal b -> exists a, c = Normal a /\ k a = Normal b.
Proof. destruct c as [a|e]; simpl; intros H; [eauto | discriminate]. Qed.

Lemma bind_throws_l {A B} (c : Completion A) (k : A -> Completion B) :
  throws c -> throws (bind c k).
Proof. destruct c; simpl; tauto. Qed.

(** A loop whose states keep an invariant under which one of its
    elements always throws, throws. *)
Lemma forEach_throws_at {A S} (body : A -> S -> Completion S) (Inv : S -> Prop)
    (pre : list A) (x : A) (post : list A) (s : S) :
  (forall y s0 s1, Inv s0 -> body y s0 = Normal s1 -> Inv s1) ->
  (forall s0, Inv s0 -> throws (body x s0)) ->
  Inv s ->
  throws (forEach body (pre ++ x :: post) s).
Proof.
  intros Hkeep Hx. revert s. induction pre as [|y pre IH]; intros s Hs; simpl.
  - apply bind_throws_l, Hx, Hs.
  - destruct (body y s) as [s1|e] eqn:E; simpl; [|exact I].
    apply IH. eapply Hkeep; eauto.
Qed.

Lemma forEach_invariant {A S} (body : A -> S -> Completion S) (Inv : S -> Prop)
    (l : list A) (s s' : S) :
  (forall y s0 s1, Inv s0 -> body y s0 = Normal s1 -> Inv s1) ->
  Inv s -> forEach body l s = Normal s' -> Inv s'.
Proof.
  intros Hkeep. revert s. induction l as [|y l IH]; intros s Hs; simpl.
  - intros [= <-]. exact Hs.
  - intros H. apply bind_Normal in H as (s1 & E1 & E2). eauto.
Qed.

(** ** The selection collector *)

Module collector.
Import selection_set_to_object.

Lemma same_config_refl a : same_config a a.
Proof. repeat split. Qed.

Lemma same_config_trans a b c : same_config a b -> same_config b c -> same_config a c.
Proof. unfold same_config. intuition congruence. Qed.

Ltac config := unfold same_config; cbn; intuition congruence.

Lemma _collectField_config string_of alias name ss this this' :
  _collectField string_of alias name ss this = Normal this' -> same_config this' this.
Proof.
  unfold _collectField. intros H.
  repeat match type of H with
  | (if ?c then _ else _) = _ => destruct c
  | match ?o with _ => _ end = _ => destruct o
  | bind _ _ = Normal _ => apply bind_Normal in H as (? & _ & H)
  | Normal _ = Normal _ => injection H as <-
  | Throw _ = Normal _ => discriminate H
  end; config.
Qed.

Lemma _collectInlineFragment_config string_of typeCondition ss this this' :
  _collectInlineFragment string_of typeCondition ss this = Normal this' ->
  same_config this' this.
Proof.
  unfold _collectInlineFragment. intros H.
  destruct typeCondition as [onType|]; [|discriminate].
  apply bind_Normal in H as (text & _ & H).
  apply bind_Normal in H as (o & _ & H). injection H as <-.
  destruct (inlineFragments_has _ _); config.
Qed.

Lemma collect_config selection this this' :
  collect selection this = Normal this' -> same_config this' this.
Proof.
  destruct selection as [alias name ss|name|typeCondition ss]; simpl.
  - apply _collectField_config.
  - intros [= <-]. config.
  - apply _collectInlineFragment_config.
Qed.

Lemma forEach_collect_config selections this this' :
  forEach collect selections this = Normal this' -> same_config this' this.
Proof.
  intros H.
  apply (forEach_invariant collect (fun s => same_config s this) selections this this');
    [|apply same_config_refl|exact H].
  intros y s0 s1 H0 H1. eapply same_config_trans; [eapply collect_config|]; eauto.
Qed.

(** The getter, unfolded once. *)
Lemma get_string_eq this :
  get_string this =
  match _selectionSet this with
  | None => Normal ("", this)
  | Some (SelectionSet selections) =>
      if (length selections =? 0)%nat then Normal ("", this)
      else
        this' <- forEach collect selections this ;;
        fieldsSet <- fieldsSet this' ;;
        Normal (mergeAllFields fieldsSet, this')
  end.
Proof.
  unfold get_string. destruct (_selectionSet this) as [[selections]|]; reflexivity.
Qed.


(** A field the parent does not have: reading [schemaField.type] throws. *)
Lemma _collectField_unknown string_of alias name ss this parent :
  _parentSchemaType this = Some parent ->
  type_kind parent = OBJECT \/ type_kind parent = INTERFACE ->
  name <> "__typename" ->
  isRootType parent (_schema this) && isMetadataFieldName name = false ->
  getFields (_schema this) parent !! name = None ->
  _collectField string_of alias name ss this = Throw (TypeError_read "type").
Proof.
  intros Hparent Hkind Hname Hmeta Hfield. unfold _collectField.
  destruct (String.eqb_spec name "__typename") as [|_]; [contradiction|].
  rewrite Hparent; cbn [isObjectType isInterfaceType].
  replace (bool_decide (type_kind parent = OBJECT)
           || bool_decide (type_kind parent = INTERFACE)) with true.
  - rewrite Hmeta, Hfield. reflexivity.
  - symmetry. apply orb_true_iff.
    destruct Hkind as [H|H]; [left|right]; apply bool_decide_eq_true; exact H.
Qed.

(** On a parent that is neither an object nor an interface type the
    guard of [_collectField] skips the field. *)
Lemma _collectField_skipped string_of alias name ss this :
  isObjectType (_parentSchemaType this) || isInterfaceType (_parentSchemaType this) = false ->
  name <> "__typename" ->
  _collectField string_of alias name ss this = Normal this.
Proof.
  intros Hguard Hname. unfold _collectField.
  destruct (String.eqb_spec name "__typename") as [|_]; [contradiction|].
  rewrite Hguard. reflexivity.
Qed.

Lemma get_string_unknown_field this parent pre alias name ss post :
  _selectionSet this = Some (SelectionSet (pre ++ FIELD alias name ss :: post)) ->
  _parentSchemaType this = Some parent ->
  type_kind parent = OBJECT \/ type_kind parent = INTERFACE ->
  name <> "__typename" ->
  isRootType parent (_schema this) && isMetadataFieldName name = false ->
  getFields (_schema this) parent !! name = None ->
  throws (get_string this).
Proof.
  intros Hsel Hparent Hkind Hname Hmeta Hfield.
  rewrite get_string_eq, Hsel.
  destruct (length (pre ++ FIELD alias name ss :: post) =? 0)%nat eqn:E.
  { apply Nat.eqb_eq in E. rewrite length_app in E. simpl in E. lia. }
  apply bind_throws_l.
  apply (forEach_throws_at collect (fun s => same_config s this)).
  - intros y s0 s1 H0 H1.
    eapply same_config_trans; [eapply collect_config|]; eauto.
  - intros s0 (_ & _ & Hschema & _ & _ & Hp & _). simpl.
    rewrite (_collectField_unknown _ alias name ss s0 parent); try congruence.
    exact I.
  - apply same_config_refl.
Qed.

(** *** Own properties *)

Lemma own_assign_eq {V} (o : JsObject V) key v : own (assign o key v) key = Some v.
Proof.
  induction o as [|[k w] o IH]; simpl.
  - rewrite String.eqb_refl. reflexivity.
  - destruct (String.eqb k key) eqn:E; simpl; rewrite E; [reflexivity | exact IH].
Qed.

Lemma own_assign_ne {V} (o : JsObject V) key key' v :
  key <> key' -> own (assign o key v) key' = own o key'.
Proof.
  intros Hne. induction o as [|[k w] o IH]; simpl.
  - destruct (String.eqb_spec key key'); [contradiction | reflexivity].
  - destruct (String.eqb_spec k key) as [->|Hk]; simpl.
    + destruct (String.eqb_spec key key'); [contradiction | reflexivity].
    + rewrite IH. reflexivity.
Qed.

Lemma assign_assign {V} (o : JsObject V) key v w :
  assign (assign o key v) key w = assign o key w.
Proof.
  induction o as [|[k u] o IH]; simpl.
  - rewrite String.eqb_refl. reflexivity.
  - destruct (String.eqb k key) eqn:E; simpl; rewrite E; [reflexivity | f_equal; exact IH].
Qed.

(** *** What the loop records for the inline fragments *)

Lemma assign_fresh {V} (o : JsObject V) key v :
  own o key = None -> assign o key v = o ++ [(key, v)].
Proof.
  induction o as [|[k w] o IH]; simpl; [reflexivity|].
  destruct (String.eqb k key); [discriminate|]. intros H. rewrite IH by exact H. reflexivity.
Qed.

Lemma own_app {V} (o1 o2 : JsObject V) key :
  own (o1 ++ o2) key = match own o1 key with Some v => Some v | None => own o2 key end.
Proof.
  induction o1 as [|[k w] o1 IH]; simpl; [reflexivity|].
  destruct (String.eqb k key); [reflexivity | exact IH].
Qed.

Lemma own_Some_keys {V} (o : JsObject V) key :
  is_Some (own o key) <-> key ∈ map fst o.
Proof.
  induction o as [|[k w] o IH]; simpl.
  - split; [intros [? [=]] | intros H; inversion H].
  - destruct (String.eqb_spec k key) as [->|Hne].
    + split; [intros _; left | eauto].
    + rewrite IH. split; [right; assumption|].
      intros H. inversion H; subst; [contradiction | assumption].
Qed.

Lemma keys_assign {V} (o : JsObject V) key v :
  is_Some (own o key) -> map fst (assign o key v) = map fst o.
Proof.
  induction o as [|[k w] o IH]; simpl; [intros [? [=]]|].
  destruct (String.eqb_spec k key) as [->|Hne]; simpl; [reflexivity|].
  intros H. rewrite IH by exact H. reflexivity.
Qed.

Lemma bodies_of_push_branch o b onType :
  bodies_of (push_branch o b) onType
  = bodies_of o onType ++ bodies_for onType [b].
Proof.
  unfold bodies_of, push_branch, bodies_for. destruct b as [k text].
  rewrite filter_cons, filter_nil. cbn [fst snd].
  destruct (decide (k = onType)) as [->|Hne]; cbn [map].
  - destruct (own o onType) as [bodies|] eqn:E.
    + rewrite own_assign_eq. reflexivity.
    + rewrite own_app, E. simpl. rewrite String.eqb_refl. reflexivity.
  - rewrite app_nil_r. destruct (own o k) as [bodies|] eqn:E.
    + rewrite own_assign_ne by exact Hne. reflexivity.
    + rewrite own_app. destruct (own o onType); [reflexivity|].
      simpl. destruct (String.eqb_spec k onType); [contradiction | reflexivity].
Qed.

Lemma bodies_for_app onType l1 l2 :
  bodies_for onType (l1 ++ l2) = bodies_for onType l1 ++ bodies_for onType l2.
Proof. unfold bodies_for. rewrite filter_app, map_app. reflexivity. Qed.

Lemma bodies_of_branches branches : forall o onType,
  bodies_of (fold_left push_branch branches o) onType
  = bodies_of o onType ++ bodies_for onType branches.
Proof.
  induction branches as [|b l IH]; intros o onType; simpl.
  - unfold bodies_for. rewrite filter_nil. simpl. rewrite app_nil_r. reflexivity.
  - rewrite IH, bodies_of_push_branch, <- app_assoc.
    change (b :: l) with ([b] ++ l). rewrite bodies_for_app. reflexivity.
Qed.

Lemma keys_push_branch o b :
  map fst (push_branch o b)
  = if bool_decide (fst b ∈ map fst o) then map fst o else map fst o ++ [fst b].
Proof.
  unfold push_branch. destruct (own o (fst b)) as [bodies|] eqn:E.
  - rewrite bool_decide_eq_true_2 by (apply own_Some_keys; eauto).
    apply keys_assign. eauto.
  - rewrite bool_decide_eq_false_2.
    + rewrite map_app. reflexivity.
    + intros H. apply own_Some_keys in H. rewrite E in H. destruct H as [? [=]].
Qed.

Lemma keys_branches branches : forall o,
  map fst (fold_left push_branch branches o) = add_conditions (map fst o) branches.
Proof.
  induction branches as [|b l IH]; intros o; simpl; [reflexivity|].
  rewrite IH, keys_push_branch. reflexivity.
Qed.

Lemma createNext_config a b parent ss :
  same_config a b -> createNext a parent ss = createNext b parent ss.
Proof.
  intros (H1 & H2 & H3 & H4 & H5 & _). unfold createNext.
  rewrite H1, H2, H3, H4, H5. reflexivity.
Qed.






(** *** [Object.keys] *)




Lemma add_conditions_length keys branches :
  length keys <= length (add_conditions keys branches).
Proof.
  revert keys. induction branches as [|b l IH]; intros keys; simpl; [lia|].
  etransitivity; [|apply IH]. destruct (bool_decide _); [lia|]. rewrite length_app. lia.
Qed.

Lemma conditions_empty branches :
  (length (conditions branches) =? 0)%nat = (length branches =? 0)%nat.
Proof.
  destruct branches as [|b l]; [reflexivity|]. unfold conditions.
  cbn [add_conditions length Nat.eqb app].
  rewrite bool_decide_eq_false_2 by (intros H; inversion H).
  pose proof (add_conditions_length [b.1] l) as H. simpl in H.
  destruct (length (add_conditions [b.1] l)); [lia | reflexivity].
Qed.

Lemma add_conditions_elem keys branches k :
  k ∈ add_conditions keys branches -> k ∈ keys \/ k ∈ map fst branches.
Proof.
  revert keys. induction branches as [|b l IH]; intros keys; simpl; [auto|].
  intros H. apply IH in H as [H|H].
  - destruct (bool_decide _); [auto|].
    apply elem_of_app in H as [H|H]; [auto|].
    apply list_elem_of_singleton in H as ->. right; left.
  - right; right; exact H.
Qed.


(** *** What one pass of the loop adds *)

Lemma extend_app this d1 d2 :
  extend (extend this d1) d2 = extend this (Delta_app d1 d2).
Proof.
  unfold extend, Delta_app. cbn.
  rewrite <- !app_assoc, fold_left_app, orb_assoc. reflexivity.
Qed.

Lemma extend_empty this : this = extend this Delta_empty.
Proof.
  destruct this. unfold extend. cbn. rewrite !app_nil_r, orb_false_r. reflexivity.
Qed.

Lemma extend_typename this :
  set_queriedForTypename true this = extend this (mkDelta [] [] [] [] [] true).
Proof.
  unfold extend, set_queriedForTypename. cbn. rewrite !app_nil_r, orb_true_r. reflexivity.
Qed.

Lemma extend_primitives this l :
  set_primitiveFields (_primitiveFields this ++ l) this
  = extend this (mkDelta l [] [] [] [] false).
Proof.
  unfold extend, set_primitiveFields. cbn. rewrite !app_nil_r, orb_false_r. reflexivity.
Qed.

Lemma extend_aliased this l :
  set_primitiveAliasedFields (_primitiveAliasedFields this ++ l) this
  = extend this (mkDelta [] l [] [] [] false).
Proof.
  unfold extend, set_primitiveAliasedFields. cbn.
  rewrite !app_nil_r, orb_false_r. reflexivity.
Qed.

Lemma extend_links this l :
  set_linksFields (_linksFields this ++ l) this
  = extend this (mkDelta [] [] l [] [] false).
Proof.
  unfold extend, set_linksFields. cbn. rewrite !app_nil_r, orb_false_r. reflexivity.
Qed.

Lemma extend_spreads this l :
  set_fragmentSpreads (_fragmentSpreads this ++ l) this
  = extend this (mkDelta [] [] [] l [] false).
Proof.
  unfold extend, set_fragmentSpreads. cbn. rewrite !app_nil_r, orb_false_r. reflexivity.
Qed.

Lemma extend_branch this b :
  set_inlineFragments (push_branch (_inlineFragments this) b) this
  = extend this (mkDelta [] [] [] [] [b] false).
Proof.
  unfold extend, set_inlineFragments. cbn. rewrite !app_nil_r, orb_false_r. reflexivity.
Qed.

Lemma same_config_extend this d : same_config (extend this d) this.
Proof. config. Qed.

(** [_collectInlineFragment], with the two accesses to the key put
    together. *)
Lemma _collectInlineFragment_eq string_of onType nested this :
  inherited onType = false ->
  _collectInlineFragment string_of (Some onType) nested this
  = (text <- string_of (createNext this (getType (_schema this) onType) (Some nested)) ;;
     Normal (set_inlineFragments (push_branch (_inlineFragments this) (onType, text)) this)).
Proof.
  intros Hinh. unfold _collectInlineFragment.
  destruct (string_of _) as [text|e]; [|reflexivity]. cbn [bind].
  unfold inlineFragments_has, inlineFragments_push, push_branch. cbn [fst snd].
  destruct (own (_inlineFragments this) onType) as [bodies|] eqn:E.
  - rewrite E. reflexivity.
  - rewrite Hinh. cbn [_inlineFragments set_inlineFragments].
    rewrite own_assign_eq. cbn [bind app]. rewrite assign_assign, assign_fresh by exact E.
    reflexivity.
Qed.

Lemma _collectInlineFragment_plain string_of onType nested this this' :
  own_keys_plain (_inlineFragments this) ->
  _collectInlineFragment string_of (Some onType) nested this = Normal this' ->
  inherited onType = false.
Proof.
  intros Hplain. unfold _collectInlineFragment. intros H.
  apply bind_Normal in H as (text & _ & H).
  apply bind_Normal in H as (o & Hpush & _).
  revert Hpush. unfold inlineFragments_has, inlineFragments_push.
  destruct (own (_inlineFragments this) onType) as [bodies|] eqn:E.
  - intros _. unfold own_keys_plain in Hplain. rewrite Forall_forall in Hplain.
    apply Hplain, own_Some_keys. eauto.
  - destruct (inherited onType); [|reflexivity]. rewrite E. discriminate.
Qed.

Lemma own_keys_plain_extend this d :
  own_keys_plain (_inlineFragments this) ->
  Forall (fun b => inherited (fst b) = false) (d_branches d) ->
  own_keys_plain (_inlineFragments (extend this d)).
Proof.
  unfold own_keys_plain. cbn. rewrite keys_branches, !Forall_forall.
  intros Ho Hd k Hk. apply add_conditions_elem in Hk as [Hk|Hk]; [auto|].
  apply list_elem_of_fmap in Hk as (b & -> & Hb). auto.
Qed.

Lemma collect_uniform selection a b a' :
  same_config b a ->
  own_keys_plain (_inlineFragments a) ->
  collect selection a = Normal a' ->
  exists d,
    a' = extend a d
    /\ collect selection b = Normal (extend b d)
    /\ Forall (fun b => inherited (fst b) = false) (d_branches d).
Proof.
  intros Hcfg Hplain H.
  destruct selection as [alias name ss|name|[onType|] nested]; cbn [collect] in *.
  - set (string_of := fun next : SelectionSetToObject => _) in *. clearbody string_of.
    unfold _collectField, createNext in *.
    destruct Hcfg as (Hc1 & Hc2 & Hc3 & Hc4 & Hc5 & Hc6 & Hc7).
    rewrite ?Hc1, ?Hc2, ?Hc3, ?Hc4, ?Hc5, ?Hc6.
    repeat match type of H with
    | (if ?c then _ else _) = _ => destruct c
    | match ?o with _ => _ end = _ => destruct o
    | bind ?c _ = Normal _ => destruct c; cbn [bind] in H |- *
    | Throw _ = Normal _ => discriminate H
    end;
    injection H as <-;
    eexists; (split; [|split; [apply f_equal|]]);
    first [ apply extend_empty | apply extend_typename | apply extend_primitives
          | apply extend_aliased | apply extend_links | constructor ].
  - injection H as <-. unfold _collectFragmentSpread.
    eexists; (split; [|split; [apply f_equal|]]);
      first [ apply extend_spreads | constructor ].
  - pose proof (_collectInlineFragment_plain _ _ _ _ _ Hplain H) as Hinh.
    rewrite _collectInlineFragment_eq in H |- * by exact Hinh.
    rewrite (createNext_config b a) by exact Hcfg.
    destruct Hcfg as (_ & _ & -> & _).
    destruct (bind (string_in nested _) _) as [text|]; [|discriminate].
    cbn [bind] in *. injection H as <-.
    eexists; (split; [|split; [apply f_equal|]]);
      first [ apply extend_branch | repeat constructor; exact Hinh ].
  - discriminate.
Qed.

Lemma forEach_collect_uniform selections : forall a b a',
  same_config b a ->
  own_keys_plain (_inlineFragments a) ->
  forEach collect selections a = Normal a' ->
  exists d, a' = extend a d /\ forEach collect selections b = Normal (extend b d).
Proof.
  induction selections as [|s l IH]; intros a b a' Hcfg Hplain; cbn [forEach].
  - intros [= <-]. exists Delta_empty. split; [apply extend_empty|].
    f_equal. apply extend_empty.
  - intros H. apply bind_Normal in H as (a1 & H1 & H2).
    destruct (collect_uniform s a b a1 Hcfg Hplain H1) as (d1 & -> & Hb & Hd1).
    rewrite Hb. cbn [bind].
    destruct (IH (extend a d1) (extend b d1) a') as (d2 & -> & Hb2); [| |exact H2|].
    + unfold same_config in *. cbn. tauto.
    + apply own_keys_plain_extend; assumption.
    + exists (Delta_app d1 d2). rewrite Hb2, !extend_app. auto.
Qed.

Lemma fieldsSet_returns this parent :
  _parentSchemaType this = Some parent -> exists parts, fieldsSet this = Normal parts.
Proof.
  intros Hp. unfold fieldsSet, typeNameField, buildTypeNameField. rewrite Hp.
  destruct (_addTypename this || _queriedForTypename this); cbn [bind]; [|eauto].
  destruct (negb _ && negb _); cbn [bind]; eauto.
Qed.

Lemma fieldsSet_parent this parts :
  fieldsSet this = Normal parts -> exists parent, _parentSchemaType this = Some parent.
Proof. unfold fieldsSet. destruct (_parentSchemaType this); [eauto | discriminate]. Qed.

Lemma branches_empty branches :
  fold_left push_branch branches [] = [] -> branches = [].
Proof.
  intros H. apply (f_equal (map fst)) in H. rewrite keys_branches in H.
  change (conditions branches = []) in H.
  pose proof (conditions_empty branches) as E. rewrite H in E.
  destruct branches; [reflexivity | discriminate].
Qed.

(** *** An inline fragment on a type the schema does not have *)



(** *** A link field *)

Lemma _collectField_link string_of alias name ss this this' parent schemaField :
  name <> "__typename" ->
  _parentSchemaType this = Some parent ->
  type_kind parent = OBJECT \/ type_kind parent = INTERFACE ->
  (if isRootType parent (_schema this) && isMetadataFieldName name
   then metadataFieldMap name
   else getFields (_schema this) parent !! name) = Some schemaField ->
  scalars_has (_scalars this) (type_name (getBaseType (field_type schemaField)))
  || isEnumType (Some (getBaseType (field_type schemaField)))
  || isScalarType (Some (getBaseType (field_type schemaField))) = false ->
  _collectField string_of alias name ss this = Normal this' ->
  exists text,
    string_of (createNext this (Some (getBaseType (field_type schemaField))) ss)
    = Normal text
    /\ _linksFields this'
       = _linksFields this
         ++ [LinkField.mk alias name
               (type_name (getBaseType (field_type schemaField)))
               (wrapTypeWithModifiers (class_of this) text (field_type schemaField))].
Proof.
  intros Hname Hparent Hkind Hfield Hlink. unfold _collectField.
  destruct (String.eqb_spec name "__typename") as [|_]; [contradiction|].
  rewrite Hparent; cbn [isObjectType isInterfaceType].
  replace (bool_decide (type_kind parent = OBJECT)
           || bool_decide (type_kind parent = INTERFACE)) with true.
  2:{ symmetry. apply orb_true_iff.
      destruct Hkind as [H|H]; [left|right]; apply bool_decide_eq_true; exact H. }
  rewrite Hfield. cbn zeta. rewrite Hlink.
  intros H. apply bind_Normal in H as (text & Htext & H). injection H as <-.
  exists text. split; [exact Htext | reflexivity].
Qed.

(** *** The typename flag *)

Lemma collect_queriedForTypename selection this this' :
  collect selection this = Normal this' ->
  _queriedForTypename this' = _queriedForTypename this || selects_typename selection.
Proof.
  destruct selection as [alias name ss|name|typeCondition ss]; cbn [collect selects_typename].
  - unfold _collectField. intros H.
    destruct (String.eqb name "__typename").
    { injection H as <-. cbn. rewrite orb_true_r. reflexivity. }
    rewrite orb_false_r.
    repeat match type of H with
    | (if ?c then _ else _) = _ => destruct c
    | match ?o with _ => _ end = _ => destruct o
    | bind _ _ = Normal _ => apply bind_Normal in H as (? & _ & H)
    | Normal _ = Normal _ => injection H as <-
    | Throw _ = Normal _ => discriminate H
    end; reflexivity.
  - intros [= <-]. cbn. rewrite orb_false_r. reflexivity.
  - unfold _collectInlineFragment. intros H.
    destruct typeCondition as [onType|]; [|discriminate].
    apply bind_Normal in H as (text & _ & H).
    apply bind_Normal in H as (o & _ & H). injection H as <-.
    rewrite orb_false_r. destruct (inlineFragments_has _ _); reflexivity.
Qed.

Lemma forEach_collect_queriedForTypename selections this this' :
  forEach collect selections this = Normal this' ->
  _queriedForTypename this'
  = _queriedForTypename this || existsb selects_typename selections.
Proof.
  revert this. induction selections as [|s l IH]; intros this; simpl.
  - intros [= <-]. rewrite orb_false_r. reflexivity.
  - intros H. apply bind_Normal in H as (this1 & H1 & H2).
    rewrite (IH _ H2), (collect_queriedForTypename _ _ _ H1), orb_assoc. reflexivity.
Qed.

(** *** Selections of leaf fields and of fragment spreads *)

Lemma leaf_selection_config a b selection :
  same_config a b -> leaf_selection a selection = leaf_selection b selection.
Proof.
  intros (H1 & H2 & H3 & H4 & H5 & H6 & H7).
  unfold leaf_selection, schemaField_of, leaf_type. rewrite H2, H3, H6. reflexivity.
Qed.

Lemma collect_leaf_selection selection this :
  leaf_selection this selection = true ->
  collect selection this
  = Normal (if aliased selection
            then set_primitiveAliasedFields
                   (_primitiveAliasedFields this ++ [aliased_pair selection]) this
            else set_primitiveFields (_primitiveFields this ++ [name_of selection]) this).
Proof.
  unfold leaf_selection.
  destruct selection as [alias name ss| |]; try discriminate.
  destruct (_parentSchemaType this) as [parent|] eqn:Hparent; [|discriminate].
  intros H. apply andb_true_iff in H as [H Hfield].
  apply andb_true_iff in H as [Hname Hguard].
  cbn [collect]. unfold _collectField.
  destruct (String.eqb name "__typename"); [discriminate|].
  rewrite Hparent. unfold objectish in Hguard. rewrite Hguard.
  unfold schemaField_of in Hfield.
  destruct (if isRootType parent (_schema this) && isMetadataFieldName name
            then metadataFieldMap name
            else getFields (_schema this) parent !! name) as [schemaField|];
    [|discriminate].
  unfold leaf_type in Hfield. cbn zeta. rewrite Hfield.
  destruct alias as [a|]; cbn [aliased aliased_pair name_of]; [|reflexivity].
  destruct (String.eqb a ""); reflexivity.
Qed.

Lemma forEach_collect_leaf_selections selections : forall this,
  Forall (fun selection => leaf_selection this selection = true) selections ->
  forEach collect selections this
  = Normal (extend this
              (mkDelta (map name_of (List.filter (fun s => negb (aliased s)) selections))
                       (map aliased_pair (List.filter aliased selections))
                       [] [] [] false)).
Proof.
  induction selections as [|s l IH]; intros this Hall; cbn [forEach].
  - cbn. f_equal. apply extend_empty.
  - inversion Hall as [|? ? Hs Hl]; subst.
    rewrite (collect_leaf_selection _ _ Hs). cbn [bind List.filter].
    destruct (aliased s) eqn:E; cbn [negb].
    + rewrite IH.
      * f_equal. unfold extend. cbn. rewrite <- !app_assoc. reflexivity.
      * eapply Forall_impl; [exact Hl|]. intros x Hx.
        rewrite <- Hx. apply leaf_selection_config. config.
    + rewrite IH.
      * f_equal. unfold extend. cbn. rewrite <- !app_assoc. reflexivity.
      * eapply Forall_impl; [exact Hl|]. intros x Hx.
        rewrite <- Hx. apply leaf_selection_config. config.
Qed.

Lemma forEach_collect_spreads selections : forall this,
  Forall (fun selection => is_spread selection = true) selections ->
  forEach collect selections this
  = Normal (extend this (mkDelta [] [] [] (map name_of selections) [] false)).
Proof.
  induction selections as [|s l IH]; intros this Hall; cbn [forEach].
  - f_equal. apply extend_empty.
  - inversion Hall as [|? ? Hs Hl]; subst.
    destruct s as [|name|]; try discriminate. cbn [collect bind].
    unfold _collectFragmentSpread. cbn [bind]. rewrite IH by exact Hl.
    f_equal. unfold extend. cbn. rewrite <- !app_assoc. reflexivity.
Qed.

(** The getter on a selection set that is not empty. *)
Lemma get_string_loop this selections this' :
  _selectionSet this = Some (SelectionSet selections) ->
  selections <> [] ->
  forEach collect selections this = Normal this' ->
  get_string this = (parts <- fieldsSet this' ;; Normal (mergeAllFields parts, this')).
Proof.
  intros Hsel Hne Hloop. rewrite get_string_eq, Hsel.
  destruct selections as [|s l]; [contradiction|].
  cbn [length Nat.eqb]. rewrite Hloop. reflexivity.
Qed.

Lemma filter_all {A} (f : A -> bool) l :
  Forall (fun x => f x = true) l -> List.filter f l = l.
Proof.
  induction 1 as [|x l Hx _ IH]; cbn; [reflexivity|]. rewrite Hx, IH. reflexivity.
Qed.

Lemma filter_none {A} (f : A -> bool) l :
  Forall (fun x => f x = false) l -> List.filter f l = [].
Proof.
  induction 1 as [|x l Hx _ IH]; cbn; [reflexivity|]. rewrite Hx, IH. reflexivity.
Qed.

Lemma typeNameField_extend this d :
  d_typename d = false -> typeNameField (extend this d) = typeNameField this.
Proof.
  intros Hd. unfold typeNameField, buildTypeNameField, extend. cbn.
  rewrite Hd, orb_false_r. reflexivity.
Qed.

Lemma filter_truthy_two typeName part :
  filter_truthy [typeName; None; None; None; part; None] = filter_truthy [typeName; part]
  /\ filter_truthy [typeName; part; None; None; None; None] = filter_truthy [typeName; part]
  /\ filter_truthy [typeName; None; part; None; None; None] = filter_truthy [typeName; part].
Proof.
  destruct typeName as [t|], part as [x|]; cbn;
    repeat match goal with |- context [String.eqb ?a ""] => destruct (String.eqb a "") end;
    auto.
Qed.

(** *** What one selection adds to the accumulators *)

Lemma collect_counts selection this this' :
  collect selection this = Normal this' ->
  fields_recorded this'
  = fields_recorded this
    + (if plain_field selection && objectish (_parentSchemaType this) then 1 else 0)
  /\ length (_fragmentSpreads this')
     = length (_fragmentSpreads this) + (if is_spread selection then 1 else 0).
Proof.
  destruct selection as [alias name ss|name|typeCondition nested];
    cbn [collect plain_field is_spread].
  - unfold _collectField, objectish, fields_recorded.
    destruct (String.eqb name "__typename"); cbn [negb andb].
    { intros [= <-]. cbn. lia. }
    destruct (_parentSchemaType this) as [parent|]; [|intros [= <-]; cbn; lia].
    destruct (isObjectType (Some parent) || isInterfaceType (Some parent)).
    2:{ intros [= <-]. lia. }
    destruct (if isRootType parent (_schema this) && isMetadataFieldName name
              then metadataFieldMap name
              else getFields (_schema this) parent !! name) as [schemaField|];
      [|discriminate].
    cbn zeta.
    destruct (scalars_has _ _ || isEnumType _ || isScalarType _).
    + destruct alias as [a|]; [destruct (negb (String.eqb a ""))|];
        intros [= <-]; cbn; rewrite ?length_app; cbn; lia.
    + intros H. apply bind_Normal in H as (text & _ & H). injection H as <-.
      cbn. rewrite ?length_app. cbn. lia.
  - unfold _collectFragmentSpread. intros [= <-]. unfold fields_recorded. cbn.
    rewrite length_app. cbn. lia.
  - unfold _collectInlineFragment. destruct typeCondition as [onType|]; [|discriminate].
    cbn zeta. intros H.
    apply bind_Normal in H as (text & _ & H).
    apply bind_Normal in H as (o & _ & H). injection H as <-.
    unfold fields_recorded.
    destruct (inlineFragments_has (_inlineFragments this) onType); cbn; lia.
Qed.

Lemma objectish_config a b :
  same_config a b -> objectish (_parentSchemaType a) = objectish (_parentSchemaType b).
Proof. intros (_ & _ & _ & _ & _ & H & _). rewrite H. reflexivity. Qed.

Lemma forEach_collect_counts selections : forall this this',
  forEach collect selections this = Normal this' ->
  fields_recorded this'
  = fields_recorded this
    + (if objectish (_parentSchemaType this)
       then length (List.filter plain_field selections) else 0)
  /\ length (_fragmentSpreads this')
     = length (_fragmentSpreads this) + length (List.filter is_spread selections).
Proof.
  induction selections as [|s l IH]; intros this this'; cbn [forEach List.filter].
  - intros [= <-]. destruct (objectish _); cbn; lia.
  - intros H. apply bind_Normal in H as (this1 & H1 & H).
    pose proof (collect_config _ _ _ H1) as Hc.
    apply collect_counts in H1 as [Hf Hs]. apply IH in H as [Hf' Hs'].
    rewrite (objectish_config _ _ Hc) in Hf'.
    rewrite Hf', Hs', Hf, Hs.
    destruct (plain_field s), (is_spread s), (objectish (_parentSchemaType this));
      cbn [andb length]; lia.
Qed.

(** *** The accumulators only grow *)

Lemma prefix_snoc {A} (l : list A) x : l `prefix_of` l ++ [x].
Proof. exists [x]. reflexivity. Qed.

Lemma bodies_of_assign_new o onType k :
  inlineFragments_has o onType = false ->
  bodies_of (assign o onType []) k = bodies_of o k.
Proof.
  unfold inlineFragments_has, bodies_of. intros H.
  destruct (own o onType) eqn:E; [discriminate|].
  destruct (decide (onType = k)) as [->|Hne].
  - rewrite own_assign_eq, E. reflexivity.
  - rewrite own_assign_ne by exact Hne. reflexivity.
Qed.

Lemma collect_appends selection this this' :
  collect selection this = Normal this' ->
  _primitiveFields this `prefix_of` _primitiveFields this'
  /\ _primitiveAliasedFields this `prefix_of` _primitiveAliasedFields this'
  /\ _linksFields this `prefix_of` _linksFields this'
  /\ _fragmentSpreads this `prefix_of` _fragmentSpreads this'
  /\ (forall onType,
        bodies_of (_inlineFragments this) onType
          `prefix_of` bodies_of (_inlineFragments this') onType)
  /\ (_queriedForTypename this = true -> _queriedForTypename this' = true).
Proof.
  destruct selection as [alias name ss|name|typeCondition nested]; cbn [collect].
  - unfold _collectField.
    destruct (String.eqb name "__typename").
    { intros [= <-]. cbn. repeat split; auto. }
    destruct (isObjectType (_parentSchemaType this) || isInterfaceType (_parentSchemaType this)).
    2:{ intros [= <-]. repeat split; auto. }
    destruct (_parentSchemaType this) as [parent|]; [|intros [= <-]; repeat split; auto].
    destruct (if isRootType parent (_schema this) && isMetadataFieldName name
              then metadataFieldMap name
              else getFields (_schema this) parent !! name) as [schemaField|];
      [|discriminate].
    cbn zeta.
    destruct (scalars_has _ _ || isEnumType _ || isScalarType _).
    + destruct alias as [a|]; [destruct (negb (String.eqb a ""))|];
        intros [= <-]; cbn; repeat split; auto using prefix_snoc.
    + intros H. apply bind_Normal in H as (text & _ & H). injection H as <-.
      cbn. repeat split; auto using prefix_snoc.
  - unfold _collectFragmentSpread. intros [= <-]. cbn.
    repeat split; auto using prefix_snoc.
  - unfold _collectInlineFragment. destruct typeCondition as [onType|]; [|discriminate].
    cbn zeta. intros H.
    apply bind_Normal in H as (text & _ & H).
    apply bind_Normal in H as (o & Hpush & H). injection H as <-.
    assert (forall k,
              bodies_of (_inlineFragments this) k `prefix_of` bodies_of o k) as Hbodies.
    { intros k. unfold inlineFragments_push in Hpush.
      destruct (inlineFragments_has (_inlineFragments this) onType) eqn:Ehas.
      - destruct (own (_inlineFragments this) onType) as [bodies|] eqn:E.
        + injection Hpush as <-. unfold bodies_of.
          destruct (decide (onType = k)) as [->|Hne].
          * rewrite own_assign_eq, E. cbn. apply prefix_snoc.
          * rewrite own_assign_ne by exact Hne. reflexivity.
        + destruct (inherited onType); discriminate.
      - cbn [_inlineFragments set_inlineFragments] in Hpush.
        rewrite own_assign_eq in Hpush. injection Hpush as <-.
        rewrite assign_assign.
        unfold inlineFragments_has in Ehas. unfold bodies_of.
        destruct (own (_inlineFragments this) onType) eqn:E; [discriminate|].
        destruct (decide (onType = k)) as [->|Hne].
        * rewrite own_assign_eq, E. cbn. apply prefix_nil.
        * rewrite own_assign_ne by exact Hne. reflexivity. }
    destruct (inlineFragments_has (_inlineFragments this) onType);
      cbn; repeat split; auto.
Qed.

Lemma forEach_collect_appends selections : forall this this',
  forEach collect selections this = Normal this' ->
  _primitiveFields this `prefix_of` _primitiveFields this'
  /\ _primitiveAliasedFields this `prefix_of` _primitiveAliasedFields this'
  /\ _linksFields this `prefix_of` _linksFields this'
  /\ _fragmentSpreads this `prefix_of` _fragmentSpreads this'
  /\ (forall onType,
        bodies_of (_inlineFragments this) onType
          `prefix_of` bodies_of (_inlineFragments this') onType)
  /\ (_queriedForTypename this = true -> _queriedForTypename this' = true).
Proof.
  induction selections as [|s l IH]; intros this this'; cbn [forEach].
  - intros [= <-]. repeat split; auto.
  - intros H. apply bind_Normal in H as (this1 & H1 & H).
    apply collect_appends in H1 as (A1 & A2 & A3 & A4 & A5 & A6).
    apply IH in H as (B1 & B2 & B3 & B4 & B5 & B6).
    repeat split; try (etransitivity; eassumption); auto.
    intros k. etransitivity; [apply A5 | apply B5].
Qed.

(** *** Type conditions that cannot be recorded *)

Lemma collect_plain selection this this' :
  own_keys_plain (_inlineFragments this) ->
  collect selection this = Normal this' ->
  own_keys_plain (_inlineFragments this').
Proof.
  intros Hplain H.
  destruct (collect_uniform selection this this this' (same_config_refl _) Hplain H)
    as (d & -> & _ & Hd).
  apply own_keys_plain_extend; assumption.
Qed.

Lemma collect_on_inherited_name selection this :
  on_inherited_name selection = true ->
  own_keys_plain (_inlineFragments this) ->
  throws (collect selection this).
Proof.
  intros Hsel Hplain.
  destruct (collect selection this) as [this'|e] eqn:H; [|exact I].
  destruct selection as [| |[onType|] nested]; try discriminate.
  cbn [on_inherited_name] in Hsel. cbn [collect] in H.
  apply _collectInlineFragment_plain in H; [|exact Hplain]. congruence.
Qed.

(** *** Selections of link fields *)

Lemma bucket_config a b selection :
  same_config a b -> bucket a selection = bucket b selection.
Proof.
  intros (H1 & H2 & H3 & H4 & H5 & H6 & H7).
  unfold bucket, schemaField_of, leaf_type. rewrite H2, H3, H6. reflexivity.
Qed.

Lemma link_entry_config a b selection :
  same_config a b -> link_entry a selection = link_entry b selection.
Proof.
  intros Hc. pose proof Hc as (H1 & H2 & H3 & H4 & H5 & H6 & H7).
  unfold link_entry, schemaField_of. rewrite H1, H3, H6.
  destruct selection as [alias name ss| |]; try reflexivity.
  destruct (_parentSchemaType b) as [parent|]; [|reflexivity].
  destruct (if isRootType parent (_schema b) && isMetadataFieldName name
            then metadataFieldMap name
            else getFields (_schema b) parent !! name) as [schemaField|]; [|reflexivity].
  rewrite (createNext_config a b) by exact Hc. reflexivity.
Qed.

Lemma collect_link selection this entry :
  bucket this selection = Link ->
  link_entry this selection = Some entry ->
  collect selection this = Normal (set_linksFields (_linksFields this ++ [entry]) this).
Proof.
  destruct selection as [alias name ss| |]; cbn [bucket]; try discriminate.
  unfold link_entry, objectish, schemaField_of, leaf_type. cbn [collect]. unfold _collectField.
  destruct (String.eqb name "__typename"); [discriminate|].
  destruct (_parentSchemaType this) as [parent|]; [|discriminate].
  destruct (isObjectType (Some parent) || isInterfaceType (Some parent)); [|discriminate].
  destruct (if isRootType parent (_schema this) && isMetadataFieldName name
            then metadataFieldMap name
            else getFields (_schema this) parent !! name) as [schemaField|]; [|discriminate].
  cbn zeta.
  destruct (scalars_has _ _ || isEnumType _ || isScalarType _).
  { destruct (aliased _); discriminate. }
  intros _. unfold get_string. cbn [createNext new _selectionSet].
  destruct ss as [nested|].
  - unfold createNext.
    destruct (string_in nested _) as [[text next]|e]; [|discriminate].
    intros [= <-]. reflexivity.
  - intros [= <-]. reflexivity.
Qed.

Lemma forEach_collect_links selections : forall this,
  Forall (fun s => bucket this s = Link /\ is_Some (link_entry this s)) selections ->
  forEach collect selections this
  = Normal (extend this (mkDelta [] [] (omap (link_entry this) selections) [] [] false)).
Proof.
  induction selections as [|s l IH]; intros this Hall; cbn [forEach].
  - cbn. f_equal. apply extend_empty.
  - inversion Hall as [|? ? [Hb [entry He]] Hl]; subst.
    rewrite (collect_link _ _ _ Hb He). cbn [bind].
    cbn [omap list_omap]. rewrite He. fold (omap (link_entry this) l).
    rewrite IH.
    + f_equal. unfold extend. cbn.
      rewrite <- !app_assoc. cbn [app].
      rewrite (list_omap_ext _ (link_entry this) l l); [reflexivity|].
      apply Forall_Forall2_diag, Forall_forall. intros x _.
      apply link_entry_config. config.
    + eapply Forall_impl; [exact Hl|]. intros x [Hx1 Hx2].
      rewrite <- (bucket_config this), <- (link_entry_config this) by config.
      split; assumption.
Qed.

Lemma filter_truthy_links typeName part :
  filter_truthy [typeName; None; None; part; None; None] = filter_truthy [typeName; part].
Proof.
  destruct typeName as [t|], part as [x|]; cbn;
    repeat match goal with |- context [String.eqb ?a ""] => destruct (String.eqb a "") end;
    auto.
Qed.

(** *** Selections that go to different accumulators *)

Lemma collect_touches_only selection this this' :
  collect selection this = Normal this' ->
  touches_only (bucket this selection) this this'.
Proof.
  destruct selection as [alias name ss|name|typeCondition nested]; cbn [collect bucket].
  - unfold _collectField, objectish, schemaField_of, leaf_type.
    destruct (String.eqb name "__typename").
    { intros [= <-]. unfold touches_only. cbn. repeat split; auto. }
    destruct (_parentSchemaType this) as [parent|] eqn:Hparent.
    2:{ cbn. intros [= <-]. unfold touches_only. repeat split; auto. }
    destruct (isObjectType (Some parent) || isInterfaceType (Some parent)).
    2:{ intros [= <-]. unfold touches_only. repeat split; auto. }
    destruct (if isRootType parent (_schema this) && isMetadataFieldName name
              then metadataFieldMap name
              else getFields (_schema this) parent !! name) as [schemaField|];
      [|discriminate].
    cbn zeta.
    destruct (scalars_has _ _ || isEnumType _ || isScalarType _).
    + destruct alias as [a|]; cbn [aliased]; [destruct (negb (String.eqb a ""))|];
        intros [= <-]; unfold touches_only; cbn; repeat split; auto.
    + intros H. apply bind_Normal in H as (text & _ & H). injection H as <-.
      unfold touches_only. cbn. repeat split; auto.
  - unfold _collectFragmentSpread. intros [= <-]. unfold touches_only. cbn.
    repeat split; auto.
  - unfold _collectInlineFragment. destruct typeCondition as [onType|]; [|discriminate].
    cbn zeta. intros H.
    apply bind_Normal in H as (text & _ & H).
    apply bind_Normal in H as (o & _ & H). injection H as <-.
    unfold touches_only.
    destruct (inlineFragments_has (_inlineFragments this) onType); cbn; repeat split; auto.
Qed.

Lemma instance_eq (a b : SelectionSetToObject) :
  same_config a b ->
  _primitiveFields a = _primitiveFields b ->
  _primitiveAliasedFields a = _primitiveAliasedFields b ->
  _linksFields a = _linksFields b ->
  _fragmentSpreads a = _fragmentSpreads b ->
  _inlineFragments a = _inlineFragments b ->
  _queriedForTypename a = _queriedForTypename b ->
  a = b.
Proof.
  destruct a, b. unfold same_config. cbn.
  intros (-> & -> & -> & -> & -> & -> & ->) -> -> -> -> -> ->. reflexivity.
Qed.

Lemma collect_swap s t a a1 a2 :
  own_keys_plain (_inlineFragments a) ->
  bucket a s <> bucket a t ->
  collect s a = Normal a1 ->
  collect t a1 = Normal a2 ->
  exists a1', collect t a = Normal a1' /\ collect s a1' = Normal a2.
Proof.
  intros Hplain Hne Hs Ht.
  pose proof (collect_config _ _ _ Hs) as Hc1.
  pose proof (collect_plain _ _ _ Hplain Hs) as Hplain1.
  assert (same_config a a1) as Hc1' by (unfold same_config in *; intuition congruence).
  destruct (collect_uniform t a1 a a2 Hc1' Hplain1 Ht) as (dt & E2 & Ht' & Hdt).
  destruct (collect_uniform s a (extend a dt) a1 (same_config_extend _ _) Hplain Hs)
    as (ds & E1 & Hs' & _).
  exists (extend a dt). split; [exact Ht'|]. rewrite Hs'. f_equal.
  pose proof (collect_touches_only _ _ _ Hs) as O1.
  pose proof (collect_touches_only _ _ _ Ht) as O2.
  pose proof (collect_touches_only _ _ _ Ht') as O3.
  pose proof (collect_touches_only _ _ _ Hs') as O4.
  rewrite (bucket_config a1 a) in O2 by exact Hc1.
  rewrite (bucket_config (extend a dt) a) in O4 by apply same_config_extend.
  subst a1 a2.
  destruct O1 as (_ & P1 & A1 & L1 & S1 & I1 & Q1).
  destruct O2 as (_ & P2 & A2 & L2 & S2 & I2 & Q2).
  destruct O3 as (_ & P3 & A3 & L3 & S3 & I3 & Q3).
  destruct O4 as (_ & P4 & A4 & L4 & S4 & I4 & Q4).
  apply instance_eq.
  - eapply same_config_trans; [apply same_config_extend|].
    eapply same_config_trans; [apply same_config_extend|].
    unfold same_config; cbn; intuition congruence.
  - destruct (bucket a s), (bucket a t); try congruence; cbn in *; congruence.
  - destruct (bucket a s), (bucket a t); try congruence; cbn in *; congruence.
  - destruct (bucket a s), (bucket a t); try congruence; cbn in *; congruence.
  - destruct (bucket a s), (bucket a t); try congruence; cbn in *; congruence.
  - destruct (bucket a s), (bucket a t); try congruence; cbn in *; congruence.
  - destruct (bucket a s), (bucket a t); try congruence; cbn in *; congruence.
Qed.

Lemma forEach_app {A S} (body : A -> S -> Completion S) l1 l2 s :
  forEach body (l1 ++ l2) s = (s1 <- forEach body l1 s ;; forEach body l2 s1).
Proof.
  revert s. induction l1 as [|x l1 IH]; intros s; cbn [app forEach bind]; [reflexivity|].
  destruct (body x s) as [s1|e]; cbn [bind]; [apply IH | reflexivity].
Qed.

(** *** The union of the inline fragments in the text *)


Lemma branch_texts_nil this selections :
  selections = [] -> branch_texts this selections = [].
Proof. intros ->. reflexivity. Qed.





End collector.

(** ** The model builder *)

Module builder.
Import inner_models_builder.

Section facts.

Context {utils : Utils}.
Variable schema : GraphQLSchema.
Variable primitivesMap : PrimitivesMap.

Local Abbreviation visit := (visit schema primitivesMap).
Local Abbreviation call := (call schema primitivesMap).
Local Abbreviation buildInnerModelsArray_on := (buildInnerModelsArray_on schema primitivesMap).
Local Abbreviation buildInnerModelsArray := (buildInnerModelsArray schema primitivesMap).

Lemma call_eq l rootObject frame :
  call (SelectionSet l) rootObject frame = forEach (visit rootObject) l frame.
Proof. reflexivity. Qed.

(** A field for which [getFieldDef] yields nothing: reading
    [field.type] throws, whatever the accumulator. *)
Lemma visit_unknown_field rootObject alias name ss frame :
  getFieldDef rootObject (FIELD alias name ss) = None ->
  visit rootObject (FIELD alias name ss) frame = Throw (TypeError_read "type").
Proof. intros H. simpl. rewrite H. reflexivity. Qed.

Lemma buildInnerModelsArray_on_unknown_field rootObject pre alias name ss post appendTo st :
  getFieldDef rootObject (FIELD alias name ss) = None ->
  throws (buildInnerModelsArray_on rootObject
            (Some (SelectionSet (pre ++ FIELD alias name ss :: post))) appendTo st).
Proof.
  intros H. unfold inner_models_builder.buildInnerModelsArray_on.
  apply bind_throws_l. rewrite call_eq.
  apply (forEach_throws_at _ (fun _ => True)); auto.
  intros s0 _. rewrite visit_unknown_field by exact H. exact I.
Qed.

(** *** The store only grows *)

Lemma grows_refl st : grows st st.
Proof. split; [reflexivity | eauto]. Qed.

Lemma grows_trans st1 st2 st3 : grows st1 st2 -> grows st2 st3 -> grows st1 st3.
Proof.
  intros [P1 H1] [P2 H2]. split; [etransitivity; eauto|].
  intros r m Hm. destruct (H1 r m Hm) as (m' & Hm' & E').
  destruct (H2 r m' Hm') as (m'' & Hm'' & E''). exists m''. split; congruence.
Qed.

Lemma grows_alloc m st : grows st (snd (alloc m st)).
Proof.
  split; [reflexivity|]. intros r m0 H. exists m0. split; [|reflexivity].
  cbn. apply lookup_app_l_Some. exact H.
Qed.

Lemma grows_push r st : grows st (push r st).
Proof. split; [apply prefix_app_r; reflexivity | eauto]. Qed.

Lemma grows_modify r f st :
  (forall m, name (f m) = name m) -> grows st (modify r f st).
Proof.
  intros Hf. split; [reflexivity|]. intros r0 m H. cbn.
  destruct (decide (r = r0)) as [->|Hne].
  - exists (f m). split; [|apply Hf]. rewrite list_lookup_alter_eq, H. reflexivity.
  - exists m. split; [|reflexivity]. rewrite list_lookup_alter_ne by exact Hne. exact H.
Qed.

Lemma forEach_grows rootObject l :
  Forall (fun node => forall rootObject frame frame',
              visit rootObject node frame = Normal frame' ->
              grows (snd frame) (snd frame')) l ->
  forall frame frame',
    forEach (visit rootObject) l frame = Normal frame' ->
    grows (snd frame) (snd frame').
Proof.
  induction 1 as [|node rest Hnode _ IH]; intros frame frame'; cbn [forEach].
  - intros [= <-]. apply grows_refl.
  - intros H. apply bind_Normal in H as (frame1 & H1 & H2).
    eapply grows_trans; eauto.
Qed.

Lemma visit_grows node : forall rootObject frame frame',
  visit rootObject node frame = Normal frame' -> grows (snd frame) (snd frame').
Proof.
  induction node
    as [alias fieldName selectionSet IHnested| |typeCondition selectionSet IHnode|l IHl]
    using SelectionNode_induction with
    (Q := fun nested => forall rootObject frame frame',
              call nested rootObject frame = Normal frame' ->
              grows (snd frame) (snd frame')).
  - (* FIELD *)
    intros rootObject [appendTo st] frame'. cbn [inner_models_builder.visit fst snd].
    destruct (getFieldDef _ _) as [field|]; [|discriminate].
    destruct (bool_decide _).
    + unfold alloc. cbn [fst snd heap result].
      set (st2 := push _ _).
      assert (G2 : grows st st2).
      { eapply grows_trans; [eapply grows_alloc|apply grows_push]. }
      intros H. apply bind_Normal in H as ([inner_appendTo st3] & Hinner & H).
      assert (G3 : grows st2 st3).
      { destruct selectionSet as [nested|].
        - apply (IHnested _ _ _ Hinner).
        - injection Hinner as _ <-. apply grows_refl. }
      cbn [snd] in H. destruct appendTo as [a|]; injection H as <-; cbn [snd].
      * eapply grows_trans; [exact G2|]. eapply grows_trans; [exact G3|].
        apply grows_modify. reflexivity.
      * eapply grows_trans; [exact G2|]. eapply grows_trans; [exact G3|].
        eapply grows_trans; [apply (grows_alloc (emptyModel "Result") st3)|].
        eapply grows_trans; [apply grows_push|]. apply grows_modify. reflexivity.
    + destruct appendTo as [a|]; [|discriminate]. intros [= <-]. cbn [snd].
      apply grows_modify. reflexivity.
  - (* FRAGMENT_SPREAD *)
    intros rootObject [[a|] st] frame'; cbn [inner_models_builder.visit fst snd];
      [|discriminate].
    intros [= <-]. apply grows_modify. reflexivity.
  - (* INLINE_FRAGMENT *)
    intros rootObject [appendTo st] frame'. cbn [inner_models_builder.visit fst snd].
    destruct typeCondition as [onType|]; [|discriminate].
    unfold alloc. destruct appendTo as [a|]; [|discriminate].
    intros H. apply bind_Normal in H as ([inner_appendTo st3] & Hinner & H).
    injection H as <-. cbn [snd]. apply IHnode in Hinner. cbn [snd] in Hinner.
    eapply grows_trans; [|exact Hinner].
    eapply grows_trans; [eapply grows_alloc|].
    eapply grows_trans; [apply grows_modify|apply grows_push]. reflexivity.
  - (* a selection set *)
    intros rootObject frame frame'. rewrite call_eq. apply forEach_grows. assumption.
Qed.

Lemma call_grows nested rootObject frame frame' :
  call nested rootObject frame = Normal frame' -> grows (snd frame) (snd frame').
Proof.
  destruct nested as [l]. rewrite call_eq. apply forEach_grows.
  apply Forall_forall. intros node _ ? ? ?. apply visit_grows.
Qed.

(** *** A field of an object type *)

Lemma visit_object_field rootObject alias fieldName ss appendTo st field :
  getFieldDef rootObject (FIELD alias fieldName ss) = Some field ->
  type_kind (getNamedType (field_type field)) = OBJECT ->
  visit rootObject (FIELD alias fieldName ss) (appendTo, st)
  = (let modelName := handleNameDuplications (pascalCase fieldName) (models st) in
     let model := length (heap st) in
     let st2 := push model (snd (alloc (emptyModel modelName) st)) in
     inner <-
       match ss with
       | Some nested =>
           call nested (Some (Named (getNamedType (field_type field)))) (Some model, st2)
       | None => Normal (Some model, st2)
       end ;;
     let st3 := snd inner in
     let new := entry alias fieldName modelName (field_type field) in
     match appendTo with
     | Some a => Normal (Some a, modify a (push_field new) st3)
     | None =>
         let r := length (heap st3) in
         Normal (Some r,
                 modify r (push_field new) (push r (snd (alloc (emptyModel "Result") st3))))
     end).
Proof.
  intros Hfield Hkind. cbn [inner_models_builder.visit fst snd]. rewrite Hfield.
  rewrite bool_decide_eq_true_2 by exact Hkind. unfold alloc. cbn zeta.
  destruct appendTo; destruct ss; reflexivity.
Qed.

Lemma visit_inline_fragment rootObject onType nested a st :
  visit rootObject (INLINE_FRAGMENT (Some onType) nested) (Some a, st)
  = (let name := onType +:+ "InlineFragment" in
     let fragmentModel := length (heap st) in
     let st1 :=
       push fragmentModel
         (modify a (add_inlineFragment (InlineFragment.mk name onType))
            (snd (alloc (emptyModel name) st))) in
     inner <- call nested (typeFromAST schema onType) (Some fragmentModel, st1) ;;
     Normal (Some a, snd inner)).
Proof. reflexivity. Qed.

Lemma elem_of_models st r m :
  r ∈ result st -> heap st !! r = Some m -> m ∈ models st.
Proof.
  intros Hr Hm. unfold models. apply list_elem_of_omap. exists r. split; assumption.
Qed.

Lemma grows_elem_of_models st st' r m :
  grows st st' -> r ∈ result st -> heap st !! r = Some m ->
  exists m', m' ∈ models st' /\ name m' = name m.
Proof.
  intros [Hprefix Hheap] Hr Hm. destruct (Hheap r m Hm) as (m' & Hm' & E).
  exists m'. split; [|exact E]. eapply elem_of_models; [|exact Hm'].
  destruct Hprefix as [suffix ->]. apply elem_of_app. left. exact Hr.
Qed.

Lemma visit_object_field_entry rootObject alias fieldName ss appendTo st field frame' :
  getFieldDef rootObject (FIELD alias fieldName ss) = Some field ->
  type_kind (getNamedType (field_type field)) = OBJECT ->
  (forall a, appendTo = Some a -> is_Some (heap st !! a)) ->
  visit rootObject (FIELD alias fieldName ss) (appendTo, st) = Normal frame' ->
  let modelName := handleNameDuplications (pascalCase fieldName) (models st) in
  exists a accumulator model,
    fst frame' = Some a
    /\ heap (snd frame') !! a = Some accumulator
    /\ last (fields accumulator)
       = Some (entry alias fieldName modelName (field_type field))
    /\ model ∈ models (snd frame')
    /\ name model = modelName.
Proof.
  intros Hfield Hkind Hvalid H modelName.
  rewrite (visit_object_field _ _ _ _ _ _ field Hfield Hkind) in H. cbn zeta in H.
  fold modelName in H.
  set (model := length (heap st)) in *.
  set (st2 := push model (snd (alloc (emptyModel modelName) st))) in *.
  apply bind_Normal in H as ([inner_appendTo st3] & Hinner & H). cbn [snd] in H.
  assert (G2 : grows st st2)
    by (eapply grows_trans; [eapply grows_alloc | apply grows_push]).
  assert (G3 : grows st2 st3).
  { destruct ss as [nested|].
    - apply (call_grows _ _ _ _ Hinner).
    - injection Hinner as _ <-. apply grows_refl. }
  assert (Hmodel2 : heap st2 !! model = Some (emptyModel modelName)).
  { subst st2 model. cbn. rewrite lookup_app_r by reflexivity.
    rewrite Nat.sub_diag. reflexivity. }
  assert (Hresult2 : model ∈ result st2).
  { subst st2. cbn. apply elem_of_app. right. left. }
  set (new := entry alias fieldName modelName (field_type field)) in *.
  assert (Hfinal : forall st', grows st3 st' ->
             exists m', m' ∈ models st' /\ name m' = modelName).
  { intros st' G. apply (grows_elem_of_models st2 st' model (emptyModel modelName));
      [eapply grows_trans; eauto | assumption | assumption]. }
  destruct appendTo as [a|]; injection H as <-; cbn [fst snd].
  - destruct (Hvalid a eq_refl) as [m0 Hm0].
    destruct (proj2 (grows_trans _ _ _ G2 G3) a m0 Hm0) as (ma & Hma & _).
    destruct (Hfinal (modify a (push_field new) st3)) as (m' & Hin & Hname);
      [apply grows_modify; reflexivity|].
    exists a, (push_field new ma), m'. split; [reflexivity|]. split.
    { cbn. rewrite list_lookup_alter_eq, Hma. reflexivity. }
    split; [cbn; apply last_snoc|]. split; assumption.
  - set (r := length (heap st3)).
    set (st4 := push r (snd (alloc (emptyModel "Result") st3))).
    destruct (Hfinal (modify r (push_field new) st4)) as (m' & Hin & Hname).
    { eapply grows_trans; [eapply grows_alloc|].
      eapply grows_trans; [apply grows_push|]. apply grows_modify. reflexivity. }
    exists r, (push_field new (emptyModel "Result")), m'. split; [reflexivity|]. split.
    { subst st4 r. cbn. rewrite list_lookup_alter_eq, lookup_app_r by reflexivity.
      rewrite Nat.sub_diag. reflexivity. }
    split; [reflexivity|]. split; assumption.
Qed.

(** *** The models of two inline fragments on one type *)

Lemma visit_inline_fragment_pushes rootObject onType nested a st frame' :
  visit rootObject (INLINE_FRAGMENT (Some onType) nested) (Some a, st) = Normal frame' ->
  fst frame' = Some a
  /\ grows st (snd frame')
  /\ (exists suffix, result (snd frame') = result st ++ length (heap st) :: suffix)
  /\ (exists m, heap (snd frame') !! length (heap st) = Some m
                /\ name m = onType +:+ "InlineFragment").
Proof.
  rewrite visit_inline_fragment. cbn zeta. intros H.
  apply bind_Normal in H as ([inner_appendTo st'] & Hinner & H). injection H as <-.
  apply call_grows in Hinner. cbn [fst snd] in *.
  set (n := onType +:+ "InlineFragment") in *.
  set (st1 := push _ _) in Hinner.
  assert (G1 : grows st st1).
  { eapply grows_trans; [eapply grows_alloc|].
    eapply grows_trans; [apply grows_modify|apply grows_push]. reflexivity. }
  split; [reflexivity|]. split; [eapply grows_trans; eauto|]. split.
  - destruct Hinner as [[suffix Hsuffix] _]. exists suffix.
    rewrite Hsuffix. subst st1. cbn. rewrite <- app_assoc. reflexivity.
  - assert (H0 : heap (snd (alloc (emptyModel n) st)) !! length (heap st)
                 = Some (emptyModel n)).
    { cbn. rewrite lookup_app_r by reflexivity. rewrite Nat.sub_diag. reflexivity. }
    assert (G : grows (snd (alloc (emptyModel n) st)) st').
    { eapply grows_trans; [|exact Hinner].
      eapply grows_trans; [apply grows_modify|apply grows_push]. reflexivity. }
    destruct (proj2 G _ _ H0) as (m & Hm & Hname). eauto.
Qed.

Lemma twice_named_grows n st st' : grows st st' -> twice_named n st -> twice_named n st'.
Proof.
  intros [[suffix Hsuffix] Hheap] (l1 & r1 & l2 & r2 & l3 & m1 & m2 & Hr & H1 & H2 & N1 & N2).
  destruct (Hheap _ _ H1) as (m1' & H1' & E1). destruct (Hheap _ _ H2) as (m2' & H2' & E2).
  exists l1, r1, l2, r2, (l3 ++ suffix), m1', m2'.
  repeat split; try congruence.
  rewrite Hsuffix, Hr. rewrite <- !app_assoc. cbn. rewrite <- !app_assoc. reflexivity.
Qed.

Lemma omap_cons_Some {A B} (f : A -> option B) x y (l : list A) :
  f x = Some y -> omap f (x :: l) = y :: omap f l.
Proof. intros H. cbn [omap list_omap]. rewrite H. reflexivity. Qed.

Lemma twice_named_models n st : twice_named n st -> ~ NoDup (map name (models st)).
Proof.
  intros (l1 & r1 & l2 & r2 & l3 & m1 & m2 & Hr & H1 & H2 & N1 & N2) Hnodup.
  unfold models in Hnodup. rewrite Hr in Hnodup.
  rewrite omap_app, (omap_cons_Some _ r1 m1) in Hnodup by exact H1.
  rewrite omap_app, (omap_cons_Some _ r2 m2) in Hnodup by exact H2.
  rewrite map_app in Hnodup. apply NoDup_app in Hnodup as (_ & _ & Hnodup).
  cbn [map] in Hnodup. apply NoDup_cons in Hnodup as [Hnotin _].
  apply Hnotin. rewrite map_app. apply elem_of_app. right.
  cbn [map]. rewrite N1, N2. left.
Qed.

Lemma two_inline_fragments_twice_named rootObject onType nested1 nested2 a st frame' :
  forEach (visit rootObject)
    [INLINE_FRAGMENT (Some onType) nested1; INLINE_FRAGMENT (Some onType) nested2]
    (Some a, st) = Normal frame' ->
  twice_named (onType +:+ "InlineFragment") (snd frame').
Proof.
  cbn [forEach]. intros H.
  apply bind_Normal in H as ([a1 st1] & H1 & H).
  apply bind_Normal in H as ([a2 st2] & H2 & H). injection H as <-.
  apply visit_inline_fragment_pushes in H1 as (Ha1 & _ & (s1 & Hs1) & (m1 & Hm1 & N1)).
  cbn [fst snd] in *. subst a1.
  apply visit_inline_fragment_pushes in H2 as (_ & G2 & (s2 & Hs2) & (m2 & Hm2 & N2)).
  cbn [fst snd] in *.
  destruct (proj2 G2 _ _ Hm1) as (m1' & Hm1' & E1).
  exists (result st), (length (heap st)), s1, (length (heap st1)), s2, m1', m2.
  repeat split; try congruence.
  rewrite Hs2, Hs1, <- app_assoc. reflexivity.
Qed.

Lemma buildInnerModelsArray_two_inline_fragments
    rootObject alias fieldName field onType nested1 nested2 l :
  getFieldDef rootObject
    (FIELD alias fieldName
       (Some (SelectionSet [INLINE_FRAGMENT (Some onType) nested1;
                            INLINE_FRAGMENT (Some onType) nested2]))) = Some field ->
  type_kind (getNamedType (field_type field)) = OBJECT ->
  buildInnerModelsArray rootObject
    (Some (SelectionSet
             [FIELD alias fieldName
                (Some (SelectionSet [INLINE_FRAGMENT (Some onType) nested1;
                                     INLINE_FRAGMENT (Some onType) nested2]))]))
  = Normal l ->
  ~ NoDup (map name l).
Proof.
  intros Hfield Hkind.
  unfold inner_models_builder.buildInnerModelsArray,
    inner_models_builder.buildInnerModelsArray_on.
  rewrite call_eq. cbn [forEach].
  rewrite (visit_object_field _ _ _ _ _ _ field Hfield Hkind). cbn zeta.
  rewrite call_eq. intros H.
  apply bind_Normal in H as (st' & H & E). injection E as <-.
  apply bind_Normal in H as (frame & H & E). injection E as <-.
  apply bind_Normal in H as (frame1 & H & E). injection E as <-.
  apply bind_Normal in H as ([a3 st3] & H & E). injection E as <-.
  apply two_inline_fragments_twice_named in H. cbn [snd] in *.
  eapply twice_named_models. eapply twice_named_grows; [|exact H].
  eapply grows_trans; [eapply grows_alloc|].
  eapply grows_trans; [apply grows_push|]. apply grows_modify. reflexivity.
Qed.

Lemma omap_ext_Forall {A B} (f g : A -> option B) (l : list A) :
  Forall (fun x => f x = g x) l -> omap f l = omap g l.
Proof.
  induction 1 as [|x l Hx _ IH]; [reflexivity|].
  cbn [omap list_omap]. rewrite Hx. fold (omap f l) (omap g l). rewrite IH. reflexivity.
Qed.

(** *** The root call before its first object-typed field *)

Lemma visit_leaf_without_accumulator rootObject node st :
  leaf_field rootObject node = true ->
  visit rootObject node (None, st) = Throw (TypeError_read "fields").
Proof.
  destruct node as [alias fieldName ss| |]; cbn [leaf_field]; try discriminate.
  cbn [inner_models_builder.visit fst snd].
  destruct (getFieldDef _ _) as [field|]; [|discriminate].
  destruct (bool_decide _); [discriminate | reflexivity].
Qed.

Lemma visit_spread_without_accumulator rootObject node st :
  fragment_spread node = true ->
  visit rootObject node (None, st) = Throw (TypeError_read "fragmentsUsed").
Proof. destruct node; cbn [fragment_spread]; try discriminate. reflexivity. Qed.

Lemma visit_without_accumulator rootObject node st :
  object_field rootObject node = false ->
  exists prop, visit rootObject node (None, st) = Throw (TypeError_read prop).
Proof.
  destruct node as [alias fieldName ss|fragmentName|[onType|] nested];
    cbn [object_field inner_models_builder.visit fst snd]; intros H; eauto.
  destruct (getFieldDef _ _) as [field|]; [|eauto].
  rewrite H. eauto.
Qed.

Lemma buildInnerModelsArray_without_accumulator rootObject node rest :
  object_field rootObject node = false ->
  exists prop,
    buildInnerModelsArray rootObject (Some (SelectionSet (node :: rest)))
    = Throw (TypeError_read prop).
Proof.
  intros H. destruct (visit_without_accumulator rootObject node (mkStore [] []) H)
    as (prop & Hprop).
  exists prop. unfold inner_models_builder.buildInnerModelsArray,
    inner_models_builder.buildInnerModelsArray_on.
  rewrite call_eq. cbn [forEach]. rewrite Hprop. reflexivity.
Qed.

Lemma leaf_field_not_object rootObject node :
  leaf_field rootObject node || fragment_spread node = true ->
  object_field rootObject node = false.
Proof.
  destruct node as [alias fieldName ss| |]; cbn; try reflexivity.
  destruct (getFieldDef _ _); [|reflexivity].
  destruct (bool_decide _); [discriminate | reflexivity].
Qed.

Lemma visit_object_field_creates_Result rootObject alias fieldName ss st field frame' :
  getFieldDef rootObject (FIELD alias fieldName ss) = Some field ->
  type_kind (getNamedType (field_type field)) = OBJECT ->
  visit rootObject (FIELD alias fieldName ss) (None, st) = Normal frame' ->
  exists st3,
    grows st st3
    /\ fst frame' = Some (length (heap st3))
    /\ result (snd frame') = result st3 ++ [length (heap st3)]
    /\ heap (snd frame') !! length (heap st3)
       = Some (mkModel "Result"
                 [entry alias fieldName
                    (handleNameDuplications (pascalCase fieldName) (models st))
                    (field_type field)]
                 [] [] None None).
Proof.
  intros Hfield Hkind H.
  rewrite (visit_object_field _ _ _ _ _ _ field Hfield Hkind) in H. cbn zeta in H.
  apply bind_Normal in H as ([inner_appendTo st3] & Hinner & H). cbn [snd] in H.
  injection H as <-. exists st3. split; [|split; [reflexivity|split; [reflexivity|]]].
  - eapply grows_trans; [eapply grows_trans; [eapply grows_alloc | apply grows_push]|].
    destruct ss as [nested|].
    + apply (call_grows _ _ _ _ Hinner).
    + injection Hinner as _ <-. apply grows_refl.
  - cbn. rewrite list_lookup_alter_eq, lookup_app_r by reflexivity.
    rewrite Nat.sub_diag. reflexivity.
Qed.

(** *** Selections made of fragment spreads *)


(** *** What a call leaves alone *)

Lemma kept_refl except st : kept except st st.
Proof. split; [lia | reflexivity]. Qed.

Lemma kept_trans except except' st1 st2 st3 :
  kept except st1 st2 -> kept except' st2 st3 ->
  (except' = except \/ except' = None
   \/ exists r, except' = Some r /\ length (heap st1) <= r) ->
  kept except st1 st3.
Proof.
  intros [L1 H1] [L2 H2] He. split; [lia|].
  intros r Hr Hne. rewrite H2; [apply H1; assumption | lia |].
  destruct He as [->| [->| (r' & -> & Hr')]]; [exact Hne | discriminate |].
  intros [= ->]. lia.
Qed.

Lemma kept_alloc except m st : kept except st (snd (alloc m st)).
Proof.
  split; cbn; [rewrite length_app; lia|].
  intros r Hr _. apply lookup_app_l. exact Hr.
Qed.

Lemma kept_push except r st : kept except st (push r st).
Proof. split; cbn; [lia | reflexivity]. Qed.

Lemma kept_modify a f st : kept (Some a) st (modify a f st).
Proof.
  split; cbn; [rewrite length_alter; lia|].
  intros r _ Hne. apply list_lookup_alter_ne. congruence.
Qed.

Lemma forEach_kept rootObject l :
  Forall (fun node => forall rootObject frame frame',
              visit rootObject node frame = Normal frame' ->
              kept (fst frame) (snd frame) (snd frame')
              /\ match fst frame with
                 | Some a => fst frame' = Some a
                 | None => exists r, fst frame' = Some r /\ length (heap (snd frame)) <= r
                 end) l ->
  forall frame frame',
    forEach (visit rootObject) l frame = Normal frame' ->
    kept (fst frame) (snd frame) (snd frame')
    /\ match fst frame with
       | Some a => fst frame' = Some a
       | None =>
           fst frame' = None
           \/ exists r, fst frame' = Some r /\ length (heap (snd frame)) <= r
       end.
Proof.
  induction 1 as [|node rest Hnode _ IH]; intros frame frame'; cbn [forEach].
  - intros [= <-]. split; [apply kept_refl|]. destruct (fst frame); auto.
  - intros H. apply bind_Normal in H as (frame1 & H1 & H2).
    apply Hnode in H1 as [K1 A1]. apply IH in H2 as [K2 A2].
    destruct (fst frame) as [a|].
    + rewrite A1 in K2, A2. split; [|exact A2].
      eapply kept_trans; [exact K1 | exact K2 | left; reflexivity].
    + destruct A1 as (r & A1 & Hr). rewrite A1 in K2, A2. split.
      * eapply kept_trans; [exact K1 | exact K2 |]. right. right. eauto.
      * right. exists r. split; [exact A2 | exact Hr].
Qed.

Lemma visit_kept node : forall rootObject frame frame',
  visit rootObject node frame = Normal frame' ->
  kept (fst frame) (snd frame) (snd frame')
  /\ match fst frame with
     | Some a => fst frame' = Some a
     | None => exists r, fst frame' = Some r /\ length (heap (snd frame)) <= r
     end.
Proof.
  induction node
    as [alias fieldName selectionSet IHnested| |typeCondition selectionSet IHnode|l IHl]
    using SelectionNode_induction with
    (Q := fun nested => forall rootObject frame frame',
              call nested rootObject frame = Normal frame' ->
              kept (fst frame) (snd frame) (snd frame')
              /\ match fst frame with
                 | Some a => fst frame' = Some a
                 | None =>
                     fst frame' = None
                     \/ exists r, fst frame' = Some r /\ length (heap (snd frame)) <= r
                 end).
  - (* FIELD *)
    intros rootObject [appendTo st] frame'. cbn [fst snd].
    destruct (getFieldDef rootObject (FIELD alias fieldName selectionSet)) as [field|] eqn:Hfield.
    2:{ rewrite visit_unknown_field by exact Hfield. discriminate. }
    destruct (decide (type_kind (getNamedType (field_type field)) = OBJECT)) as [Hkind|Hkind].
    + rewrite (visit_object_field _ _ _ _ _ _ field Hfield Hkind). cbn zeta.
      set (model := length (heap st)).
      set (st2 := push model (snd (alloc _ st))).
      assert (K2 : kept appendTo st st2).
      { eapply kept_trans; [apply kept_alloc | apply kept_push | left; reflexivity]. }
      assert (L2 : length (heap st2) = S (length (heap st))).
      { subst st2. cbn. rewrite length_app. cbn. lia. }
      intros H. apply bind_Normal in H as ([inner_appendTo st3] & Hinner & H).
      assert (K3 : kept (Some model) st2 st3).
      { destruct selectionSet as [nested|].
        - apply (IHnested _ _ _ Hinner).
        - injection Hinner as _ <-. apply kept_refl. }
      assert (K : kept appendTo st st3).
      { eapply kept_trans; [exact K2 | exact K3 |]. right. right.
        exists model. split; [reflexivity | subst model; lia]. }
      cbn [snd] in H. destruct appendTo as [a|]; injection H as <-; cbn [fst snd].
      * split; [|reflexivity].
        eapply kept_trans; [exact K | apply kept_modify | left; reflexivity].
      * split.
        -- eapply kept_trans; [exact K| |].
           ++ eapply kept_trans;
                [eapply kept_trans;
                   [apply (kept_alloc None (emptyModel "Result")) | apply kept_push
                   | left; reflexivity]
                | apply kept_modify |].
              right. right. eexists. split; [reflexivity | lia].
           ++ right. left. reflexivity.
        -- eexists. split; [reflexivity|]. destruct K as [K _]. exact K.
    + cbn [inner_models_builder.visit fst snd]. rewrite Hfield.
      rewrite bool_decide_eq_false_2 by exact Hkind.
      destruct appendTo as [a|]; [|discriminate]. intros [= <-]. cbn [fst snd].
      split; [apply kept_modify | reflexivity].
  - (* FRAGMENT_SPREAD *)
    intros rootObject [[a|] st] frame'; cbn [inner_models_builder.visit fst snd];
      [|discriminate].
    intros [= <-]. cbn [fst snd]. split; [apply kept_modify | reflexivity].
  - (* INLINE_FRAGMENT *)
    intros rootObject [appendTo st] frame'.
    destruct typeCondition as [onType|]; [|discriminate].
    destruct appendTo as [a|]; [|discriminate].
    rewrite visit_inline_fragment. cbn zeta.
    intros H. apply bind_Normal in H as ([inner_appendTo st3] & Hinner & H).
    injection H as <-. cbn [fst snd]. split; [|reflexivity].
    apply IHnode in Hinner as [Kinner _]. cbn [fst snd] in Kinner.
    eapply kept_trans; [|exact Kinner|].
    + eapply kept_trans; [apply kept_alloc| |left; reflexivity].
      eapply kept_trans; [apply kept_modify | apply kept_push | left; reflexivity].
    + right. right. eexists. split; [reflexivity | lia].
  - (* a selection set *)
    intros rootObject frame frame'. rewrite call_eq. apply forEach_kept. assumption.
Qed.

Lemma loop_kept rootObject l frame frame' :
  forEach (visit rootObject) l frame = Normal frame' ->
  kept (fst frame) (snd frame) (snd frame')
  /\ match fst frame with
     | Some a => fst frame' = Some a
     | None =>
         fst frame' = None
         \/ exists r, fst frame' = Some r /\ length (heap (snd frame)) <= r
     end.
Proof.
  apply forEach_kept. apply Forall_forall. intros node _ ? ? ?. apply visit_kept.
Qed.

Lemma call_kept nested rootObject frame frame' :
  call nested rootObject frame = Normal frame' ->
  kept (fst frame) (snd frame) (snd frame')
  /\ match fst frame with
     | Some a => fst frame' = Some a
     | None =>
         fst frame' = None
         \/ exists r, fst frame' = Some r /\ length (heap (snd frame)) <= r
     end.
Proof. destruct nested as [l]. rewrite call_eq. apply loop_kept. Qed.

(** *** Invariants of the store *)

Lemma push_field_keeps e m :
  name (push_field e m) = name m /\ (flags_ok m -> flags_ok (push_field e m)).
Proof. split; [reflexivity|]. intros [H1 H2]. split; assumption. Qed.

Lemma use_fragment_keeps n m :
  name (use_fragment n m) = name m /\ (flags_ok m -> flags_ok (use_fragment n m)).
Proof.
  split; [reflexivity|]. intros [H1 H2]. split; [|exact H2].
  unfold use_fragment. cbn. destruct (fragmentsUsed m); reflexivity.
Qed.

Lemma add_inlineFragment_keeps i m :
  name (add_inlineFragment i m) = name m
  /\ (flags_ok m -> flags_ok (add_inlineFragment i m)).
Proof.
  split; [reflexivity|]. intros [H1 H2]. split; [exact H1|].
  unfold add_inlineFragment. cbn. destruct (inlineFragments m); reflexivity.
Qed.

Section invariant.

Variable Inv : Store -> Prop.
Hypothesis Inv_new : forall n st,
  Inv st -> Inv (push (length (heap st)) (snd (alloc (emptyModel n) st))).
Hypothesis Inv_modify : forall a f st,
  (forall m, name (f m) = name m /\ (flags_ok m -> flags_ok (f m))) ->
  Inv st -> Inv (modify a f st).

Lemma forEach_invariant_store rootObject l :
  Forall (fun node => forall rootObject frame frame',
              visit rootObject node frame = Normal frame' ->
              Inv (snd frame) -> Inv (snd frame')) l ->
  forall frame frame',
    forEach (visit rootObject) l frame = Normal frame' ->
    Inv (snd frame) -> Inv (snd frame').
Proof.
  induction 1 as [|node rest Hnode _ IH]; intros frame frame'; cbn [forEach].
  - intros [= <-]. auto.
  - intros H. apply bind_Normal in H as (frame1 & H1 & H2). eauto.
Qed.

Lemma visit_invariant node : forall rootObject frame frame',
  visit rootObject node frame = Normal frame' -> Inv (snd frame) -> Inv (snd frame').
Proof.
  induction node
    as [alias fieldName selectionSet IHnested| |typeCondition selectionSet IHnode|l IHl]
    using SelectionNode_induction with
    (Q := fun nested => forall rootObject frame frame',
              call nested rootObject frame = Normal frame' ->
              Inv (snd frame) -> Inv (snd frame')).
  - (* FIELD *)
    intros rootObject [appendTo st] frame'. cbn [fst snd].
    destruct (getFieldDef rootObject (FIELD alias fieldName selectionSet)) as [field|] eqn:Hfield.
    2:{ rewrite visit_unknown_field by exact Hfield. discriminate. }
    destruct (decide (type_kind (getNamedType (field_type field)) = OBJECT)) as [Hkind|Hkind].
    + rewrite (visit_object_field _ _ _ _ _ _ field Hfield Hkind). cbn zeta.
      intros H Hst. apply bind_Normal in H as ([inner_appendTo st3] & Hinner & H).
      assert (I3 : Inv st3).
      { destruct selectionSet as [nested|].
        - apply (IHnested _ _ _ Hinner). cbn [snd]. apply Inv_new. exact Hst.
        - injection Hinner as _ <-. apply Inv_new. exact Hst. }
      cbn [snd] in H. destruct appendTo as [a|]; injection H as <-; cbn [snd].
      * apply Inv_modify; [apply push_field_keeps | exact I3].
      * apply Inv_modify; [apply push_field_keeps | apply Inv_new; exact I3].
    + cbn [inner_models_builder.visit fst snd]. rewrite Hfield.
      rewrite bool_decide_eq_false_2 by exact Hkind.
      destruct appendTo as [a|]; [|discriminate]. intros [= <-] Hst. cbn [snd].
      apply Inv_modify; [apply push_field_keeps | exact Hst].
  - (* FRAGMENT_SPREAD *)
    intros rootObject [[a|] st] frame'; cbn [inner_models_builder.visit fst snd];
      [|discriminate].
    intros [= <-] Hst. apply Inv_modify; [apply use_fragment_keeps | exact Hst].
  - (* INLINE_FRAGMENT *)
    intros rootObject [appendTo st] frame'.
    destruct typeCondition as [onType|]; [|discriminate].
    destruct appendTo as [a|]; [|discriminate].
    rewrite visit_inline_fragment. cbn zeta.
    intros H Hst. apply bind_Normal in H as ([inner_appendTo st3] & Hinner & H).
    injection H as <-. cbn [snd]. apply (IHnode _ _ _ Hinner). cbn [snd].
    change (Inv (modify a (add_inlineFragment
                             (InlineFragment.mk (onType +:+ "InlineFragment") onType))
                   (push (length (heap st))
                      (snd (alloc (emptyModel (onType +:+ "InlineFragment")) st))))).
    apply Inv_modify; [apply add_inlineFragment_keeps | apply Inv_new; exact Hst].
  - (* a selection set *)
    intros rootObject frame frame'. rewrite call_eq.
    apply forEach_invariant_store. assumption.
Qed.

Lemma loop_invariant rootObject l frame frame' :
  forEach (visit rootObject) l frame = Normal frame' -> Inv (snd frame) -> Inv (snd frame').
Proof.
  apply forEach_invariant_store. apply Forall_forall. intros node _ ? ? ?.
  apply visit_invariant.
Qed.

End invariant.

Lemma loop_flags rootObject l frame frame' :
  forEach (visit rootObject) l frame = Normal frame' ->
  Forall flags_ok (heap (snd frame)) -> Forall flags_ok (heap (snd frame')).
Proof.
  apply (loop_invariant (fun st => Forall flags_ok (heap st))).
  - intros n st Hst. cbn. apply Forall_app. split; [exact Hst|].
    repeat constructor.
  - intros a f st Hf Hst. cbn. apply Forall_alter; [exact Hst|].
    intros m _. apply Hf.
Qed.

Lemma valid_new m st : valid st -> valid (push (length (heap st)) (snd (alloc m st))).
Proof.
  intros Hst. unfold valid in *. cbn. rewrite length_app. cbn.
  apply Forall_app. split.
  - eapply Forall_impl; [exact Hst|]. cbn. intros. lia.
  - repeat constructor. lia.
Qed.

Lemma valid_modify a f st : valid st -> valid (modify a f st).
Proof. intros Hst. unfold valid in *. cbn. rewrite length_alter. exact Hst. Qed.

Lemma visit_valid rootObject node frame frame' :
  visit rootObject node frame = Normal frame' -> valid (snd frame) -> valid (snd frame').
Proof.
  apply (visit_invariant valid).
  - intros. apply valid_new. assumption.
  - intros. apply valid_modify. assumption.
Qed.

Lemma loop_valid rootObject l frame frame' :
  forEach (visit rootObject) l frame = Normal frame' ->
  valid (snd frame) -> valid (snd frame').
Proof.
  apply (loop_invariant valid).
  - intros. apply valid_new. assumption.
  - intros. apply valid_modify. assumption.
Qed.

Lemma valid_models_length st : valid st -> length (models st) = length (result st).
Proof.
  unfold valid, models. induction 1 as [|r l Hr _ IH]; cbn; [reflexivity|].
  destruct (lookup_lt_is_Some_2 _ _ Hr) as [m ->]. cbn. rewrite IH. reflexivity.
Qed.

(** *** What a call records on its accumulator *)

Lemma omap_cons_app {A B} (f : A -> option B) x l :
  omap f (x :: l) = omap f [x] ++ omap f l.
Proof. cbn. destruct (f x); reflexivity. Qed.

Lemma records_nil m : records [] m m.
Proof. unfold records. cbn. rewrite !app_nil_r. auto. Qed.

Lemma records_cons node l m m1 m2 :
  records [node] m m1 -> records l m1 m2 -> records (node :: l) m m2.
Proof.
  unfold records, property_names, spread_names, type_conditions.
  intros (N1 & F1 & S1 & I1) (N2 & F2 & S2 & I2).
  rewrite (omap_cons_app _ node l), (omap_cons_app _ node l) at 1.
  split; [congruence|].
  rewrite F2, S2, I2, F1, S1, I1.
  rewrite (omap_cons_app _ node l).
  rewrite !map_app, <- !app_assoc. auto.
Qed.

Lemma visit_records node rootObject a st frame' m :
  visit rootObject node (Some a, st) = Normal frame' ->
  heap st !! a = Some m ->
  exists m', heap (snd frame') !! a = Some m' /\ records [node] m m'.
Proof.
  intros H Hm. pose proof (lookup_lt_Some _ _ _ Hm) as Ha.
  destruct node as [alias fieldName selectionSet|fragmentName|typeCondition nested].
  - destruct (getFieldDef rootObject (FIELD alias fieldName selectionSet)) as [field|] eqn:Hfield.
    2:{ rewrite visit_unknown_field in H by exact Hfield. discriminate. }
    assert (Hentry : forall type (m0 : Model),
               records [FIELD alias fieldName selectionSet] m0
                 (push_field (entry alias fieldName type (field_type field)) m0)).
    { intros type m0. unfold records, push_field, entry. cbn.
      rewrite map_app, !app_nil_r. cbn. destruct alias; auto. }
    destruct (decide (type_kind (getNamedType (field_type field)) = OBJECT)) as [Hkind|Hkind].
    + rewrite (visit_object_field _ _ _ _ _ _ field Hfield Hkind) in H. cbn zeta in H.
      apply bind_Normal in H as ([inner_appendTo st3] & Hinner & H).
      injection H as <-. cbn [snd].
      assert (H3 : heap st3 !! a = Some m).
      { assert (kept (Some (length (heap st)))
                  (push (length (heap st))
                     (snd (alloc (emptyModel
                                    (handleNameDuplications (pascalCase fieldName) (models st)))
                                 st)))
                  st3) as [_ K].
        { destruct selectionSet as [nested|].
          - apply (call_kept _ _ _ _ Hinner).
          - injection Hinner as _ <-. apply kept_refl. }
        rewrite K.
        - cbn. apply lookup_app_l_Some. exact Hm.
        - cbn. rewrite length_app. lia.
        - intros [= ->]. lia. }
      eexists. split; [|apply Hentry].
      cbn. rewrite list_lookup_alter_eq, H3. reflexivity.
    + cbn [inner_models_builder.visit fst snd] in H. rewrite Hfield in H.
      rewrite bool_decide_eq_false_2 in H by exact Hkind.
      injection H as <-. cbn [snd].
      eexists. split; [|apply Hentry].
      cbn. rewrite list_lookup_alter_eq, Hm. reflexivity.
  - cbn [inner_models_builder.visit fst snd] in H. injection H as <-. cbn [snd].
    eexists. split; [cbn; rewrite list_lookup_alter_eq, Hm; reflexivity|].
    unfold records, use_fragment. cbn. rewrite !app_nil_r. auto.
  - destruct typeCondition as [onType|]; [|discriminate].
    rewrite visit_inline_fragment in H. cbn zeta in H.
    apply bind_Normal in H as ([inner_appendTo st3] & Hinner & H).
    injection H as <-. cbn [snd].
    apply call_kept in Hinner as [[_ K] _]. cbn [fst snd] in K.
    eexists. split.
    + rewrite K.
      * cbn. rewrite list_lookup_alter_eq.
        rewrite (lookup_app_l_Some _ _ _ _ Hm). reflexivity.
      * cbn. rewrite length_alter, length_app. lia.
      * intros [= ->]. lia.
    + unfold records, add_inlineFragment. cbn. rewrite !app_nil_r. auto.
Qed.

Lemma loop_records rootObject l : forall a st frame' m,
  forEach (visit rootObject) l (Some a, st) = Normal frame' ->
  heap st !! a = Some m ->
  fst frame' = Some a
  /\ exists m', heap (snd frame') !! a = Some m' /\ records l m m'.
Proof.
  induction l as [|node rest IH]; intros a st frame' m; cbn [forEach].
  - intros [= <-] Hm. split; [reflexivity|]. exists m. split; [exact Hm|apply records_nil].
  - intros H Hm. apply bind_Normal in H as ([appendTo1 st1] & H1 & H2).
    pose proof (visit_kept _ _ _ _ H1) as [_ Ha]. cbn [fst] in Ha. subst appendTo1.
    destruct (visit_records _ _ _ _ _ _ H1 Hm) as (m1 & Hm1 & R1). cbn [snd] in Hm1.
    destruct (IH _ _ _ _ H2 Hm1) as (Hfst & m' & Hm' & R2).
    split; [exact Hfst|]. exists m'. split; [exact Hm'|].
    eapply records_cons; eassumption.
Qed.

(** *** The names in [result] *)

Lemma models_new m st :
  valid st -> models (push (length (heap st)) (snd (alloc m st))) = models st ++ [m].
Proof.
  intros Hst. unfold models. cbn. rewrite omap_app. f_equal.
  - apply omap_ext_Forall. eapply Forall_impl; [exact Hst|].
    intros r Hr. apply lookup_app_l. exact Hr.
  - cbn. rewrite lookup_app_r by reflexivity. rewrite Nat.sub_diag. reflexivity.
Qed.

Lemma names_modify a f st :
  (forall m, name (f m) = name m) ->
  map name (models (modify a f st)) = map name (models st).
Proof.
  intros Hf. unfold models, modify. cbn [heap result].
  induction (result st) as [|r l IH]; [reflexivity|].
  cbn [omap list_omap]. fold (omap (fun r => alter f a (heap st) !! r) l).
  fold (omap (fun r => heap st !! r) l).
  rewrite list_lookup_alter. destruct (decide (a = r)) as [->|Hne].
  - destruct (heap st !! r) as [m|]; cbn; rewrite ?Hf, IH; reflexivity.
  - destruct (heap st !! r) as [m|]; cbn; rewrite IH; reflexivity.
Qed.

Section unique.

Hypothesis handleNameDuplications_new : forall n existing,
  handleNameDuplications n existing ∉ map name existing.

Lemma forEach_unique rootObject l :
  Forall (fun node => forall rootObject a st frame',
              no_inline_fragments node = true ->
              visit rootObject node (Some a, st) = Normal frame' ->
              valid st ->
              NoDup (map name (models st)) ->
              NoDup (map name (models (snd frame')))) l ->
  forall a st frame',
    forallb no_inline_fragments l = true ->
    forEach (visit rootObject) l (Some a, st) = Normal frame' ->
    valid st ->
    NoDup (map name (models st)) ->
    NoDup (map name (models (snd frame'))).
Proof.
  induction 1 as [|node rest Hnode _ IH]; intros a st frame'; cbn [forEach forallb].
  - intros _ [= <-] _ Hst. exact Hst.
  - intros Hno H Hvalid Hst. apply andb_true_iff in Hno as [Hno1 Hno2].
    apply bind_Normal in H as ([appendTo1 st1] & H1 & H2).
    pose proof (visit_kept _ _ _ _ H1) as [_ Ha]. cbn [fst] in Ha. subst appendTo1.
    pose proof (visit_valid _ _ _ _ H1 Hvalid) as Hvalid1.
    eapply IH; eauto.
    apply (Hnode _ _ _ _ Hno1 H1 Hvalid Hst).
Qed.

Lemma visit_unique node : forall rootObject a st frame',
  no_inline_fragments node = true ->
  visit rootObject node (Some a, st) = Normal frame' ->
  valid st ->
  NoDup (map name (models st)) ->
  NoDup (map name (models (snd frame'))).
Proof.
  induction node
    as [alias fieldName selectionSet IHnested| |typeCondition selectionSet IHnode|l IHl]
    using SelectionNode_induction with
    (Q := fun nested => forall rootObject a st frame',
              no_inline_fragments_in nested = true ->
              call nested rootObject (Some a, st) = Normal frame' ->
              valid st ->
              NoDup (map name (models st)) ->
              NoDup (map name (models (snd frame')))).
  - (* FIELD *)
    intros rootObject a st frame' Hno.
    destruct (getFieldDef rootObject (FIELD alias fieldName selectionSet)) as [field|] eqn:Hfield.
    2:{ rewrite visit_unknown_field by exact Hfield. discriminate. }
    destruct (decide (type_kind (getNamedType (field_type field)) = OBJECT)) as [Hkind|Hkind].
    + rewrite (visit_object_field _ _ _ _ _ _ field Hfield Hkind). cbn zeta.
      intros H Hvalid Hst. apply bind_Normal in H as ([inner_appendTo st3] & Hinner & H).
      injection H as <-. cbn [snd]. rewrite names_modify by reflexivity.
      assert (NoDup (map name
                       (models (push (length (heap st))
                                  (snd (alloc (emptyModel
                                                 (handleNameDuplications
                                                    (pascalCase fieldName) (models st)))
                                              st)))))) as Hst2.
      { rewrite models_new by exact Hvalid. rewrite map_app. cbn.
        apply NoDup_app. split; [exact Hst|]. split; [|apply NoDup_singleton].
        intros x Hx Hin. apply list_elem_of_singleton in Hin. subst x.
        exact (handleNameDuplications_new _ _ Hx). }
      destruct selectionSet as [nested|].
      * apply (IHnested _ _ _ _ Hno Hinner); [apply valid_new; exact Hvalid | exact Hst2].
      * injection Hinner as _ <-. exact Hst2.
    + cbn [inner_models_builder.visit fst snd]. rewrite Hfield.
      rewrite bool_decide_eq_false_2 by exact Hkind.
      intros [= <-] _ Hst. cbn [snd]. rewrite names_modify by reflexivity. exact Hst.
  - (* FRAGMENT_SPREAD *)
    intros rootObject a st frame' _. cbn [inner_models_builder.visit fst snd].
    intros [= <-] _ Hst. cbn [snd]. rewrite names_modify by reflexivity. exact Hst.
  - (* INLINE_FRAGMENT *)
    intros rootObject a st frame' Hno. discriminate.
  - (* a selection set *)
    intros rootObject a st frame' Hno. rewrite call_eq. apply forEach_unique; assumption.
Qed.

End unique.

(** *** The number of models *)

Lemma model_count_in_eq rootObject l :
  model_count_in schema rootObject (SelectionSet l)
  = list_sum (map (model_count schema rootObject) l).
Proof. reflexivity. Qed.

Lemma forEach_count rootObject l :
  Forall (fun node => forall rootObject frame frame',
              visit rootObject node frame = Normal frame' ->
              length (result (snd frame'))
              = length (result (snd frame)) + model_count schema rootObject node
                + match fst frame with Some _ => 0 | None => 1 end) l ->
  forall frame frame',
    forEach (visit rootObject) l frame = Normal frame' ->
    length (result (snd frame'))
    = length (result (snd frame)) + list_sum (map (model_count schema rootObject) l)
      + match fst frame, fst frame' with None, Some _ => 1 | _, _ => 0 end.
Proof.
  induction 1 as [|node rest Hnode _ IH]; intros frame frame'; cbn [forEach map].
  - intros [= <-]. destruct (fst frame); cbn; lia.
  - intros H. apply bind_Normal in H as (frame1 & H1 & H2).
    pose proof (visit_kept _ _ _ _ H1) as [_ A1].
    pose proof (loop_kept _ _ _ _ H2) as [_ A2].
    apply Hnode in H1. apply IH in H2. rewrite H2, H1.
    destruct (fst frame) as [a|].
    + rewrite A1. unfold list_sum. cbn [fold_right]. lia.
    + destruct A1 as (r & A1 & _). rewrite A1 in A2 |- *. cbn beta iota in A2.
      rewrite A2. unfold list_sum. cbn [fold_right]. lia.
Qed.

Lemma visit_count node : forall rootObject frame frame',
  visit rootObject node frame = Normal frame' ->
  length (result (snd frame'))
  = length (result (snd frame)) + model_count schema rootObject node
    + match fst frame with Some _ => 0 | None => 1 end.
Proof.
  induction node
    as [alias fieldName selectionSet IHnested| |typeCondition selectionSet IHnode|l IHl]
    using SelectionNode_induction with
    (Q := fun nested => forall rootObject frame frame',
              call nested rootObject frame = Normal frame' ->
              length (result (snd frame'))
              = length (result (snd frame)) + model_count_in schema rootObject nested
                + match fst frame, fst frame' with None, Some _ => 1 | _, _ => 0 end).
  - (* FIELD *)
    intros rootObject [appendTo st] frame'. cbn [fst snd].
    destruct (getFieldDef rootObject (FIELD alias fieldName selectionSet)) as [field|] eqn:Hfield.
    2:{ rewrite visit_unknown_field by exact Hfield. discriminate. }
    destruct (decide (type_kind (getNamedType (field_type field)) = OBJECT)) as [Hkind|Hkind].
    + rewrite (visit_object_field _ _ _ _ _ _ field Hfield Hkind). cbn zeta.
      intros H. apply bind_Normal in H as ([inner_appendTo st3] & Hinner & H).
      assert (model_count schema rootObject (FIELD alias fieldName selectionSet)
              = S (match selectionSet with
                   | Some nested =>
                       model_count_in schema
                         (Some (Named (getNamedType (field_type field)))) nested
                   | None => 0
                   end)) as ->.
      { destruct selectionSet; cbn [model_count]; rewrite Hfield;
          rewrite bool_decide_eq_true_2 by exact Hkind; reflexivity. }
      assert (length (result st3)
              = length (result st) + 1
                + match selectionSet with
                  | Some nested =>
                      model_count_in schema
                        (Some (Named (getNamedType (field_type field)))) nested
                  | None => 0
                  end) as H3.
      { destruct selectionSet as [nested|].
        - pose proof (call_kept _ _ _ _ Hinner) as [_ A]. cbn [fst] in A.
          apply IHnested in Hinner. cbn [fst snd] in Hinner. rewrite Hinner.
          cbn. rewrite length_app. cbn. lia.
        - injection Hinner as _ <-. cbn. rewrite length_app. cbn. lia. }
      cbn [snd] in H. destruct appendTo as [a|]; injection H as <-; cbn [snd result modify push alloc].
      * lia.
      * rewrite length_app. cbn. lia.
    + cbn [inner_models_builder.visit fst snd]. rewrite Hfield.
      rewrite bool_decide_eq_false_2 by exact Hkind.
      destruct appendTo as [a|]; [|discriminate]. intros [= <-]. cbn [snd].
      assert (model_count schema rootObject (FIELD alias fieldName selectionSet) = 0) as ->.
      { destruct selectionSet; cbn [model_count]; rewrite Hfield;
          rewrite bool_decide_eq_false_2 by exact Hkind; reflexivity. }
      cbn. lia.
  - (* FRAGMENT_SPREAD *)
    intros rootObject [[a|] st] frame'; cbn [inner_models_builder.visit fst snd];
      [|discriminate].
    intros [= <-]. cbn. lia.
  - (* INLINE_FRAGMENT *)
    intros rootObject [appendTo st] frame'.
    destruct typeCondition as [onType|]; [|discriminate].
    destruct appendTo as [a|]; [|discriminate].
    rewrite visit_inline_fragment. cbn zeta.
    intros H. apply bind_Normal in H as ([inner_appendTo st3] & Hinner & H).
    injection H as <-. cbn [fst snd].
    apply IHnode in Hinner. cbn [fst snd] in Hinner. rewrite Hinner.
    assert (model_count schema rootObject (INLINE_FRAGMENT (Some onType) selectionSet)
            = S (model_count_in schema (typeFromAST schema onType) selectionSet)) as ->
      by (destruct selectionSet; reflexivity).
    cbn. rewrite length_app. cbn. lia.
  - (* a selection set *)
    intros rootObject frame frame'. rewrite call_eq, model_count_in_eq.
    apply forEach_count. assumption.
Qed.

Lemma loop_count rootObject l frame frame' :
  forEach (visit rootObject) l frame = Normal frame' ->
  length (result (snd frame'))
  = length (result (snd frame)) + list_sum (map (model_count schema rootObject) l)
    + match fst frame, fst frame' with None, Some _ => 1 | _, _ => 0 end.
Proof.
  apply forEach_count. apply Forall_forall. intros node _ ? ? ?. apply visit_count.
Qed.

End facts.

(** *** The disambiguator of the sample helpers *)

Lemma disambiguate_spec name existing fuel : forall n,
  sample.disambiguate fuel n name existing ∉ map inner_models_builder.name existing
  \/ (sample.disambiguate fuel n name existing = name +:+ pretty (n + fuel)
      /\ forall j, n <= j < n + fuel ->
                   name +:+ pretty j ∈ map inner_models_builder.name existing).
Proof.
  induction fuel as [|fuel IH]; intros n; cbn [sample.disambiguate].
  - right. split; [rewrite Nat.add_0_r; reflexivity|]. intros j Hj. lia.
  - unfold sample.taken. destruct (bool_decide _) eqn:E.
    + apply bool_decide_eq_true_1 in E.
      destruct (IH (S n)) as [Hnew | [Heq Hall]]; [left; exact Hnew|].
      right. split.
      * rewrite Heq. f_equal. f_equal. lia.
      * intros j Hj. destruct (decide (j = n)) as [->|Hne]; [exact E|].
        apply Hall. lia.
    + apply bool_decide_eq_false_1 in E. left. exact E.
Qed.

Lemma handleNameDuplications_new name existing :
  sample.handleNameDuplications_ name existing ∉ map inner_models_builder.name existing.
Proof.
  unfold sample.handleNameDuplications_, sample.taken.
  destruct (bool_decide _) eqn:E; [|apply bool_decide_eq_false_1 in E; exact E].
  destruct (disambiguate_spec name existing (length existing) 2) as [Hnew | [Heq Hall]];
    [exact Hnew|].
  rewrite Heq. intros Hin.
  assert (NoDup ((fun j => name +:+ pretty j) <$> seq 2 (S (length existing)))) as Hnodup.
  { apply NoDup_fmap_2; [|apply NoDup_seq].
    intros x y Hxy. apply String.app_inj in Hxy. apply pretty_nat_inj in Hxy. exact Hxy. }
  assert (forall x, x ∈ (fun j => name +:+ pretty j) <$> seq 2 (S (length existing)) ->
                    x ∈ map inner_models_builder.name existing) as Hsub.
  { intros x Hx. apply list_elem_of_fmap in Hx as (j & -> & Hj).
    apply elem_of_seq in Hj.
    destruct (decide (j = 2 + length existing)) as [->|Hne]; [exact Hin|].
    apply Hall. lia. }
  pose proof (submseteq_length _ _ (NoDup_submseteq _ _ Hnodup Hsub)) as Hlen.
  rewrite length_fmap, length_seq, length_map in Hlen. lia.
Qed.

End builder.

(** ** The properties of the specification *)

Import selection_set_to_object inner_models_builder.

(** C1, as the code has it.  A field (other than [__typename] and the
    meta fields of a root type) that an object or interface parent type
    does not define makes the read of [string] throw, through the read
    of [type] on the absent field definition; on a parent that is
    neither object nor interface the guard of [_collectField] skips the
    field without an error; and [buildInnerModelsArray] throws on a
    field for which [getFieldDef] yields nothing. *)
Theorem unknown_field_throws :
  (forall this parent pre alias name ss post,
      _selectionSet this = Some (SelectionSet (pre ++ FIELD alias name ss :: post)) ->
      _parentSchemaType this = Some parent ->
      type_kind parent = OBJECT \/ type_kind parent = INTERFACE ->
      name <> "__typename" ->
      isRootType parent (_schema this) && isMetadataFieldName name = false ->
      getFields (_schema this) parent !! name = None ->
      throws (get_string this))
  /\ (forall string_of this alias name ss,
      isObjectType (_parentSchemaType this)
        || isInterfaceType (_parentSchemaType this) = false ->
      name <> "__typename" ->
      _collectField string_of alias name ss this = Normal this)
  /\ (forall (utils : Utils) schema primitivesMap rootObject
             pre alias name ss post appendTo st,
      getFieldDef rootObject (FIELD alias name ss) = None ->
      throws (buildInnerModelsArray_on schema primitivesMap rootObject
                (Some (SelectionSet (pre ++ FIELD alias name ss :: post)))
                appendTo st)).
Proof.
  split; [|split].
  - apply collector.get_string_unknown_field.
  - intros. apply collector._collectField_skipped; assumption.
  - intros. apply builder.buildInnerModelsArray_on_unknown_field. assumption.
Qed.

Lemma unknown_field_throws_witness :
  throws (get_string (sample.collector false (Some sample.Person)
                        [sample.leaf "name"; sample.leaf "nme"]))
  /\ _collectField (fun _ => Normal "") None "name" None
       (sample.collector false (Some sample.Animal) [sample.leaf "name"])
     = Normal (sample.collector false (Some sample.Animal) [sample.leaf "name"])
  /\ throws (@buildInnerModelsArray_on sample.utils sample.schema tt
               (Some (Named sample.Person))
               (Some (SelectionSet ([sample.leaf "name"] ++ sample.leaf "nme" :: [])))
               (Some 0%nat) (mkStore [emptyModel "Person"] [0%nat])).
Proof.
  destruct unknown_field_throws as (Hclass & Hskip & Hbuild).
  split; [|split].
  - apply (Hclass _ sample.Person [sample.leaf "name"] None "nme" None []).
    + reflexivity.
    + reflexivity.
    + left. reflexivity.
    + discriminate.
    + reflexivity.
    + vm_compute. reflexivity.
  - apply Hskip; [reflexivity | discriminate].
  - apply Hbuild. vm_compute. reflexivity.
Defined.

(** C1 as stated fails: a field selected on a union parent has no field
    definition there, yet the collector neither throws nor records it. *)
Lemma unknown_field_on_union_is_skipped :
  getFields sample.schema sample.Animal !! "name" = None
  /\ get_string (sample.collector false (Some sample.Animal) [sample.leaf "name"])
     = Normal ("", sample.collector false (Some sample.Animal) [sample.leaf "name"]).
Proof. split; vm_compute; reflexivity. Qed.

(** C2, as the code has it.  In [buildInnerModelsArray] the entry
    recorded for a field of an object type carries, as its [type], the
    name under which the model of the sub-selection was pushed onto
    [result], and that model is in [result] after the step: a reference
    by name.  In [SelectionSetToObject] the descriptor pushed for a link
    field carries the text that the nested collector returns, wrapped by
    [wrapTypeWithModifiers]: the body itself. *)
Theorem link_field_reference :
  (forall (utils : Utils) schema primitivesMap rootObject
          alias fieldName ss appendTo st field frame',
      getFieldDef rootObject (FIELD alias fieldName ss) = Some field ->
      type_kind (getNamedType (field_type field)) = OBJECT ->
      (forall a, appendTo = Some a -> is_Some (heap st !! a)) ->
      visit schema primitivesMap rootObject (FIELD alias fieldName ss) (appendTo, st)
      = Normal frame' ->
      let modelName := handleNameDuplications (pascalCase fieldName) (models st) in
      exists a accumulator model,
        fst frame' = Some a
        /\ heap (snd frame') !! a = Some accumulator
        /\ last (fields accumulator)
           = Some (entry alias fieldName modelName (field_type field))
        /\ model ∈ models (snd frame')
        /\ name model = modelName)
  /\ (forall string_of alias name ss this this' parent schemaField,
      name <> "__typename" ->
      _parentSchemaType this = Some parent ->
      type_kind parent = OBJECT \/ type_kind parent = INTERFACE ->
      (if isRootType parent (_schema this) && isMetadataFieldName name
       then metadataFieldMap name
       else getFields (_schema this) parent !! name) = Some schemaField ->
      scalars_has (_scalars this) (type_name (getBaseType (field_type schemaField)))
      || isEnumType (Some (getBaseType (field_type schemaField)))
      || isScalarType (Some (getBaseType (field_type schemaField))) = false ->
      _collectField string_of alias name ss this = Normal this' ->
      exists text,
        string_of (createNext this (Some (getBaseType (field_type schemaField))) ss)
        = Normal text
        /\ _linksFields this'
           = _linksFields this
             ++ [LinkField.mk alias name
                   (type_name (getBaseType (field_type schemaField)))
                   (wrapTypeWithModifiers (class_of this) text
                      (field_type schemaField))]).
Proof.
  split.
  - intros. eapply builder.visit_object_field_entry; eassumption.
  - intros. eapply collector._collectField_link; eassumption.
Qed.

Lemma link_field_reference_witness :
  (exists a accumulator model,
      Some 1%nat = Some a
      /\ [emptyModel "Person";
          mkModel "Result" [Field.mk "person" "Person" false false] [] [] None None]
           !! a = Some accumulator
      /\ last (fields accumulator) = Some (Field.mk "person" "Person" false false)
      /\ model ∈ [emptyModel "Person";
                  mkModel "Result" [Field.mk "person" "Person" false false]
                          [] [] None None]
      /\ name model = "Person")
  /\ (exists text,
      Normal "Pick<Person, 'name'>" = Normal text
      /\ [LinkField.mk None "person" "Person" "Maybe<Pick<Person, 'name'>>"]
         = [] ++ [LinkField.mk None "person" "Person"
                    (sample.wrap text (Named sample.Person) true)]).
Proof.
  destruct link_field_reference as [Hbuilder Hclass]. split.
  - assert (H1 : @getFieldDef sample.utils (Some (Named sample.Query))
                   (FIELD None "person" (Some (SelectionSet [])))
                 = Some (mkField (Named sample.Person)))
      by (vm_compute; reflexivity).
    assert (H3 : forall a : nat, @None nat = Some a ->
                   is_Some (heap (mkStore [] []) !! a)) by discriminate.
    assert (H4 : @visit sample.utils sample.schema tt (Some (Named sample.Query))
                   (FIELD None "person" (Some (SelectionSet []))) (None, mkStore [] [])
                 = Normal (Some 1%nat,
                           mkStore [emptyModel "Person";
                                    mkModel "Result"
                                      [Field.mk "person" "Person" false false]
                                      [] [] None None] [0%nat; 1%nat]))
      by (vm_compute; reflexivity).
    exact (Hbuilder sample.utils sample.schema tt _ _ _ _ _ _ _ _ H1 eq_refl H3 H4).
  - assert (H4 : (if isRootType sample.Query sample.schema && isMetadataFieldName "person"
                  then metadataFieldMap "person"
                  else getFields sample.schema sample.Query !! "person")
                 = Some (mkField (Named sample.Person)))
      by (vm_compute; reflexivity).
    assert (H1 : "person" <> "__typename") by discriminate.
    exact (Hclass (fun _ => Normal "Pick<Person, 'name'>") None "person"
             (Some (SelectionSet [sample.leaf "name"]))
             (sample.collector false (Some sample.Query) [])
             (set_linksFields
                [LinkField.mk None "person" "Person" "Maybe<Pick<Person, 'name'>>"]
                (sample.collector false (Some sample.Query) []))
             sample.Query (mkField (Named sample.Person))
             H1 eq_refl (or_introl eq_refl) H4 eq_refl eq_refl).
Defined.

(** C2 as stated fails: the record for the link field [person] holds the
    body of the sub-selection [{ name }], not the name of a declaration. *)
Lemma link_field_embeds_the_body :
  sample.text_of (sample.collector false (Some sample.Person) [sample.leaf "name"])
  = Normal "Pick<Person, 'name'>"
  /\ sample.text_of (sample.collector false (Some sample.Query)
                       [sample.link "person" [sample.leaf "name"]])
     = Normal "{ person: Maybe<Pick<Person, 'name'>> }".
Proof. split; vm_compute; reflexivity. Qed.

(** C3 fails on the code.  Whatever the helpers do, a call that returns
    on a document of the shape
    [{ cat { ... on Cat { meow } ... on Cat { purr } } }] returns an
    array in which two models share a name: the model of an inline
    fragment is pushed as the type condition followed by
    [InlineFragment], without a look at the names already in [result]. *)
Theorem inline_fragment_models_share_a_name (utils : Utils) schema primitivesMap
    rootObject alias fieldName field onType nested1 nested2 returned :
  getFieldDef rootObject
    (FIELD alias fieldName
       (Some (SelectionSet [INLINE_FRAGMENT (Some onType) nested1;
                            INLINE_FRAGMENT (Some onType) nested2]))) = Some field ->
  type_kind (getNamedType (field_type field)) = OBJECT ->
  buildInnerModelsArray schema primitivesMap rootObject
    (Some (SelectionSet
             [FIELD alias fieldName
                (Some (SelectionSet [INLINE_FRAGMENT (Some onType) nested1;
                                     INLINE_FRAGMENT (Some onType) nested2]))]))
  = Normal returned ->
  ~ NoDup (map name returned).
Proof. apply builder.buildInnerModelsArray_two_inline_fragments. Qed.

Lemma inline_fragment_models_share_a_name_witness :
  exists returned,
    sample.build sample.Query
      [sample.link "cat" [sample.on "Cat" [sample.leaf "meow"];
                          sample.on "Cat" [sample.leaf "purr"]]]
    = Normal returned
    /\ map name returned = ["Cat"; "CatInlineFragment"; "CatInlineFragment"; "Result"]
    /\ ~ NoDup (map name returned).
Proof.
  destruct (sample.build sample.Query
              [sample.link "cat" [sample.on "Cat" [sample.leaf "meow"];
                                  sample.on "Cat" [sample.leaf "purr"]]])
    as [returned|e] eqn:E.
  - exists returned. split; [reflexivity|]. split.
    + vm_compute in E. injection E as <-. reflexivity.
    + apply (inline_fragment_models_share_a_name sample.utils sample.schema tt
               (Some (Named sample.Query)) None "cat" (mkField (Named sample.Cat)) "Cat"
               (SelectionSet [sample.leaf "meow"]) (SelectionSet [sample.leaf "purr"]));
        [vm_compute; reflexivity | reflexivity | exact E].
  - vm_compute in E. discriminate E.
Defined.







(** C6.  The text of a first read of a selection set that is not
    empty, when the loop over the selections returns: for a union or
    interface parent the text has no typename record and is merged from
    the other parts alone; otherwise the record [{ __typename: 'T' }]
    is its first part when [__typename] is among the selected fields,
    the record [{ __typename?: 'T' }] when it is not and typename
    injection is on, and there is no record when neither holds. *)
Theorem typename_defaulting this selections this' parent :
  _parentSchemaType this = Some parent ->
  _selectionSet this = Some (SelectionSet selections) ->
  selections <> [] ->
  _queriedForTypename this = false ->
  forEach collect selections this = Normal this' ->
  let explicit := existsb selects_typename selections in
  let record (mark : string) :=
    "{ " +:+ formatNamedField (class_of this) "__typename" +:+ mark +:+ ": "
         +:+ ("'" +:+ type_name parent +:+ "'") +:+ " }" in
  let parentName :=
    _convertName this' (type_name parent) (mkConvertOptions (Some true) None) in
  let rest :=
    filter_truthy
      [buildPrimitiveFields parentName (_primitiveFields this');
       buildAliasedPrimitiveFields this' parentName (_primitiveAliasedFields this');
       buildLinkFields this' (_linksFields this');
       buildFragmentSpread this' (_fragmentSpreads this');
       buildInlineFragments (_inlineFragments this')] in
  get_string this
  = Normal
      (mergeAllFields
         (if bool_decide (type_kind parent = UNION)
             || bool_decide (type_kind parent = INTERFACE) then rest
          else if explicit then record "" :: rest
          else if _addTypename this then record "?" :: rest
          else rest),
       this').
Proof.
  intros Hparent Hsel Hne Hfresh Hloop explicit record parentName rest.
  pose proof (collector.forEach_collect_queriedForTypename _ _ _ Hloop) as Hq.
  rewrite Hfresh in Hq. cbn [orb] in Hq. fold explicit in Hq.
  destruct (collector.forEach_collect_config _ _ _ Hloop)
    as (Hclass & _ & _ & _ & Hadd & Hp & _).
  rewrite (collector.get_string_loop _ _ _ Hsel Hne Hloop).
  unfold fieldsSet. rewrite Hp, Hparent.
  unfold typeNameField, buildTypeNameField. rewrite Hq, Hadd, Hp, Hparent, Hclass.
  cbn [isUnionType isInterfaceType]. fold parentName.
  subst rest record.
  destruct (bool_decide (type_kind parent = UNION));
    destruct (bool_decide (type_kind parent = INTERFACE));
    destruct explicit; destruct (_addTypename this); reflexivity.
Qed.

Lemma typename_defaulting_witness :
  get_string (sample.collector true (Some sample.Person) [sample.leaf "name"])
  = Normal ("({ __typename?: 'Person' } & Pick<Person, 'name'>)",
            extend (sample.collector true (Some sample.Person) [sample.leaf "name"])
                   (mkDelta ["name"] [] [] [] [] false))
  /\ get_string
       (sample.collector false (Some sample.Person)
          [sample.leaf "__typename"; sample.leaf "name"])
     = Normal ("({ __typename: 'Person' } & Pick<Person, 'name'>)",
               extend (sample.collector false (Some sample.Person)
                         [sample.leaf "__typename"; sample.leaf "name"])
                      (mkDelta ["name"] [] [] [] [] true))
  /\ get_string
       (sample.collector true (Some sample.Animal)
          [sample.leaf "__typename"; FRAGMENT_SPREAD "pet"])
     = Normal ("petFragment",
               extend (sample.collector true (Some sample.Animal)
                         [sample.leaf "__typename"; FRAGMENT_SPREAD "pet"])
                      (mkDelta [] [] [] ["pet"] [] true))
  /\ get_string (sample.collector false (Some sample.Person) [sample.leaf "name"])
     = Normal ("Pick<Person, 'name'>",
               extend (sample.collector false (Some sample.Person) [sample.leaf "name"])
                      (mkDelta ["name"] [] [] [] [] false)).
Proof.
  split; [|split; [|split]].
  - apply (typename_defaulting
             (sample.collector true (Some sample.Person) [sample.leaf "name"])
             [sample.leaf "name"]
             (extend (sample.collector true (Some sample.Person) [sample.leaf "name"])
                     (mkDelta ["name"] [] [] [] [] false))
             sample.Person);
      [reflexivity | reflexivity | discriminate | reflexivity | vm_compute; reflexivity].
  - apply (typename_defaulting
             (sample.collector false (Some sample.Person)
                [sample.leaf "__typename"; sample.leaf "name"])
             [sample.leaf "__typename"; sample.leaf "name"]
             (extend (sample.collector false (Some sample.Person)
                        [sample.leaf "__typename"; sample.leaf "name"])
                     (mkDelta ["name"] [] [] [] [] true))
             sample.Person);
      [reflexivity | reflexivity | discriminate | reflexivity | vm_compute; reflexivity].
  - apply (typename_defaulting
             (sample.collector true (Some sample.Animal)
                [sample.leaf "__typename"; FRAGMENT_SPREAD "pet"])
             [sample.leaf "__typename"; FRAGMENT_SPREAD "pet"]
             (extend (sample.collector true (Some sample.Animal)
                        [sample.leaf "__typename"; FRAGMENT_SPREAD "pet"])
                     (mkDelta [] [] [] ["pet"] [] true))
             sample.Animal);
      [reflexivity | reflexivity | discriminate | reflexivity | vm_compute; reflexivity].
  - apply (typename_defaulting
             (sample.collector false (Some sample.Person) [sample.leaf "name"])
             [sample.leaf "name"]
             (extend (sample.collector false (Some sample.Person) [sample.leaf "name"])
                     (mkDelta ["name"] [] [] [] [] false))
             sample.Person);
      [reflexivity | reflexivity | discriminate | reflexivity | vm_compute; reflexivity].
Defined.

(** C8.  For an absent selection set and for one without selections the
    read of [string] returns the empty text and leaves the instance as
    it is, and [buildInnerModelsArray] returns [result] as it is, the
    empty array on a call without one; neither throws. *)
Theorem empty_selection_no_body (selections : option SelectionSetNode) :
  selections = None \/ selections = Some (SelectionSet []) ->
  (forall this, _selectionSet this = selections -> get_string this = Normal ("", this))
  /\ (forall (utils : Utils) schema primitivesMap rootObject appendTo st,
        buildInnerModelsArray_on schema primitivesMap rootObject selections appendTo st
        = Normal st)
  /\ (forall (utils : Utils) schema primitivesMap rootObject,
        buildInnerModelsArray schema primitivesMap rootObject selections = Normal []).
Proof.
  intros [-> | ->]; (split; [|split]); try reflexivity;
    intros this H; unfold get_string; rewrite H; reflexivity.
Qed.

Lemma empty_selection_no_body_witness :
  get_string (sample.collector true (Some sample.Person) [])
  = Normal ("", sample.collector true (Some sample.Person) [])
  /\ sample.build sample.Query [] = Normal [].
Proof.
  destruct (empty_selection_no_body (Some (SelectionSet []))) as (Hclass & _ & Hbuild).
  - right. reflexivity.
  - split; [apply Hclass; reflexivity | apply Hbuild].
Defined.

(** C9, as the code has it.  A second read of the instance returns
    whenever the first did, and leaves every accumulator with the
    entries of the first read twice: the four lists are the lists of
    the first read repeated, every type condition holds its bodies
    twice, the typename flag is as before.  The text is built from
    these accumulators; it is the text of the first read when the first
    read recorded nothing. *)
Theorem second_read_recollects this text this1 :
  fresh_instance this ->
  get_string this = Normal (text, this1) ->
  exists text2 this2,
    get_string this1 = Normal (text2, this2)
    /\ _primitiveFields this2 = _primitiveFields this1 ++ _primitiveFields this1
    /\ _primitiveAliasedFields this2
       = _primitiveAliasedFields this1 ++ _primitiveAliasedFields this1
    /\ _linksFields this2 = _linksFields this1 ++ _linksFields this1
    /\ _fragmentSpreads this2 = _fragmentSpreads this1 ++ _fragmentSpreads this1
    /\ (forall onType,
          bodies_of (_inlineFragments this2) onType
          = bodies_of (_inlineFragments this1) onType
            ++ bodies_of (_inlineFragments this1) onType)
    /\ _queriedForTypename this2 = _queriedForTypename this1
    /\ (_primitiveFields this1 = [] -> _primitiveAliasedFields this1 = [] ->
        _linksFields this1 = [] -> _fragmentSpreads this1 = [] ->
        _inlineFragments this1 = [] -> text2 = text).
Proof.
  intros (F1 & F2 & F3 & F4 & F5 & F6) H.
  assert (Hsame : forall x : SelectionSetToObject,
             get_string x = Normal ("", x) ->
             fresh_instance x ->
             exists text2 this2,
               get_string x = Normal (text2, this2)
               /\ _primitiveFields this2 = _primitiveFields x ++ _primitiveFields x
               /\ _primitiveAliasedFields this2
                  = _primitiveAliasedFields x ++ _primitiveAliasedFields x
               /\ _linksFields this2 = _linksFields x ++ _linksFields x
               /\ _fragmentSpreads this2 = _fragmentSpreads x ++ _fragmentSpreads x
               /\ (forall onType,
                     bodies_of (_inlineFragments this2) onType
                     = bodies_of (_inlineFragments x) onType
                       ++ bodies_of (_inlineFragments x) onType)
               /\ _queriedForTypename this2 = _queriedForTypename x
               /\ (_primitiveFields x = [] -> _primitiveAliasedFields x = [] ->
                   _linksFields x = [] -> _fragmentSpreads x = [] ->
                   _inlineFragments x = [] -> text2 = "")).
  { intros x Hx (G1 & G2 & G3 & G4 & G5 & G6). exists "", x.
    rewrite G1, G2, G3, G4, G5. repeat split; auto. }
  rewrite collector.get_string_eq in H.
  destruct (_selectionSet this) as [[selections]|] eqn:Hsel.
  2:{ injection H as <- <-. apply Hsame; [|repeat split; assumption].
      unfold get_string. rewrite Hsel. reflexivity. }
  destruct (length selections =? 0)%nat eqn:Hlen.
  { injection H as <- <-. apply Hsame; [|repeat split; assumption].
    rewrite collector.get_string_eq, Hsel, Hlen. reflexivity. }
  clear Hsame.
  apply bind_Normal in H as (this1' & Hloop & H).
  apply bind_Normal in H as (parts & Hparts & H). injection H as <- ->.
  pose proof (collector.forEach_collect_config _ _ _ Hloop) as Hcfg.
  destruct (collector.forEach_collect_uniform selections this this1 this1 Hcfg)
    as (d & Hd & Hloop2); [rewrite F5; constructor | exact Hloop |].
  destruct (collector.fieldsSet_parent _ _ Hparts) as (parent & Hparent).
  destruct (collector.fieldsSet_returns (extend this1 d) parent Hparent)
    as (parts2 & Hparts2).
  exists (mergeAllFields parts2), (extend this1 d).
  assert (Hread : get_string this1
                  = Normal (mergeAllFields parts2, extend this1 d)).
  { rewrite collector.get_string_eq.
    destruct Hcfg as (_ & _ & _ & _ & _ & _ & ->). rewrite Hsel, Hlen, Hloop2.
    cbn [bind]. rewrite Hparts2. reflexivity. }
  split; [exact Hread|].
  assert (E1 : _primitiveFields this1 = d_primitives d)
    by (rewrite Hd; cbn; rewrite F1; reflexivity).
  assert (E2 : _primitiveAliasedFields this1 = d_aliased d)
    by (rewrite Hd; cbn; rewrite F2; reflexivity).
  assert (E3 : _linksFields this1 = d_links d)
    by (rewrite Hd; cbn; rewrite F3; reflexivity).
  assert (E4 : _fragmentSpreads this1 = d_spreads d)
    by (rewrite Hd; cbn; rewrite F4; reflexivity).
  assert (E5 : _inlineFragments this1
               = fold_left push_branch (d_branches d) [])
    by (rewrite Hd; cbn; rewrite F5; reflexivity).
  assert (E6 : _queriedForTypename this1 = d_typename d)
    by (rewrite Hd; cbn; rewrite F6; reflexivity).
  cbn [extend _primitiveFields _primitiveAliasedFields _linksFields
       _fragmentSpreads _inlineFragments _queriedForTypename].
  rewrite <- E1, <- E2, <- E3, <- E4, <- E6, orb_diag.
  repeat (split; [reflexivity|]). split; [|split; [reflexivity|]].
  - intros onType. rewrite collector.bodies_of_branches. f_equal.
    rewrite E5, collector.bodies_of_branches. reflexivity.
  - intros N1 N2 N3 N4 N5.
    assert (Hsame : extend this1 d = this1).
    { rewrite N5 in E5. symmetry in E5. apply collector.branches_empty in E5.
      unfold extend. rewrite <- E1, <- E2, <- E3, <- E4, <- E6, E5, orb_diag.
      rewrite N1, N2, N3, N4. cbn. rewrite <- N1 at 1. rewrite <- N2 at 1.
      rewrite <- N3 at 1. rewrite <- N4 at 1. destruct this1; reflexivity. }
    rewrite Hsame in Hparts2. congruence.
Qed.

Lemma second_read_recollects_witness :
  exists text2 this2,
    get_string (set_primitiveFields ["name"]
                  (sample.collector false (Some sample.Person) [sample.leaf "name"]))
    = Normal (text2, this2)
    /\ _primitiveFields this2 = ["name"] ++ ["name"].
Proof.
  destruct (second_read_recollects
              (sample.collector false (Some sample.Person) [sample.leaf "name"])
              "Pick<Person, 'name'>"
              (set_primitiveFields ["name"]
                 (sample.collector false (Some sample.Person) [sample.leaf "name"])))
    as (text2 & this2 & Hread & Hprimitives & _).
  - repeat split.
  - vm_compute. reflexivity.
  - exists text2, this2. split; [exact Hread | exact Hprimitives].
Defined.

(** C9 as stated fails: the second read of [{ name }] on [Person]
    names the field twice. *)
Lemma second_read_differs :
  sample.read_twice (sample.collector false (Some sample.Person) [sample.leaf "name"])
  = Normal ("Pick<Person, 'name'>", "Pick<Person, 'name' | 'name'>").
Proof. vm_compute. reflexivity. Qed.

(** C10.  On a call without [appendTo], a selection set whose first
    object-typed field comes after a leaf field or a fragment spread
    throws: the first selection that is no object-typed field reads a
    member of the accumulator that is still [undefined] (or of an absent
    field definition or type condition); at the head of the selection
    set a leaf field throws on the read of [fields], a fragment spread
    on the read of [fragmentsUsed].  The model [Result] is created by
    the step on an object-typed field that finds no accumulator: it is
    allocated and pushed after the models of the field's sub-selection,
    and holds the field's entry. *)
Theorem root_accumulator_undefined (utils : Utils) schema primitivesMap rootObject :
  (forall pre node post,
      Forall (fun x => object_field rootObject x = false) pre ->
      leaf_field rootObject node || fragment_spread node = true ->
      exists prop,
        buildInnerModelsArray schema primitivesMap rootObject
          (Some (SelectionSet (pre ++ node :: post)))
        = Throw (TypeError_read prop))
  /\ (forall node post,
      leaf_field rootObject node = true ->
      buildInnerModelsArray schema primitivesMap rootObject
        (Some (SelectionSet (node :: post)))
      = Throw (TypeError_read "fields"))
  /\ (forall node post,
      fragment_spread node = true ->
      buildInnerModelsArray schema primitivesMap rootObject
        (Some (SelectionSet (node :: post)))
      = Throw (TypeError_read "fragmentsUsed"))
  /\ (forall alias fieldName ss st field frame',
      getFieldDef rootObject (FIELD alias fieldName ss) = Some field ->
      type_kind (getNamedType (field_type field)) = OBJECT ->
      visit schema primitivesMap rootObject (FIELD alias fieldName ss) (None, st)
      = Normal frame' ->
      exists st3,
        grows st st3
        /\ fst frame' = Some (length (heap st3))
        /\ result (snd frame') = result st3 ++ [length (heap st3)]
        /\ heap (snd frame') !! length (heap st3)
           = Some (mkModel "Result"
                     [entry alias fieldName
                        (handleNameDuplications (pascalCase fieldName) (models st))
                        (field_type field)]
                     [] [] None None)).
Proof.
  split; [|split; [|split]].
  - intros pre node post Hpre Hnode.
    apply builder.leaf_field_not_object in Hnode.
    destruct pre as [|x pre]; cbn [app].
    + apply builder.buildInnerModelsArray_without_accumulator. exact Hnode.
    + apply builder.buildInnerModelsArray_without_accumulator.
      inversion Hpre; assumption.
  - intros node post Hnode.
    unfold buildInnerModelsArray, buildInnerModelsArray_on.
    rewrite builder.call_eq. cbn [forEach].
    rewrite builder.visit_leaf_without_accumulator by exact Hnode. reflexivity.
  - intros node post Hnode.
    unfold buildInnerModelsArray, buildInnerModelsArray_on.
    rewrite builder.call_eq. cbn [forEach].
    rewrite builder.visit_spread_without_accumulator by exact Hnode. reflexivity.
  - intros. eapply builder.visit_object_field_creates_Result; eassumption.
Qed.

Lemma root_accumulator_undefined_witness :
  (exists prop,
      sample.build sample.Person
        ([FRAGMENT_SPREAD "PersonParts"] ++ sample.leaf "name"
           :: [sample.link "friend" [sample.leaf "name"]])
      = Throw (TypeError_read prop))
  /\ sample.build sample.Person [sample.leaf "name"; sample.link "friend" []]
     = Throw (TypeError_read "fields")
  /\ sample.build sample.Query [FRAGMENT_SPREAD "QueryParts"]
     = Throw (TypeError_read "fragmentsUsed")
  /\ exists st3,
      grows (mkStore [] []) st3
      /\ Some 1%nat = Some (length (heap st3))
      /\ [0%nat; 1%nat] = result st3 ++ [length (heap st3)]
      /\ [emptyModel "Person";
          mkModel "Result" [Field.mk "person" "Person" false false] [] [] None None]
           !! length (heap st3)
         = Some (mkModel "Result" [Field.mk "person" "Person" false false]
                         [] [] None None).
Proof.
  destruct (root_accumulator_undefined sample.utils sample.schema tt
              (Some (Named sample.Query))) as (_ & _ & Hspread & Hresult).
  destruct (root_accumulator_undefined sample.utils sample.schema tt
              (Some (Named sample.Person))) as (Hfirst & Hleaf & _).
  split; [|split; [|split]].
  - apply (Hfirst [FRAGMENT_SPREAD "PersonParts"] (sample.leaf "name")
             [sample.link "friend" [sample.leaf "name"]]);
      [repeat constructor | vm_compute; reflexivity].
  - apply Hleaf. vm_compute. reflexivity.
  - apply Hspread. reflexivity.
  - apply (Hresult None "person" (Some (SelectionSet [])) (mkStore [] [])
             (mkField (Named sample.Person))
             (Some 1%nat,
              mkStore [emptyModel "Person";
                       mkModel "Result" [Field.mk "person" "Person" false false]
                               [] [] None None] [0%nat; 1%nat])).
    + vm_compute. reflexivity.
    + reflexivity.
    + vm_compute. reflexivity.
Defined.

(** ** Further properties of the code *)

(** *** The selection collector *)

(** X1. Leaf projection.  A first read of a selection set made of
    un-aliased fields of the parent type, all of a leaf type (a
    configured scalar, an enum or a scalar), returns the typename part,
    if there is one, merged with [Pick<Parent, 'a' | 'b' ...>], the
    field names in document order; whatever is selected under such a
    field is ignored. *)
Theorem leaf_fields_pick this parent selections typeName :
  fresh_instance this ->
  _parentSchemaType this = Some parent ->
  _selectionSet this = Some (SelectionSet selections) ->
  selections <> [] ->
  Forall (fun s => leaf_selection this s = true /\ aliased s = false) selections ->
  typeNameField this = Normal typeName ->
  exists this',
    get_string this
    = Normal
        (mergeAllFields
           (filter_truthy
              [typeName;
               Some ("Pick<"
                     +:+ _convertName this (type_name parent) (mkConvertOptions (Some true) None)
                     +:+ ", "
                     +:+ join " | " (map (fun s => "'" +:+ name_of s +:+ "'") selections)
                     +:+ ">")]),
         this')
    /\ _primitiveFields this' = map name_of selections.
Proof.
  intros (Hp & Ha & Hl & Hs & Hi & Hq) Hparent Hsel Hne Hall Htn.
  assert (Forall (fun s => leaf_selection this s = true) selections) as Hleaf
    by (eapply Forall_impl; [exact Hall|]; intros ? []; assumption).
  assert (Forall (fun s => aliased s = false) selections) as Hplain
    by (eapply Forall_impl; [exact Hall|]; intros ? []; assumption).
  pose proof (collector.forEach_collect_leaf_selections selections this Hleaf) as Hloop.
  rewrite (collector.filter_none _ _ Hplain) in Hloop.
  rewrite (collector.filter_all (fun s => negb (aliased s))) in Hloop
    by (eapply Forall_impl; [exact Hplain|]; intros ? ->; reflexivity).
  exists (extend this (mkDelta (map name_of selections) [] [] [] [] false)). split.
  - rewrite (collector.get_string_loop _ _ _ Hsel Hne Hloop).
    unfold fieldsSet.
    rewrite collector.typeNameField_extend by reflexivity. rewrite Htn.
    unfold extend at 1. cbn [_parentSchemaType]. rewrite Hparent. cbn [bind].
    unfold extend.
    cbn [_primitiveFields _primitiveAliasedFields _linksFields _fragmentSpreads
         _inlineFragments _convertName d_primitives d_aliased d_links d_spreads
         d_branches map fold_left].
    rewrite Hp, Ha, Hl, Hs, Hi. cbn [app].
    destruct selections as [|s l]; [contradiction|].
    unfold buildPrimitiveFields. cbn [map length Nat.eqb].
    rewrite map_map.
    change (buildAliasedPrimitiveFields _ _ []) with (@None string).
    change (buildLinkFields _ []) with (@None string).
    change (buildFragmentSpread _ []) with (@None string).
    change (buildInlineFragments []) with (@None string).
    rewrite (proj1 (proj2 (collector.filter_truthy_two _ _))). reflexivity.
  - cbn. rewrite Hp. reflexivity.
Qed.

Lemma leaf_fields_pick_witness :
  exists this',
    get_string
      (sample.collector true (Some sample.Person)
         [sample.leaf "name"; FIELD (Some "") "age" (Some (SelectionSet [sample.leaf "x"]))])
    = Normal ("({ __typename?: 'Person' } & Pick<Person, 'name' | 'age'>)", this')
    /\ _primitiveFields this' = ["name"; "age"].
Proof.
  apply (leaf_fields_pick
           (sample.collector true (Some sample.Person)
              [sample.leaf "name";
               FIELD (Some "") "age" (Some (SelectionSet [sample.leaf "x"]))])
           sample.Person
           [sample.leaf "name"; FIELD (Some "") "age" (Some (SelectionSet [sample.leaf "x"]))]
           (Some "{ __typename?: 'Person' }")).
  - repeat split.
  - reflexivity.
  - reflexivity.
  - discriminate.
  - repeat first [apply List.Forall_nil
                 | apply List.Forall_cons; [split; vm_compute; reflexivity|]].
  - vm_compute. reflexivity.
Defined.

(** X2. Alias rename.  A first read of a selection set made of aliased
    fields of the parent type, all of a leaf type, returns the typename
    part, if there is one, merged with the record
    [{ alias: Parent['field'], ... }] in document order, where [Parent]
    is the converted name of the parent type; nothing is put among the
    un-aliased leaves. *)
Theorem aliased_leaf_fields_record this parent selections typeName :
  fresh_instance this ->
  _parentSchemaType this = Some parent ->
  _selectionSet this = Some (SelectionSet selections) ->
  selections <> [] ->
  Forall (fun s => leaf_selection this s = true /\ aliased s = true) selections ->
  typeNameField this = Normal typeName ->
  exists this',
    get_string this
    = Normal
        (mergeAllFields
           (filter_truthy
              [typeName;
               Some ("{ "
                     +:+ join ", "
                           (map (fun s =>
                                   formatNamedField (class_of this) (alias_of s)
                                   +:+ ": "
                                   +:+ _convertName this (type_name parent)
                                         (mkConvertOptions (Some true) None)
                                   +:+ "['" +:+ name_of s +:+ "']")
                                selections)
                     +:+ " }")]),
         this')
    /\ _primitiveAliasedFields this' = map aliased_pair selections
    /\ _primitiveFields this' = [].
Proof.
  intros (Hp & Ha & Hl & Hs & Hi & Hq) Hparent Hsel Hne Hall Htn.
  assert (Forall (fun s => leaf_selection this s = true) selections) as Hleaf
    by (eapply Forall_impl; [exact Hall|]; intros ? []; assumption).
  assert (Forall (fun s => aliased s = true) selections) as Haliased
    by (eapply Forall_impl; [exact Hall|]; intros ? []; assumption).
  pose proof (collector.forEach_collect_leaf_selections selections this Hleaf) as Hloop.
  rewrite (collector.filter_all _ _ Haliased) in Hloop.
  rewrite (collector.filter_none (fun s => negb (aliased s))) in Hloop
    by (eapply Forall_impl; [exact Haliased|]; intros ? ->; reflexivity).
  exists (extend this (mkDelta [] (map aliased_pair selections) [] [] [] false)).
  split; [|split].
  - rewrite (collector.get_string_loop _ _ _ Hsel Hne Hloop).
    unfold fieldsSet.
    rewrite collector.typeNameField_extend by reflexivity. rewrite Htn.
    unfold extend at 1. cbn [_parentSchemaType]. rewrite Hparent. cbn [bind].
    unfold extend.
    cbn [_primitiveFields _primitiveAliasedFields _linksFields _fragmentSpreads
         _inlineFragments _convertName d_primitives d_aliased d_links d_spreads
         d_branches map fold_left].
    rewrite Hp, Ha, Hl, Hs, Hi. cbn [app].
    destruct selections as [|s l]; [contradiction|].
    unfold buildAliasedPrimitiveFields. cbn [map length Nat.eqb class_of].
    rewrite map_map.
    change (buildPrimitiveFields _ []) with (@None string).
    change (buildLinkFields _ []) with (@None string).
    change (buildFragmentSpread _ []) with (@None string).
    change (buildInlineFragments []) with (@None string).
    rewrite (proj2 (proj2 (collector.filter_truthy_two _ _))). reflexivity.
  - cbn. rewrite Ha. reflexivity.
  - cbn. rewrite Hp. reflexivity.
Qed.

Lemma aliased_leaf_fields_record_witness :
  exists this',
    get_string
      (sample.collector false (Some sample.Person)
         [FIELD (Some "label") "name" None; FIELD (Some "years") "age" None])
    = Normal ("{ label: Person['name'], years: Person['age'] }", this')
    /\ _primitiveAliasedFields this'
       = [PrimitiveAliasedFields.mk "label" "name"; PrimitiveAliasedFields.mk "years" "age"]
    /\ _primitiveFields this' = [].
Proof.
  apply (aliased_leaf_fields_record
           (sample.collector false (Some sample.Person)
              [FIELD (Some "label") "name" None; FIELD (Some "years") "age" None])
           sample.Person
           [FIELD (Some "label") "name" None; FIELD (Some "years") "age" None] None).
  - repeat split.
  - reflexivity.
  - reflexivity.
  - discriminate.
  - repeat first [apply List.Forall_nil
                 | apply List.Forall_cons; [split; vm_compute; reflexivity|]].
  - vm_compute. reflexivity.
Defined.

(** X3. Fragment spreads.  A first read of a selection set made of
    fragment spreads returns the typename part, if there is one, merged
    with the converted names of the spreads (suffix [Fragment], types
    prefix on) in document order, joined by [&]; the spreads are kept by
    name, repeated ones included, and no fragment definition is looked
    up, whatever the parent type is. *)
Theorem fragment_spreads_by_name this parent selections typeName :
  fresh_instance this ->
  _parentSchemaType this = Some parent ->
  _selectionSet this = Some (SelectionSet selections) ->
  selections <> [] ->
  Forall (fun s => is_spread s = true) selections ->
  typeNameField this = Normal typeName ->
  exists this',
    get_string this
    = Normal
        (mergeAllFields
           (filter_truthy
              [typeName;
               Some (quoteIfNeeded
                       (map (fun s =>
                               _convertName this (name_of s)
                                 (mkConvertOptions (Some true) (Some "Fragment")))
                            selections)
                       " & ")]),
         this')
    /\ _fragmentSpreads this' = map name_of selections.
Proof.
  intros (Hp & Ha & Hl & Hs & Hi & Hq) Hparent Hsel Hne Hall Htn.
  pose proof (collector.forEach_collect_spreads selections this Hall) as Hloop.
  exists (extend this (mkDelta [] [] [] (map name_of selections) [] false)).
  split.
  - rewrite (collector.get_string_loop _ _ _ Hsel Hne Hloop).
    unfold fieldsSet.
    rewrite collector.typeNameField_extend by reflexivity. rewrite Htn.
    unfold extend at 1. cbn [_parentSchemaType]. rewrite Hparent. cbn [bind].
    unfold extend.
    cbn [_primitiveFields _primitiveAliasedFields _linksFields _fragmentSpreads
         _inlineFragments _convertName d_primitives d_aliased d_links d_spreads
         d_branches map fold_left].
    rewrite Hp, Ha, Hl, Hs, Hi. cbn [app].
    destruct selections as [|s l]; [contradiction|].
    unfold buildFragmentSpread. cbn [map length Nat.eqb _convertName].
    rewrite map_map.
    change (buildPrimitiveFields _ []) with (@None string).
    change (buildAliasedPrimitiveFields _ _ []) with (@None string).
    change (buildLinkFields _ []) with (@None string).
    change (buildInlineFragments []) with (@None string).
    rewrite (proj1 (collector.filter_truthy_two _ _)). reflexivity.
  - cbn. rewrite Hs. reflexivity.
Qed.

Lemma fragment_spreads_by_name_witness :
  exists this',
    get_string
      (sample.collector false (Some sample.Animal)
         [FRAGMENT_SPREAD "catParts"; FRAGMENT_SPREAD "dogParts"; FRAGMENT_SPREAD "catParts"])
    = Normal ("(catPartsFragment & dogPartsFragment & catPartsFragment)", this')
    /\ _fragmentSpreads this' = ["catParts"; "dogParts"; "catParts"].
Proof.
  apply (fragment_spreads_by_name
           (sample.collector false (Some sample.Animal)
              [FRAGMENT_SPREAD "catParts"; FRAGMENT_SPREAD "dogParts";
               FRAGMENT_SPREAD "catParts"])
           sample.Animal
           [FRAGMENT_SPREAD "catParts"; FRAGMENT_SPREAD "dogParts";
            FRAGMENT_SPREAD "catParts"] None).
  - repeat split.
  - reflexivity.
  - reflexivity.
  - discriminate.
  - repeat constructor.
  - reflexivity.
Defined.

(** X4. Every field in one place.  A read that returns adds to the
    three accumulators for fields (leaves, aliased leaves, links)
    together one entry for each field selection other than
    [__typename] when the parent type is an object or interface type,
    and none otherwise; it adds one entry to the fragment spreads for
    each spread.  A second read counts the selections a second time. *)
Theorem fields_recorded_once this selections text this' :
  _selectionSet this = Some (SelectionSet selections) ->
  get_string this = Normal (text, this') ->
  fields_recorded this'
  = fields_recorded this
    + (if objectish (_parentSchemaType this)
       then length (List.filter plain_field selections) else 0)
  /\ length (_fragmentSpreads this')
     = length (_fragmentSpreads this) + length (List.filter is_spread selections).
Proof.
  intros Hsel H. rewrite collector.get_string_eq, Hsel in H.
  destruct selections as [|s l].
  - cbn in H. injection H as _ <-. destruct (objectish _); cbn; lia.
  - cbn [length Nat.eqb] in H.
    apply bind_Normal in H as (this1 & Hloop & H).
    apply bind_Normal in H as (parts & _ & H). injection H as _ <-.
    apply collector.forEach_collect_counts. exact Hloop.
Qed.

Lemma fields_recorded_once_witness :
  get_string
    (sample.collector false (Some sample.Person)
       [sample.leaf "name"; sample.leaf "__typename";
        FIELD (Some "years") "age" None; FRAGMENT_SPREAD "parts"])
  = Normal
      ("({ __typename: 'Person' } & Pick<Person, 'name'> & { years: Person['age'] } & partsFragment)",
       extend (sample.collector false (Some sample.Person)
                 [sample.leaf "name"; sample.leaf "__typename";
                  FIELD (Some "years") "age" None; FRAGMENT_SPREAD "parts"])
              (mkDelta ["name"] [PrimitiveAliasedFields.mk "years" "age"] []
                       ["parts"] [] true))
  /\ fields_recorded
       (extend (sample.collector false (Some sample.Person)
                  [sample.leaf "name"; sample.leaf "__typename";
                   FIELD (Some "years") "age" None; FRAGMENT_SPREAD "parts"])
               (mkDelta ["name"] [PrimitiveAliasedFields.mk "years" "age"] []
                        ["parts"] [] true))
     = 0 + 2
  /\ length ["parts"] = 0 + 1.
Proof.
  split; [vm_compute; reflexivity|].
  apply (fields_recorded_once
           (sample.collector false (Some sample.Person)
              [sample.leaf "name"; sample.leaf "__typename";
               FIELD (Some "years") "age" None; FRAGMENT_SPREAD "parts"])
           [sample.leaf "name"; sample.leaf "__typename";
            FIELD (Some "years") "age" None; FRAGMENT_SPREAD "parts"]
           "({ __typename: 'Person' } & Pick<Person, 'name'> & { years: Person['age'] } & partsFragment)"
           (extend (sample.collector false (Some sample.Person)
                      [sample.leaf "name"; sample.leaf "__typename";
                       FIELD (Some "years") "age" None; FRAGMENT_SPREAD "parts"])
                   (mkDelta ["name"] [PrimitiveAliasedFields.mk "years" "age"] []
                            ["parts"] [] true))).
  - reflexivity.
  - vm_compute. reflexivity.
Defined.

(** X5. Meta fields.  [__schema] and [__type] are resolved from the
    introspection definitions when the parent is one of the schema's
    root types, whether or not the type defines a field of that name:
    the field is collected as a link to [__Schema] or [__Type], with the
    text of a nested collector on that type.  On any other object or
    interface type they are fields like the others, and throw when the
    type does not define them. *)
Theorem meta_fields_on_root_types this parent alias name ss schemaField :
  _parentSchemaType this = Some parent ->
  objectish (Some parent) = true ->
  metadataFieldMap name = Some schemaField ->
  (isRootType parent (_schema this) = true ->
   scalars_has (_scalars this) (type_name (getBaseType (field_type schemaField))) = false ->
   collect (FIELD alias name ss) this
   = (r <- get_string (createNext this (Some (getBaseType (field_type schemaField))) ss) ;;
      Normal (set_linksFields
                (_linksFields this
                   ++ [LinkField.mk alias name
                         (type_name (getBaseType (field_type schemaField)))
                         (wrapTypeWithModifiers (class_of this) (fst r)
                            (field_type schemaField))])
                this)))
  /\ (isRootType parent (_schema this) = false ->
      getFields (_schema this) parent !! name = None ->
      collect (FIELD alias name ss) this = Throw (TypeError_read "type")).
Proof.
  intros Hparent Hkind Hmeta.
  assert (isMetadataFieldName name = true /\ String.eqb name "__typename" = false
          /\ (field_type schemaField = GraphQLNonNull (Named (mkNamedType "__Schema" OBJECT))
              \/ field_type schemaField = Named (mkNamedType "__Type" OBJECT)))
    as (Hname & Htypename & Htype).
  { unfold metadataFieldMap in Hmeta. unfold isMetadataFieldName.
    destruct (String.eqb name "__schema") eqn:E1.
    - apply String.eqb_eq in E1. subst name. injection Hmeta as <-. auto.
    - destruct (String.eqb name "__type") eqn:E2; [|discriminate].
      apply String.eqb_eq in E2. subst name. injection Hmeta as <-. auto. }
  unfold objectish in Hkind.
  split.
  - intros Hroot Hscalar. cbn [collect]. unfold _collectField.
    rewrite Htypename, Hparent, Hkind, Hroot, Hname. cbn [andb]. rewrite Hmeta.
    cbn zeta. rewrite Hscalar.
    assert (isEnumType (Some (getBaseType (field_type schemaField))) = false
            /\ isScalarType (Some (getBaseType (field_type schemaField))) = false)
      as [-> ->] by (destruct Htype as [-> | ->]; split; reflexivity).
    cbn [orb].
    unfold get_string. cbn [createNext new _selectionSet].
    destruct ss as [nested|]; cbn [bind]; [|reflexivity].
    match goal with
    | |- bind (bind ?c _) _ = bind ?c' _ => change c' with c; destruct c as [[text next]|e]
    end; reflexivity.
  - intros Hroot Hfields. cbn [collect]. unfold _collectField.
    rewrite Htypename, Hparent, Hkind, Hroot. cbn [andb]. rewrite Hfields. reflexivity.
Qed.

Lemma meta_fields_on_root_types_witness :
  (collect (FIELD None "__schema" None) (sample.collector false (Some sample.Query) [])
   = Normal (set_linksFields [LinkField.mk None "__schema" "__Schema" ""]
               (sample.collector false (Some sample.Query) [])))
  /\ collect (FIELD None "__schema" None) (sample.collector false (Some sample.Person) [])
     = Throw (TypeError_read "type").
Proof.
  split.
  - apply (proj1 (meta_fields_on_root_types
                    (sample.collector false (Some sample.Query) []) sample.Query
                    None "__schema" None SchemaMetaFieldDef eq_refl eq_refl eq_refl));
      reflexivity.
  - apply (proj2 (meta_fields_on_root_types
                    (sample.collector false (Some sample.Person) []) sample.Person
                    None "__schema" None SchemaMetaFieldDef eq_refl eq_refl eq_refl));
      vm_compute; reflexivity.
Defined.

(** X6. A type condition that names a member of [Object.prototype]
    ([constructor], [toString], ...) cannot be recorded: the accumulator
    of the inline fragments is a plain object, the inherited member
    passes for an entry already there, and the read throws.  When the
    body under the condition can be read, the error is that [push] is
    not a function. *)
Theorem inherited_type_condition_throws :
  (forall this pre selection post,
      _selectionSet this = Some (SelectionSet (pre ++ selection :: post)) ->
      on_inherited_name selection = true ->
      own_keys_plain (_inlineFragments this) ->
      throws (get_string this))
  /\ (forall this onType nested text next',
         inherited onType = true ->
         own (_inlineFragments this) onType = None ->
         get_string (createNext this (getType (_schema this) onType) (Some nested))
         = Normal (text, next') ->
         collect (INLINE_FRAGMENT (Some onType) nested) this
         = Throw (TypeError_not_a_function "push")).
Proof.
  split.
  - intros this pre selection post Hsel Hname Hplain.
    rewrite collector.get_string_eq, Hsel.
    rewrite length_app. cbn [length].
    replace (length pre + S (length post) =? 0)%nat with false
      by (symmetry; apply Nat.eqb_neq; lia).
    apply bind_throws_l.
    apply (forEach_throws_at collect (fun s => own_keys_plain (_inlineFragments s))).
    + intros y s0 s1 H0 H1. eapply collector.collect_plain; eassumption.
    + intros s0 H0. apply collector.collect_on_inherited_name; assumption.
    + exact Hplain.
  - intros this onType nested text next' Hname Hown Hnested.
    cbn [collect]. unfold _collectInlineFragment, inlineFragments_has. cbn zeta.
    rewrite Hown, Hname.
    unfold get_string, createNext in Hnested. cbn [new _selectionSet] in Hnested.
    unfold createNext. rewrite Hnested. cbn [bind fst].
    unfold inlineFragments_push. rewrite Hown, Hname. reflexivity.
Qed.

Lemma inherited_type_condition_throws_witness :
  throws (get_string
            (sample.collector false (Some sample.Animal)
               ([sample.on "Cat" [sample.leaf "meow"]]
                  ++ sample.on "constructor" [] :: [])))
  /\ collect (sample.on "toString" []) (sample.collector false (Some sample.Animal) [])
     = Throw (TypeError_not_a_function "push").
Proof.
  split.
  - apply (proj1 inherited_type_condition_throws
             (sample.collector false (Some sample.Animal)
                ([sample.on "Cat" [sample.leaf "meow"]]
                   ++ sample.on "constructor" [] :: []))
             [sample.on "Cat" [sample.leaf "meow"]] (sample.on "constructor" []) []).
    + reflexivity.
    + reflexivity.
    + constructor.
  - apply (proj2 inherited_type_condition_throws
             (sample.collector false (Some sample.Animal) []) "toString"
             (SelectionSet []) ""
             (createNext (sample.collector false (Some sample.Animal) [])
                         None (Some (SelectionSet [])))).
    + reflexivity.
    + reflexivity.
    + reflexivity.
Defined.

(** X7. An inline fragment without a type condition ([... { a }] or
    [... @include(if: $x) { a }], which GraphQL allows) makes both
    programs throw, wherever it stands in the selection set: the
    collector reads [name] of the absent condition, and
    [buildInnerModelsArray] hands the absent condition to
    [typeFromAST], whatever [appendTo] and [result] are. *)
Theorem inline_fragment_without_condition_throws :
  (forall this pre selection post,
      _selectionSet this = Some (SelectionSet (pre ++ selection :: post)) ->
      without_condition selection = true ->
      throws (get_string this))
  /\ (forall (utils : Utils) schema primitivesMap rootObject pre selection post appendTo st,
         without_condition selection = true ->
         throws (buildInnerModelsArray_on schema primitivesMap rootObject
                   (Some (SelectionSet (pre ++ selection :: post))) appendTo st)).
Proof.
  split.
  - intros this pre selection post Hsel Hnone.
    rewrite collector.get_string_eq, Hsel.
    rewrite length_app. cbn [length].
    replace (length pre + S (length post) =? 0)%nat with false
      by (symmetry; apply Nat.eqb_neq; lia).
    apply bind_throws_l.
    apply (forEach_throws_at collect (fun _ => True)); [trivial| |exact I].
    intros s0 _. destruct selection as [| |[onType|] nested]; try discriminate.
    exact I.
  - intros utils schema primitivesMap rootObject pre selection post appendTo st Hnone.
    unfold buildInnerModelsArray_on. rewrite builder.call_eq.
    apply bind_throws_l.
    apply (forEach_throws_at _ (fun _ => True)); [trivial| |exact I].
    intros s0 _. destruct selection as [| |[onType|] nested]; try discriminate.
    exact I.
Qed.

Lemma inline_fragment_without_condition_throws_witness :
  throws (get_string
            (sample.collector false (Some sample.Person)
               ([sample.leaf "name"]
                  ++ INLINE_FRAGMENT None (SelectionSet [sample.leaf "age"]) :: [])))
  /\ throws (@buildInnerModelsArray_on sample.utils sample.schema tt
               (Some (Named sample.Query))
               (Some (SelectionSet
                        ([sample.link "person" []]
                           ++ INLINE_FRAGMENT None (SelectionSet []) :: [])))
               None (mkStore [] [])).
Proof.
  split.
  - apply (proj1 inline_fragment_without_condition_throws
             (sample.collector false (Some sample.Person)
                ([sample.leaf "name"]
                   ++ INLINE_FRAGMENT None (SelectionSet [sample.leaf "age"]) :: []))
             [sample.leaf "name"]
             (INLINE_FRAGMENT None (SelectionSet [sample.leaf "age"])) []);
      reflexivity.
  - apply (proj2 inline_fragment_without_condition_throws sample.utils sample.schema tt
             (Some (Named sample.Query)) [sample.link "person" []]
             (INLINE_FRAGMENT None (SelectionSet [])) [] None (mkStore [] [])).
    reflexivity.
Defined.

(** X8. On a parent type that is neither an object nor an interface
    type (a union, say) the loop of the getter passes over every field
    selection other than [__typename], known to the schema or not, and
    over all that is selected under it: it does what it does on the
    selection set without these fields. *)
Theorem fields_skipped_on_other_parents this selections :
  objectish (_parentSchemaType this) = false ->
  forEach collect selections this
  = forEach collect (List.filter (fun s => negb (plain_field s)) selections) this.
Proof.
  revert this.
  induction selections as [|s l IH]; intros this Hparent; cbn [forEach List.filter].
  - reflexivity.
  - destruct (plain_field s) eqn:E; cbn [negb].
    + destruct s as [alias name ss| |]; try discriminate. cbn [plain_field] in E.
      cbn [collect]. rewrite collector._collectField_skipped.
      * cbn [bind]. apply IH. exact Hparent.
      * exact Hparent.
      * intros ->. discriminate.
    + cbn [forEach]. destruct (collect s this) as [this1|e] eqn:H1; cbn [bind]; [|reflexivity].
      apply IH.
      rewrite (collector.objectish_config _ _ (collector.collect_config _ _ _ H1)).
      exact Hparent.
Qed.

Lemma fields_skipped_on_other_parents_witness :
  forEach collect
    [sample.leaf "nothing"; sample.on "Cat" [sample.leaf "meow"];
     sample.link "bark" [sample.leaf "loud"]; sample.leaf "__typename"]
    (sample.collector false (Some sample.Animal) [])
  = forEach collect [sample.on "Cat" [sample.leaf "meow"]; sample.leaf "__typename"]
      (sample.collector false (Some sample.Animal) []).
Proof.
  apply (fields_skipped_on_other_parents
           (sample.collector false (Some sample.Animal) [])
           [sample.leaf "nothing"; sample.on "Cat" [sample.leaf "meow"];
            sample.link "bark" [sample.leaf "loud"]; sample.leaf "__typename"]).
  reflexivity.
Defined.

(** X9. A read only appends.  Whatever the instance holds when
    [string] is read, a read that returns leaves the constructor's
    arguments as they were, keeps every entry of the four lists and
    every body recorded under a type condition where it was, adding at
    the end only, and never takes back that [__typename] was queried. *)
Theorem read_only_appends this text this' :
  get_string this = Normal (text, this') ->
  same_config this' this
  /\ _primitiveFields this `prefix_of` _primitiveFields this'
  /\ _primitiveAliasedFields this `prefix_of` _primitiveAliasedFields this'
  /\ _linksFields this `prefix_of` _linksFields this'
  /\ _fragmentSpreads this `prefix_of` _fragmentSpreads this'
  /\ (forall onType,
        bodies_of (_inlineFragments this) onType
          `prefix_of` bodies_of (_inlineFragments this') onType)
  /\ (_queriedForTypename this = true -> _queriedForTypename this' = true).
Proof.
  intros H. rewrite collector.get_string_eq in H.
  destruct (_selectionSet this) as [[selections]|].
  2:{ injection H as _ <-. split; [apply collector.same_config_refl|].
      repeat split; auto. }
  destruct (length selections =? 0)%nat.
  { injection H as _ <-. split; [apply collector.same_config_refl|].
    repeat split; auto. }
  apply bind_Normal in H as (this1 & Hloop & H).
  apply bind_Normal in H as (parts & _ & H). injection H as _ <-.
  split.
  - eapply collector.forEach_collect_config. exact Hloop.
  - eapply collector.forEach_collect_appends. exact Hloop.
Qed.

Lemma read_only_appends_witness :
  exists text this',
    get_string (extend (sample.collector false (Some sample.Animal) sample.cat_dog_cat)
                       (mkDelta [] [] [] ["parts"] [("Cat", "Pick<Cat, 'purr'>")] true))
    = Normal (text, this')
    /\ ["parts"] `prefix_of` _fragmentSpreads this'
    /\ ["Pick<Cat, 'purr'>"] `prefix_of` bodies_of (_inlineFragments this') "Cat"
    /\ _queriedForTypename this' = true.
Proof.
  destruct (get_string
              (extend (sample.collector false (Some sample.Animal) sample.cat_dog_cat)
                      (mkDelta [] [] [] ["parts"] [("Cat", "Pick<Cat, 'purr'>")] true)))
    as [[text this']|e] eqn:H; [|vm_compute in H; discriminate].
  exists text, this'.
  destruct (read_only_appends _ _ _ H) as (_ & _ & _ & _ & Hs & Hb & Hq).
  split; [reflexivity|]. split; [exact Hs|]. split; [exact (Hb "Cat")|].
  apply Hq. reflexivity.
Defined.

(** X10. Link fields.  A first read of a selection set made of fields
    of the parent type whose base type is not a leaf, each with a nested
    read that returns, gives the typename part, if there is one, merged
    with the record [{ key: body, ... }] in document order: the key is
    the alias, or the name when the alias is absent or empty, and the
    body is the text of the nested collector on the field's base type,
    wrapped by [wrapTypeWithModifiers] for the field's type. *)
Theorem link_fields_record this parent selections typeName :
  fresh_instance this ->
  _parentSchemaType this = Some parent ->
  _selectionSet this = Some (SelectionSet selections) ->
  selections <> [] ->
  Forall (fun s => bucket this s = Link /\ is_Some (link_entry this s)) selections ->
  typeNameField this = Normal typeName ->
  exists this',
    get_string this
    = Normal
        (mergeAllFields
           (filter_truthy
              [typeName;
               Some ("{ "
                     +:+ join ", "
                           (map (fun field =>
                                   formatNamedField (class_of this) (alias_or_name field)
                                   +:+ ": " +:+ LinkField.selectionSet field)
                                (omap (link_entry this) selections))
                     +:+ " }")]),
         this')
    /\ _linksFields this' = omap (link_entry this) selections
    /\ length (_linksFields this') = length selections.
Proof.
  intros (Hp & Ha & Hl & Hs & Hi & Hq) Hparent Hsel Hne Hall Htn.
  pose proof (collector.forEach_collect_links selections this Hall) as Hloop.
  assert (length (omap (link_entry this) selections) = length selections) as Hlen.
  { clear -Hall. induction Hall as [|s l [_ [entry He]] _ IH]; [reflexivity|].
    cbn [omap list_omap]. rewrite He. cbn [length]. f_equal. exact IH. }
  exists (extend this (mkDelta [] [] (omap (link_entry this) selections) [] [] false)).
  split; [|split].
  - rewrite (collector.get_string_loop _ _ _ Hsel Hne Hloop).
    unfold fieldsSet.
    rewrite collector.typeNameField_extend by reflexivity. rewrite Htn.
    unfold extend at 1. cbn [_parentSchemaType]. rewrite Hparent. cbn [bind].
    unfold extend.
    cbn [_primitiveFields _primitiveAliasedFields _linksFields _fragmentSpreads
         _inlineFragments _convertName d_primitives d_aliased d_links d_spreads
         d_branches fold_left].
    rewrite Hp, Ha, Hl, Hs, Hi. cbn [app].
    unfold buildLinkFields. rewrite Hlen.
    destruct selections as [|s l]; [contradiction|]. cbn [length Nat.eqb class_of].
    change (buildPrimitiveFields _ []) with (@None string).
    change (buildAliasedPrimitiveFields _ _ []) with (@None string).
    change (buildFragmentSpread _ []) with (@None string).
    change (buildInlineFragments []) with (@None string).
    rewrite collector.filter_truthy_links. reflexivity.
  - cbn. rewrite Hl. reflexivity.
  - cbn. rewrite Hl. exact Hlen.
Qed.

Lemma link_fields_record_witness :
  exists this',
    get_string
      (sample.collector false (Some sample.Query)
         [FIELD (Some "me") "person" (Some (SelectionSet [sample.leaf "name"]));
          FIELD (Some "") "people" (Some (SelectionSet [sample.leaf "age"]))])
    = Normal
        ("{ me: Maybe<Pick<Person, 'name'>>, people: Array<Pick<Person, 'age'>> }", this')
    /\ _linksFields this'
       = [LinkField.mk (Some "me") "person" "Person" "Maybe<Pick<Person, 'name'>>";
          LinkField.mk (Some "") "people" "Person" "Array<Pick<Person, 'age'>>"]
    /\ length (_linksFields this') = 2.
Proof.
  apply (link_fields_record
           (sample.collector false (Some sample.Query)
              [FIELD (Some "me") "person" (Some (SelectionSet [sample.leaf "name"]));
               FIELD (Some "") "people" (Some (SelectionSet [sample.leaf "age"]))])
           sample.Query
           [FIELD (Some "me") "person" (Some (SelectionSet [sample.leaf "name"]));
            FIELD (Some "") "people" (Some (SelectionSet [sample.leaf "age"]))]
           None).
  - repeat split.
  - reflexivity.
  - reflexivity.
  - discriminate.
  - repeat first [apply List.Forall_nil
                 | apply List.Forall_cons;
                   [split; [vm_compute; reflexivity | eexists; vm_compute; reflexivity]|]].
  - vm_compute. reflexivity.
Defined.

(** X11. Selections of different kinds commute.  Two neighbouring
    selections that go to different accumulators (the typename flag, the
    leaves, the aliased leaves, the links, the spreads, the inline
    fragments) can change places: when the loop of the getter returns on
    the one order it returns on the other, and leaves the instance in
    the same state, so that the text is the same.  Document order counts
    within one accumulator only. *)
Theorem selections_of_different_kinds_commute this pre s t post this' :
  own_keys_plain (_inlineFragments this) ->
  bucket this s <> bucket this t ->
  forEach collect (pre ++ s :: t :: post) this = Normal this' ->
  forEach collect (pre ++ t :: s :: post) this = Normal this'.
Proof.
  intros Hplain Hne. rewrite !collector.forEach_app.
  destruct (forEach collect pre this) as [a|e] eqn:Hpre; cbn [bind forEach]; [|discriminate].
  intros H. apply bind_Normal in H as (a1 & Hs & H).
  apply bind_Normal in H as (a2 & Ht & H).
  assert (own_keys_plain (_inlineFragments a)) as Hplain_a.
  { apply (forEach_invariant collect (fun x => own_keys_plain (_inlineFragments x))
             pre this a); [|exact Hplain|exact Hpre].
    intros y s0 s1 H0 H1. eapply collector.collect_plain; eassumption. }
  pose proof (collector.forEach_collect_config _ _ _ Hpre) as Hc.
  rewrite <- (collector.bucket_config a this s), <- (collector.bucket_config a this t) in Hne
    by exact Hc.
  destruct (collector.collect_swap _ _ _ _ _ Hplain_a Hne Hs Ht) as (a1' & Ht' & Hs').
  rewrite Ht'. cbn [bind]. rewrite Hs'. cbn [bind]. exact H.
Qed.

Lemma selections_of_different_kinds_commute_witness :
  forEach collect
    ([sample.leaf "name"]
       ++ sample.link "friend" [sample.leaf "age"] :: FRAGMENT_SPREAD "parts"
       :: [sample.leaf "age"])
    (sample.collector false (Some sample.Person) [])
  = Normal (extend (sample.collector false (Some sample.Person) [])
              (mkDelta ["name"; "age"] []
                       [LinkField.mk None "friend" "Person" "Maybe<Pick<Person, 'age'>>"]
                       ["parts"] [] false)).
Proof.
  apply (selections_of_different_kinds_commute
           (sample.collector false (Some sample.Person) [])
           [sample.leaf "name"] (FRAGMENT_SPREAD "parts")
           (sample.link "friend" [sample.leaf "age"]) [sample.leaf "age"]).
  - constructor.
  - vm_compute. discriminate.
  - vm_compute. reflexivity.
Defined.

(** *** The builder of inner models *)

(** X12. What is already there stays.  A call that returns keeps the
    models already in [result] in their places, adding at the end only;
    it renames no model, and of the models that existed before the call
    it modifies none but [appendTo]. *)
Theorem models_left_alone (utils : Utils) schema primitivesMap rootObject selections
    appendTo st st' :
  buildInnerModelsArray_on schema primitivesMap rootObject selections appendTo st
  = Normal st' ->
  result st `prefix_of` result st'
  /\ forall r m, heap st !! r = Some m ->
       exists m', heap st' !! r = Some m' /\ name m' = name m
                  /\ (Some r <> appendTo -> m' = m).
Proof.
  unfold buildInnerModelsArray_on. destruct selections as [nested|].
  2:{ intros [= <-]. split; [reflexivity|]. intros r m Hm. exists m. auto. }
  intros H. apply bind_Normal in H as ([appendTo' st1] & Hcall & H). injection H as <-.
  pose proof (builder.call_grows _ _ _ _ _ _ Hcall) as [Hprefix Hnames].
  pose proof (builder.call_kept _ _ _ _ _ _ Hcall) as [[_ Hkept] _].
  cbn [fst snd] in *. split; [exact Hprefix|].
  intros r m Hm. destruct (Hnames r m Hm) as (m' & Hm' & Hname).
  exists m'. split; [exact Hm'|]. split; [exact Hname|].
  intros Hne. rewrite Hkept in Hm'; [congruence | eapply lookup_lt_Some; exact Hm | exact Hne].
Qed.

Lemma models_left_alone_witness :
  exists st',
    @buildInnerModelsArray_on sample.utils sample.schema tt (Some (Named sample.Person))
      (Some (SelectionSet [sample.leaf "name"; sample.link "friend" [sample.leaf "age"]]))
      (Some 0) (mkStore [emptyModel "Caller"; emptyModel "Earlier"] [1])
    = Normal st'
    /\ [1] `prefix_of` result st'
    /\ exists m', heap st' !! 1 = Some m' /\ name m' = "Earlier"
                  /\ (Some 1 <> Some 0 -> m' = emptyModel "Earlier").
Proof.
  destruct (@buildInnerModelsArray_on sample.utils sample.schema tt
              (Some (Named sample.Person))
              (Some (SelectionSet [sample.leaf "name";
                                   sample.link "friend" [sample.leaf "age"]]))
              (Some 0) (mkStore [emptyModel "Caller"; emptyModel "Earlier"] [1]))
    as [st'|e] eqn:H; [|vm_compute in H; discriminate].
  exists st'. split; [reflexivity|].
  destruct (models_left_alone _ _ _ _ _ _ _ _ H) as [Hprefix Hheap].
  split; [exact Hprefix|]. apply (Hheap 1 (emptyModel "Earlier")). reflexivity.
Defined.

(** X13. The accumulator records the selections of its own level.  A
    call with an [appendTo] that returns leaves on it, after what it
    held, one field entry for each field selection, under its alias or
    else its name, one fragment name in Pascal case for each spread, and
    one entry for each inline fragment, all in document order; the
    selections below that level leave no trace on it. *)
Theorem appendTo_records_selections (utils : Utils) schema primitivesMap rootObject
    selections a st st' m :
  buildInnerModelsArray_on schema primitivesMap rootObject
    (Some (SelectionSet selections)) (Some a) st = Normal st' ->
  heap st !! a = Some m ->
  exists m',
    heap st' !! a = Some m'
    /\ name m' = name m
    /\ map Field.name (fields m') = map Field.name (fields m) ++ property_names selections
    /\ fragmentsUsed m' = fragmentsUsed m ++ map pascalCase (spread_names selections)
    /\ inlineFragments m'
       = inlineFragments m ++ map inline_entry (type_conditions selections).
Proof.
  unfold buildInnerModelsArray_on. rewrite builder.call_eq.
  intros H Hm. apply bind_Normal in H as (frame' & Hloop & H). injection H as <-.
  destruct (builder.loop_records _ _ _ _ _ _ _ _ Hloop Hm) as (_ & m' & Hm' & R).
  exists m'. split; [exact Hm' | exact R].
Qed.

Lemma appendTo_records_selections_witness :
  exists st' m',
    @buildInnerModelsArray_on sample.utils sample.schema tt (Some (Named sample.Person))
      (Some (SelectionSet
               [sample.leaf "name"; FRAGMENT_SPREAD "personParts";
                FIELD (Some "pal") "friend" (Some (SelectionSet [sample.leaf "age"]));
                sample.on "Person" [sample.leaf "age"]]))
      (Some 0) (mkStore [emptyModel "Caller"] [])
    = Normal st'
    /\ heap st' !! 0 = Some m'
    /\ name m' = "Caller"
    /\ map Field.name (fields m') = ["name"; "pal"]
    /\ fragmentsUsed m' = ["PersonParts"]
    /\ inlineFragments m' = [InlineFragment.mk "PersonInlineFragment" "Person"].
Proof.
  destruct (@buildInnerModelsArray_on sample.utils sample.schema tt
              (Some (Named sample.Person))
              (Some (SelectionSet
                       [sample.leaf "name"; FRAGMENT_SPREAD "personParts";
                        FIELD (Some "pal") "friend" (Some (SelectionSet [sample.leaf "age"]));
                        sample.on "Person" [sample.leaf "age"]]))
              (Some 0) (mkStore [emptyModel "Caller"] []))
    as [st'|e] eqn:H; [|vm_compute in H; discriminate].
  destruct (appendTo_records_selections _ _ _ _ _ _ _ _ (emptyModel "Caller") H eq_refl)
    as (m' & Hm' & R).
  exists st', m'. split; [reflexivity|]. split; [exact Hm' | exact R].
Defined.

(** X14. The root model.  A call without [appendTo] on a selection set
    that is not empty, when it returns, has put in [result] a new model
    named [Result] that lists the root selections: a field entry for each
    root field under its alias or else its name, the Pascal-cased name
    of each root spread, and an entry for each root inline fragment, in
    document order. *)
Theorem Result_lists_the_root_selections (utils : Utils) schema primitivesMap rootObject
    selections st st' :
  selections <> [] ->
  buildInnerModelsArray_on schema primitivesMap rootObject
    (Some (SelectionSet selections)) None st = Normal st' ->
  exists r m,
    r ∈ result st' /\ length (heap st) <= r
    /\ heap st' !! r = Some m
    /\ name m = "Result"
    /\ map Field.name (fields m) = property_names selections
    /\ fragmentsUsed m = map pascalCase (spread_names selections)
    /\ inlineFragments m = map inline_entry (type_conditions selections).
Proof.
  intros Hne. unfold buildInnerModelsArray_on. rewrite builder.call_eq.
  destruct selections as [|first rest]; [contradiction|]. cbn [forEach].
  intros H. apply bind_Normal in H as (frame' & Hloop & H). injection H as <-.
  apply bind_Normal in Hloop as ([appendTo1 st1] & Hfirst & Hrest).
  destruct first as [alias fieldName ss|fragmentName|typeCondition nested];
    [|discriminate|destruct typeCondition; discriminate].
  destruct (getFieldDef rootObject (FIELD alias fieldName ss)) as [field|] eqn:Hfield.
  2:{ rewrite builder.visit_unknown_field in Hfirst by exact Hfield. discriminate. }
  destruct (decide (type_kind (getNamedType (field_type field)) = OBJECT)) as [Hkind|Hkind].
  2:{ cbn [visit fst snd] in Hfirst. rewrite Hfield in Hfirst.
      rewrite bool_decide_eq_false_2 in Hfirst by exact Hkind. discriminate. }
  destruct (builder.visit_object_field_creates_Result _ _ _ _ _ _ _ _ _ Hfield Hkind Hfirst)
    as (st3 & G3 & Ha & Hresult & Hm).
  cbn [fst snd] in Ha, Hresult, Hm. subst appendTo1.
  destruct (builder.loop_records _ _ _ _ _ _ _ _ Hrest Hm) as (_ & m' & Hm' & R).
  pose proof (builder.call_grows _ _ (SelectionSet rest) _ _ _ Hrest) as [[suffix Hsuffix] _].
  cbn [snd] in Hsuffix.
  exists (length (heap st3)), m'. split; [|split; [|split; [exact Hm'|]]].
  - rewrite Hsuffix, Hresult. apply elem_of_app. left. apply elem_of_app. right. left.
  - destruct G3 as [_ G3].
    destruct (le_lt_dec (length (heap st)) (length (heap st3))) as [Hle|Hlt]; [exact Hle|].
    destruct (lookup_lt_is_Some_2 (heap st) (length (heap st3)) Hlt) as [m0 Hm0].
    destruct (G3 _ _ Hm0) as (m1 & Hm1 & _).
    apply lookup_lt_Some in Hm1. lia.
  - assert (records [FIELD alias fieldName ss] (emptyModel "Result")
              (mkModel "Result"
                 [entry alias fieldName
                    (handleNameDuplications (pascalCase fieldName) (models st))
                    (field_type field)] [] [] None None)) as R1.
    { unfold records, entry. cbn. destruct alias; auto. }
    pose proof (builder.records_cons _ _ _ _ _ R1 R) as (N & F & S & I).
    cbn in N, F, S, I. auto.
Qed.

Lemma Result_lists_the_root_selections_witness :
  exists st' r m,
    @buildInnerModelsArray_on sample.utils sample.schema tt (Some (Named sample.Query))
      (Some (SelectionSet
               [FIELD (Some "me") "person" (Some (SelectionSet [sample.leaf "name"]));
                sample.link "cat" [sample.leaf "meow"];
                sample.leaf "pet"; FRAGMENT_SPREAD "queryParts"]))
      None (mkStore [] [])
    = Normal st'
    /\ r ∈ result st' /\ length (@nil Model) <= r
    /\ heap st' !! r = Some m
    /\ name m = "Result"
    /\ map Field.name (fields m) = ["me"; "cat"; "pet"]
    /\ fragmentsUsed m = ["QueryParts"]
    /\ inlineFragments m = [].
Proof.
  destruct (@buildInnerModelsArray_on sample.utils sample.schema tt
              (Some (Named sample.Query))
              (Some (SelectionSet
                       [FIELD (Some "me") "person" (Some (SelectionSet [sample.leaf "name"]));
                        sample.link "cat" [sample.leaf "meow"];
                        sample.leaf "pet"; FRAGMENT_SPREAD "queryParts"]))
              None (mkStore [] []))
    as [st'|e] eqn:H; [|vm_compute in H; discriminate].
  edestruct (Result_lists_the_root_selections sample.utils) as (r & m & R);
    [|exact H|]; [discriminate|].
  exists st', r, m. split; [reflexivity | exact R].
Defined.

(** X15. The flags follow the lists.  In every model of the array a
    call returns, [usingFragments] is absent while [fragmentsUsed] is
    empty and [true] once it is not, and [hasInlineFragments] is absent
    while [inlineFragments] is empty and [true] once it is not: neither
    flag is ever [false].  A call on models that are so leaves them so. *)
Theorem flags_follow_the_lists (utils : Utils) schema primitivesMap rootObject selections
    appendTo st st' :
  Forall flags_ok (heap st) ->
  buildInnerModelsArray_on schema primitivesMap rootObject selections appendTo st
  = Normal st' ->
  Forall flags_ok (heap st') /\ Forall flags_ok (models st').
Proof.
  intros Hst H.
  assert (Forall flags_ok (heap st')) as Hheap.
  { unfold buildInnerModelsArray_on in H. destruct selections as [[l]|].
    - rewrite builder.call_eq in H.
      apply bind_Normal in H as (frame' & Hloop & H). injection H as <-.
      apply (builder.loop_flags _ _ _ _ _ _ Hloop). exact Hst.
    - injection H as <-. exact Hst. }
  split; [exact Hheap|].
  apply Forall_forall. intros m Hm. unfold models in Hm.
  apply list_elem_of_omap in Hm as (r & _ & Hr).
  rewrite Forall_forall in Hheap. apply Hheap.
  eapply list_elem_of_lookup_2. exact Hr.
Qed.

Lemma flags_follow_the_lists_witness :
  exists st',
    @buildInnerModelsArray_on sample.utils sample.schema tt (Some (Named sample.Query))
      (Some (SelectionSet
               [sample.link "pet" [sample.on "Cat" [FRAGMENT_SPREAD "catParts"]];
                sample.link "person" [sample.leaf "name"]]))
      (Some 0) (mkStore [emptyModel "Caller"] [0])
    = Normal st'
    /\ Forall flags_ok (heap st') /\ Forall flags_ok (models st').
Proof.
  destruct (@buildInnerModelsArray_on sample.utils sample.schema tt
              (Some (Named sample.Query))
              (Some (SelectionSet
                       [sample.link "pet" [sample.on "Cat" [FRAGMENT_SPREAD "catParts"]];
                        sample.link "person" [sample.leaf "name"]]))
              (Some 0) (mkStore [emptyModel "Caller"] [0]))
    as [st'|e] eqn:H; [|vm_compute in H; discriminate].
  exists st'. split; [reflexivity|].
  eapply (flags_follow_the_lists sample.utils); [|exact H]. repeat constructor.
Defined.

(** X16. Names stay distinct where there is no inline fragment.  When
    [handleNameDuplications] returns a name that no model of [result]
    bears, a call with an [appendTo] on selections without inline
    fragments, at any depth, adds to an array of distinctly named models
    only models of names not yet taken. *)
Theorem names_distinct_without_inline_fragments (utils : Utils) schema primitivesMap
    rootObject selections a st st' :
  (forall n existing, handleNameDuplications n existing ∉ map name existing) ->
  forallb no_inline_fragments selections = true ->
  valid st ->
  NoDup (map name (models st)) ->
  buildInnerModelsArray_on schema primitivesMap rootObject
    (Some (SelectionSet selections)) (Some a) st = Normal st' ->
  NoDup (map name (models st')).
Proof.
  intros Hnew Hno Hvalid Hst. unfold buildInnerModelsArray_on. rewrite builder.call_eq.
  intros H. apply bind_Normal in H as (frame' & Hloop & H). injection H as <-.
  refine (builder.forEach_unique schema primitivesMap rootObject selections _
            a st frame' Hno Hloop Hvalid Hst).
  apply Forall_forall. intros node _ ? ? ? ?. apply builder.visit_unique. exact Hnew.
Qed.

Lemma names_distinct_without_inline_fragments_witness :
  exists st',
    @buildInnerModelsArray_on sample.utils sample.schema tt (Some (Named sample.Query))
      (Some (SelectionSet
               [sample.link "person" [sample.link "friend" [sample.link "friend" []]];
                FIELD (Some "other") "person" None]))
      (Some 0) (mkStore [emptyModel "Friend"] [0])
    = Normal st'
    /\ NoDup (map name (models st')).
Proof.
  destruct (@buildInnerModelsArray_on sample.utils sample.schema tt
              (Some (Named sample.Query))
              (Some (SelectionSet
                       [sample.link "person" [sample.link "friend" [sample.link "friend" []]];
                        FIELD (Some "other") "person" None]))
              (Some 0) (mkStore [emptyModel "Friend"] [0]))
    as [st'|e] eqn:H; [|vm_compute in H; discriminate].
  exists st'. split; [reflexivity|].
  eapply (names_distinct_without_inline_fragments sample.utils);
    [apply builder.handleNameDuplications_new | | | |exact H].
  - reflexivity.
  - repeat constructor.
  - cbn. repeat constructor. set_solver.
Defined.

(** X17. One model for each object field and each inline fragment.  A
    call that returns has added to [result] one model for each field of
    an object type and one for each inline fragment among the selections
    it visits, and the [Result] model when it was called without
    [appendTo] on a selection set that is not empty.  The selections
    under a field whose type is not an object type (a scalar, an enum, a
    union, an interface) are not visited and add nothing. *)
Theorem one_model_per_object_field_and_inline_fragment (utils : Utils) schema primitivesMap
    rootObject selections appendTo st st' :
  valid st ->
  buildInnerModelsArray_on schema primitivesMap rootObject
    (Some (SelectionSet selections)) appendTo st = Normal st' ->
  length (models st')
  = length (models st)
    + list_sum (map (model_count schema rootObject) selections)
    + match appendTo, selections with None, _ :: _ => 1 | _, _ => 0 end.
Proof.
  intros Hvalid. unfold buildInnerModelsArray_on. rewrite builder.call_eq.
  intros H. apply bind_Normal in H as (frame' & Hloop & H). injection H as <-.
  rewrite (builder.valid_models_length _ Hvalid).
  rewrite (builder.valid_models_length _
             (builder.loop_valid _ _ _ _ _ _ Hloop Hvalid)).
  rewrite (builder.loop_count _ _ _ _ _ _ Hloop). cbn [fst snd]. f_equal.
  destruct appendTo as [a|]; [reflexivity|].
  destruct selections as [|first rest].
  - cbn in Hloop. injection Hloop as <-. reflexivity.
  - cbn [forEach] in Hloop. apply bind_Normal in Hloop as (frame1 & H1 & H2).
    pose proof (builder.visit_kept _ _ _ _ _ _ H1) as [_ (r & A1 & _)]. cbn [fst] in A1.
    pose proof (builder.loop_kept _ _ _ _ _ _ H2) as [_ A2]. rewrite A1 in A2.
    rewrite A2. reflexivity.
Qed.

Lemma one_model_per_object_field_and_inline_fragment_witness :
  exists st',
    @buildInnerModelsArray_on sample.utils sample.schema tt (Some (Named sample.Query))
      (Some (SelectionSet
               [sample.link "person" [sample.leaf "name"; sample.link "friend" []];
                sample.link "pet" [sample.on "Cat" [sample.leaf "meow"]];
                sample.link "cat" [sample.on "Cat" [sample.leaf "meow"]]]))
      None (mkStore [] [])
    = Normal st'
    /\ length (models st') = 0 + 4 + 1.
Proof.
  destruct (@buildInnerModelsArray_on sample.utils sample.schema tt
              (Some (Named sample.Query))
              (Some (SelectionSet
                       [sample.link "person" [sample.leaf "name"; sample.link "friend" []];
                        sample.link "pet" [sample.on "Cat" [sample.leaf "meow"]];
                        sample.link "cat" [sample.on "Cat" [sample.leaf "meow"]]]))
              None (mkStore [] []))
    as [st'|e] eqn:H; [|vm_compute in H; discriminate].
  exists st'. split; [reflexivity|].
  exact (one_model_per_object_field_and_inline_fragment sample.utils sample.schema tt
           (Some (Named sample.Query))
           [sample.link "person" [sample.leaf "name"; sample.link "friend" []];
            sample.link "pet" [sample.on "Cat" [sample.leaf "meow"]];
            sample.link "cat" [sample.on "Cat" [sample.leaf "meow"]]]
           None (mkStore [] []) st' (List.Forall_nil _) H).
Defined.

(** X18. The name [Result] is not checked.  The root model is named
    [Result] without a look at the names already in [result]: when the
    model of the first root field has been given the name [Result] (a
    field named [result], say), a call without [appendTo] that returns
    hands back two models of that name. *)
Theorem Result_name_is_not_checked (utils : Utils) schema primitivesMap rootObject
    alias fieldName ss rest field l :
  getFieldDef rootObject (FIELD alias fieldName ss) = Some field ->
  type_kind (getNamedType (field_type field)) = OBJECT ->
  handleNameDuplications (pascalCase fieldName) [] = "Result" ->
  buildInnerModelsArray schema primitivesMap rootObject
    (Some (SelectionSet (FIELD alias fieldName ss :: rest))) = Normal l ->
  ~ NoDup (map name l).
Proof.
  intros Hfield Hkind Hname. unfold buildInnerModelsArray, buildInnerModelsArray_on.
  rewrite builder.call_eq. cbn [forEach].
  intros H. apply bind_Normal in H as (st' & H & Hl). injection Hl as <-.
  apply bind_Normal in H as (frame' & Hloop & H). injection H as <-.
  apply bind_Normal in Hloop as ([appendTo1 st1] & Hfirst & Hrest).
  apply builder.twice_named_models with (n := "Result").
  apply (builder.twice_named_grows _ st1);
    [apply (builder.call_grows _ _ (SelectionSet rest) _ _ _ Hrest)|].
  rewrite (builder.visit_object_field _ _ _ _ _ _ _ _ field Hfield Hkind) in Hfirst.
  cbn zeta in Hfirst. change (models (mkStore [] [])) with (@nil Model) in Hfirst.
  rewrite Hname in Hfirst.
  apply bind_Normal in Hfirst as ([inner_appendTo st3] & Hinner & Hfirst).
  injection Hfirst as _ <-. cbn [snd].
  assert (grows (push 0 (snd (alloc (emptyModel "Result") (mkStore [] [])))) st3)
    as [[suffix Hsuffix] Hheap].
  { destruct ss as [nested|].
    - apply (builder.call_grows _ _ _ _ _ _ Hinner).
    - injection Hinner as _ <-. apply builder.grows_refl. }
  destruct (Hheap 0 (emptyModel "Result") eq_refl) as (m1 & Hm1 & N1).
  pose proof (lookup_lt_Some _ _ _ Hm1) as Hlt.
  exists [], 0, suffix, (length (heap st3)), [], m1,
    (push_field (entry alias fieldName "Result" (field_type field)) (emptyModel "Result")).
  split; [|split; [|split; [|split]]].
  - cbn. rewrite Hsuffix. reflexivity.
  - cbn. rewrite list_lookup_alter_ne by lia. apply lookup_app_l_Some. exact Hm1.
  - cbn. rewrite list_lookup_alter_eq, lookup_app_r by reflexivity.
    rewrite Nat.sub_diag. reflexivity.
  - exact N1.
  - reflexivity.
Qed.

Lemma Result_name_is_not_checked_witness :
  exists l,
    @buildInnerModelsArray sample.result_utils sample.result_schema tt
      (Some (Named sample.Query))
      (Some (SelectionSet [sample.link "result" [sample.leaf "name"]]))
    = Normal l
    /\ ~ NoDup (map name l).
Proof.
  destruct (@buildInnerModelsArray sample.result_utils sample.result_schema tt
              (Some (Named sample.Query))
              (Some (SelectionSet [sample.link "result" [sample.leaf "name"]])))
    as [l|e] eqn:H; [|vm_compute in H; discriminate].
  exists l. split; [reflexivity|].
  apply (Result_name_is_not_checked sample.result_utils sample.result_schema tt
           (Some (Named sample.Query)) None "result"
           (Some (SelectionSet [sample.leaf "name"])) []
           (mkField (Named sample.Person)) l);
    [vm_compute; reflexivity | reflexivity | reflexivity | exact H].
Defined.

(** *** The plugins *)

(** X19. Both plugins see the documents through their definitions only:
    two lists of document files with the same definitions in the same
    order, however these are spread over the files and whatever the
    files are called, give the same output or the same error. *)
Theorem plugins_see_the_definitions_only {Definition_ Config : Type}
    (visited_definitions :
       GraphQLSchema -> Config -> plugins.DocumentNode Definition_ -> Completion (list string))
    schema (documents documents' : list (plugins.DocumentFile Definition_)) config :
  plugins.all_definitions documents = plugins.all_definitions documents' ->
  plugins.plugin visited_definitions schema documents config
  = plugins.plugin visited_definitions schema documents' config
  /\ plugins.flow_plugin visited_definitions schema documents config
     = plugins.flow_plugin visited_definitions schema documents' config.
Proof.
  assert (forall (l : list (plugins.DocumentFile Definition_)) acc,
             fold_left (fun prev v => prev ++ [plugins.content v]) l acc
             = acc ++ map plugins.content l) as Hreduce.
  { induction l as [|v l IH]; intros acc; cbn.
    - rewrite app_nil_r. reflexivity.
    - rewrite IH, <- app_assoc. reflexivity. }
  assert (forall l : list (plugins.DocumentFile Definition_),
             plugins.concatAST (plugins.contents l)
             = plugins.mkDocumentNode (plugins.all_definitions l)) as Hconcat.
  { intros l. unfold plugins.concatAST, plugins.contents, plugins.all_definitions.
    rewrite Hreduce. cbn [app]. f_equal.
    induction l as [|v l IH]; cbn; [reflexivity|]. rewrite IH. reflexivity. }
  intros H. unfold plugins.plugin, plugins.flow_plugin. cbn zeta.
  rewrite !Hconcat, H. split; reflexivity.
Qed.

Lemma plugins_see_the_definitions_only_witness :
  plugins.plugin sample.echo sample.schema
    [plugins.mkDocumentFile "a.graphql" (plugins.mkDocumentNode ["type A = {};"; "type B = {};"]);
     plugins.mkDocumentFile "b.graphql" (plugins.mkDocumentNode [])] tt
  = plugins.plugin sample.echo sample.schema
      [plugins.mkDocumentFile "c.graphql" (plugins.mkDocumentNode ["type A = {};"]);
       plugins.mkDocumentFile "d.graphql" (plugins.mkDocumentNode ["type B = {};"])] tt
  /\ plugins.flow_plugin sample.echo sample.schema
       [plugins.mkDocumentFile "a.graphql"
          (plugins.mkDocumentNode ["type A = {};"; "type B = {};"]);
        plugins.mkDocumentFile "b.graphql" (plugins.mkDocumentNode [])] tt
     = plugins.flow_plugin sample.echo sample.schema
         [plugins.mkDocumentFile "c.graphql" (plugins.mkDocumentNode ["type A = {};"]);
          plugins.mkDocumentFile "d.graphql" (plugins.mkDocumentNode ["type B = {};"])] tt.
Proof.
  apply (plugins_see_the_definitions_only sample.echo sample.schema
           [plugins.mkDocumentFile "a.graphql"
              (plugins.mkDocumentNode ["type A = {};"; "type B = {};"]);
            plugins.mkDocumentFile "b.graphql" (plugins.mkDocumentNode [])]
           [plugins.mkDocumentFile "c.graphql" (plugins.mkDocumentNode ["type A = {};"]);
            plugins.mkDocumentFile "d.graphql" (plugins.mkDocumentNode ["type B = {};"])] tt).
  reflexivity.
Defined.
